(** * Segmentation analysis: the analytics engine, embedded and verified

    A shallow embedding of the Python sources under [src/] (dates,
    caching, processor, validator, metrics, summary, matrix, cohort,
    risk and sankey) together with the properties stated about them.

    Conventions of the embedding.
    - Python exceptions are values of [exn]; a function that can raise
      returns a [result].
    - Numbers are exact rationals ([Qc]); Python's [int] and [float] are
      not distinguished and rounding of IEEE doubles is not modelled.
    - Strings are sequences of characters with codes 0..255.
    - A pandas frame is a list of rows together with the list of its
      column labels, so that a lookup of an absent label can raise
      [KeyError] even when there is no row. *)

From Stdlib Require Import ZArith List Lia String Ascii Bool.
From Stdlib Require Import Permutation Sorted QArith Qcanon Qround DecimalString.
From Stdlib Require DecimalZ DecimalPos.
From Equations Require Import Equations.
Import ListNotations.

Open Scope string_scope.
Open Scope Z_scope.

(* ===================================================================== *)
(** * Part I: the embedding *)
(* ===================================================================== *)

(** ** The Python runtime the sources rely on *)

Module Py.

(** The payload of a [ValueError]. *)
Inductive message : Type :=
| InvalidLiteral (literal : string)       (* int() refuses the literal *)
| MissingColumns (file_name : string) (missing : list string)
| EmptySequence.                          (* min() of an empty list *)

Inductive exn : Type :=
| KeyError (labels : list string)         (* the labels not found *)
| IndexError                              (* positional indexer out of bounds *)
| ValueError (m : message).

Inductive result (A : Type) : Type :=
| Ok (a : A)
| Raise (e : exn).
Arguments Ok {A} a.
Arguments Raise {A} e.

Definition bind {A B} (r : result A) (k : A -> result B) : result B :=
  match r with
  | Ok a => k a
  | Raise e => Raise e
  end.

Definition raises {A} (r : result A) : Prop := exists e, r = Raise e.

(** [for x in xs: body] where the body can raise and threads an
    accumulator. *)
Fixpoint for_each {A S} (body : S -> A -> result S) (xs : list A) (s : S)
  : result S :=
  match xs with
  | [] => Ok s
  | x :: xs' => bind (body s x) (for_each body xs')
  end.

(** *** Strings *)

Definition startswith (s pre : string) : bool := String.prefix pre s.

(** [sub in s] *)
Fixpoint contains (sub s : string) : bool :=
  String.prefix sub s ||
  match s with
  | EmptyString => false
  | String _ s' => contains sub s'
  end.

(** [s[n:]] *)
Fixpoint slice_from (n : nat) (s : string) : string :=
  match n, s with
  | O, _ => s
  | S n', String _ s' => slice_from n' s'
  | S _, EmptyString => EmptyString
  end.

Fixpoint string_rev_onto (acc s : string) : string :=
  match s with
  | EmptyString => acc
  | String c s' => string_rev_onto (String c acc) s'
  end.

Definition string_rev (s : string) : string := string_rev_onto EmptyString s.

(** *** [int(str)]

    Surrounding white space is dropped, one sign is accepted, then
    decimal digits follow in which single underscores may separate two
    digits; a literal of more than [int_max_str_digits] digits is
    refused.  Anything else raises [ValueError].

    The white space of [int] is the tab, the line feed, the vertical
    tab, the form feed, the carriage return and the space, and beyond
    ASCII the next-line and the no-break space; the separators 28 to 31,
    which [str.isspace] accepts, are not dropped. *)

Definition isspace (c : ascii) : bool :=
  let n := nat_of_ascii c in
  ((9 <=? n) && (n <=? 13) || (n =? 32) || (n =? 133) || (n =? 160))%nat.

Fixpoint lstrip (s : string) : string :=
  match s with
  | String c s' => if isspace c then lstrip s' else s
  | EmptyString => EmptyString
  end.

Definition strip (s : string) : string :=
  string_rev (lstrip (string_rev (lstrip s))).

Definition digit (c : ascii) : option Z :=
  let n := nat_of_ascii c in
  if ((48 <=? n) && (n <=? 57))%nat then Some (Z.of_nat n - 48) else None.

(** [after_digit] tells whether the previous character was a digit, the
    only place where an underscore or the end is accepted. *)
Fixpoint digits (acc : Z) (after_digit : bool) (s : string) : option Z :=
  match s with
  | EmptyString => if after_digit then Some acc else None
  | String c s' =>
      match digit c with
      | Some d => digits (10 * acc + d) true s'
      | None =>
          if Ascii.eqb c "_"%char && after_digit
          then digits acc false s'
          else None
      end
  end.

(** [sys.get_int_max_str_digits()], at its default. *)
Definition int_max_str_digits : nat := 4300.

Fixpoint count_digits (s : string) : nat :=
  match s with
  | EmptyString => O
  | String c s' =>
      match digit c with
      | Some _ => S (count_digits s')
      | None => count_digits s'
      end
  end.

(** The value of a literal, [None] when [int] refuses it. *)
Definition int_literal (s : string) : option Z :=
  let value :=
    match strip s with
    | String "-"%char s' => option_map Z.opp (digits 0 false s')
    | String "+"%char s' => digits 0 false s'
    | s' => digits 0 false s'
    end in
  if (count_digits s <=? int_max_str_digits)%nat then value else None.

Definition int (s : string) : result Z :=
  match int_literal s with
  | Some z => Ok z
  | None => Raise (ValueError (InvalidLiteral s))
  end.

(** [str(n)] for an integer, as an f-string renders it. *)
Definition str (z : Z) : string := NilZero.string_of_int (Z.to_int z).

(** *** Sequences *)

(** [range(n)] *)
Definition range (n : Z) : list Z := map Z.of_nat (seq 0 (Z.to_nat n)).

Fixpoint insert {A} (leb : A -> A -> bool) (x : A) (l : list A) : list A :=
  match l with
  | [] => [x]
  | y :: l' => if leb x y then x :: l else y :: insert leb x l'
  end.

(** [sorted(l)]: a stable sort. *)
Fixpoint sorted {A} (leb : A -> A -> bool) (l : list A) : list A :=
  match l with
  | [] => []
  | x :: l' => insert leb x (sorted leb l')
  end.

Definition mem (x : string) (l : list string) : bool :=
  existsb (String.eqb x) l.

(** [Series.unique()]: the distinct values in order of first appearance. *)
Fixpoint unique (l : list string) : list string :=
  match l with
  | [] => []
  | x :: l' => x :: filter (fun y => negb (String.eqb x y)) (unique l')
  end.

(** [Series.dropna()] *)
Fixpoint dropna {A} (l : list (option A)) : list A :=
  match l with
  | [] => []
  | Some x :: l' => x :: dropna l'
  | None :: l' => dropna l'
  end.

(** *** Numbers *)

Abbreviation num := Qc.

Definition of_Z (z : Z) : num := Q2Qc (inject_Z z).
Definition of_nat (n : nat) : num := of_Z (Z.of_nat n).

Definition ltb (x y : num) : bool :=
  match (x ?= y)%Qc with Lt => true | _ => false end.

(** [sum(xs)] and [Series.sum()] *)
Definition sum (xs : list num) : num := fold_left Qcplus xs (of_Z 0).

(** [round(x, 2)], ties to the even neighbour. *)
Definition round_half_even (x : num) : Z :=
  let n := Qfloor x in
  match ((x - of_Z n) ?= Q2Qc (1 # 2))%Qc with
  | Lt => n
  | Gt => n + 1
  | Eq => if Z.even n then n else n + 1
  end.

Definition round2 (x : num) : num :=
  (of_Z (round_half_even (x * of_Z 100)) / of_Z 100)%Qc.

(** *** Frames *)

(** A frame built by [pd.DataFrame(records)]: without a record there is
    no column. *)
Record DataFrame (R : Type) : Type := mkDataFrame {
  df_columns : list string;
  df_rows : list R
}.
Arguments mkDataFrame {R} _ _.
Arguments df_columns {R} _.
Arguments df_rows {R} _.

Definition DataFrame_of_records {R} (keys : list string) (records : list R)
  : DataFrame R :=
  {| df_columns := match records with [] => [] | _ :: _ => keys end;
     df_rows := records |}.

(** [df[label]]: the rows seen through the column, or [KeyError]. *)
Definition getitem {R} (df : DataFrame R) (label : string)
  : result (list R) :=
  if mem label (df_columns df) then Ok (df_rows df)
  else Raise (KeyError [label]).

End Py.

Import Py.

Notation "x <- r ;; k" := (Py.bind r (fun x => k))
  (at level 61, r at next level, right associativity).

(** ** [src/config/settings.py] *)

Module Settings.

Definition SEGMENT_COLS_entity : string := "glbl_enti_nbr".
Definition SEGMENT_COLS_month : string := "segmentation_mnth".
Definition SEGMENT_COLS_segment : string := "dmnt_seg_cd".

Definition METRICS_COLS_entity : string := "glbl_enti_nbr".
Definition METRICS_COLS_month : string := "shp_dt_yyyymm".

(** The two settings read from the environment. *)
Record settings : Type := mkSettings {
  TTM_MONTHS : Z;
  ENABLE_CACHING : bool
}.

Definition default : settings :=
  {| TTM_MONTHS := 12; ENABLE_CACHING := true |}.

End Settings.

(** ** [src/utils/dates.py] *)

Module Dates.

(** How far [m] is below the first month, the variant of the loop. *)
Definition underflow (m : Z) : nat := Z.to_nat (1 - m).

Lemma underflow_decreases (m : Z) :
  m <= 0 -> (underflow (m + 12) < underflow m)%nat.
Proof. unfold underflow. lia. Qed.

(** [while m <= 0: m += 12; y -= 1] *)
Equations wrap_month (m y : Z) : Z * Z by wf (underflow m) lt :=
  wrap_month m y with Z_le_gt_dec m 0 := {
    | left _ := wrap_month (m + 12) (y - 1);
    | right _ := (m, y) }.
Next Obligation. apply underflow_decreases; assumption. Qed.

Definition get_ttm_months (month : Z) (num_months : Z) : list Z :=
  let year := month / 100 in
  let month_num := month mod 100 in
  let months :=
    map (fun i =>
           let '(m, y) := wrap_month (month_num - i) year in
           y * 100 + m)
        (range num_months) in
  sorted Z.leb months.

(** The month appended at step [i] of the loop. *)
Definition month_at (month : Z) (i : Z) : Z :=
  let '(m, y) := wrap_month (month mod 100 - i) (month / 100) in
  y * 100 + m.

End Dates.

(** ** The tables exchanged between the components *)

Module Frames.

(** A row of a segment assignment file.  A table lists the labels of the
    columns it really has; a field whose column is absent is never read,
    the lookup of its label raises first. *)
Record SegRow : Type := mkSegRow {
  seg_entity : string;
  seg_month : Z;
  seg_segment : option string          (* [None] is a null (NaN) code *)
}.

Definition SegTable : Type := DataFrame SegRow.

(** A row of the long metrics table: one entity, one month, one value
    per metric column. *)
Record MetricRow : Type := mkMetricRow {
  met_entity : string;
  met_month : Z;
  met_values : list (string * num)
}.

Definition MetricsTable : Type := DataFrame MetricRow.

(** A row of the aggregated (trailing window) metrics. *)
Record TtmRow : Type := mkTtmRow {
  ttm_entity : string;
  ttm_values : list (string * num)
}.

Definition TtmFrame : Type := DataFrame TtmRow.

(** A row of the comparison table.  While the table is being built a
    numeric cell can be missing (NaN), so the cell type is a parameter;
    the finished snapshot has [num] cells. *)
Record Row (C : Type) : Type := mkRow {
  entity : string;
  base_segment : option string;
  current_segment : option string;
  status : string;
  cells : list (string * C)
}.
Arguments mkRow {C} _ _ _ _ _.
Arguments entity {C} _.
Arguments base_segment {C} _.
Arguments current_segment {C} _.
Arguments status {C} _.
Arguments cells {C} _.

Definition SnapshotRow : Type := Row num.
Definition Snapshot : Type := DataFrame SnapshotRow.

Fixpoint lookup {C} (label : string) (kvs : list (string * C)) : option C :=
  match kvs with
  | [] => None
  | (k, v) :: kvs' => if String.eqb label k then Some v else lookup label kvs'
  end.

(** [row[label]] for a numeric column of a finished snapshot. *)
Definition cell (label : string) (r : SnapshotRow) : num :=
  match lookup label (cells r) with
  | Some v => v
  | None => of_Z 0
  end.

(** [df[mask]] *)
Definition select {R} (mask : R -> bool) (df : DataFrame R) : DataFrame R :=
  {| df_columns := df_columns df; df_rows := filter mask (df_rows df) |}.

(** Element-wise tests on a nullable segment column. *)
Definition isna {A} (o : option A) : bool :=
  match o with None => true | Some _ => false end.
Definition notna {A} (o : option A) : bool := negb (isna o).

(** [column == code]: false on a null. *)
Definition eq_code (o : option string) (code : string) : bool :=
  match o with Some x => String.eqb x code | None => false end.
(** [column != code]: true on a null. *)
Definition ne_code (o : option string) (code : string) : bool :=
  negb (eq_code o code).

(** [sorted(df[column].dropna().unique())] *)
Definition sorted_codes (column : list (option string)) : list string :=
  sorted String.leb (unique (dropna column)).

End Frames.

Import Frames.

(** ** [src/utils/caching.py] *)

Module Caching.

(** The two cache directories, each a store from identifier to the
    pickled table.  Writing and reading back always succeed here. *)
Record cache : Type := mkCache {
  snapshots : list (string * Snapshot);
  metrics : list (string * TtmFrame)
}.

Definition empty : cache := {| snapshots := []; metrics := [] |}.

Definition load_from_cache {A} (cfg : Settings.settings)
    (store : list (string * A)) (identifier : string) : option A :=
  if negb (Settings.ENABLE_CACHING cfg) then None
  else lookup identifier store.

Definition save_to_cache {A} (cfg : Settings.settings) (data : A)
    (store : list (string * A)) (identifier : string) : list (string * A) :=
  if negb (Settings.ENABLE_CACHING cfg) then store
  else (identifier, data) :: store.

(** Computations that read and write the cache and can raise. *)
Definition M (A : Type) : Type := cache -> result A * cache.

Definition ret {A} (a : A) : M A := fun c => (Ok a, c).

Definition lift {A} (r : result A) : M A := fun c => (r, c).

Definition bind {A B} (m : M A) (k : A -> M B) : M B :=
  fun c =>
    match m c with
    | (Ok a, c') => k a c'
    | (Raise e, c') => (Raise e, c')
    end.

End Caching.

Notation "x <~ m ;; k" := (Caching.bind m (fun x => k))
  (at level 61, m at next level, right associativity).

(** ** [src/data/processor.py] *)

Module Processor.

Import Settings Caching.

Definition detect_metric_columns (metrics_glbl : MetricsTable) : list string :=
  filter (fun col => negb (mem col [METRICS_COLS_entity; METRICS_COLS_month]))
         (df_columns metrics_glbl).

(** [groupby(entity, as_index=False).agg({col: 'sum'})]: one row per
    entity in ascending order of the key, every metric column summed. *)
Definition groupby_sum (metric_cols : list string) (rows : list MetricRow)
  : list TtmRow :=
  map (fun key =>
         let group := filter (fun r => String.eqb (met_entity r) key) rows in
         {| ttm_entity := key;
            ttm_values :=
              map (fun col =>
                     (col, sum (dropna (map (fun r => lookup col (met_values r))
                                            group))))
                  metric_cols |})
      (sorted String.leb (unique (map met_entity rows))).

Definition calculate_ttm_metrics (cfg : settings)
    (metrics_glbl : MetricsTable) (month : Z) : M TtmFrame :=
  fun c =>
    let cache_id := "ttm_" ++ str month in
    match load_from_cache cfg (metrics c) cache_id with
    | Some cached_data => (Ok cached_data, c)
    | None =>
        let ttm_months := Dates.get_ttm_months month (TTM_MONTHS cfg) in
        match ttm_months with
        | [] => (Raise (ValueError EmptySequence), c)   (* min(ttm_months) *)
        | _ :: _ =>
            match getitem metrics_glbl METRICS_COLS_month with
            | Raise e => (Raise e, c)
            | Ok rows =>
                let metrics_ttm :=
                  filter (fun r => existsb (Z.eqb (met_month r)) ttm_months)
                         rows in
                let metric_cols := detect_metric_columns metrics_glbl in
                match getitem metrics_glbl METRICS_COLS_entity with
                | Raise e => (Raise e, c)
                | Ok _ =>
                    let ttm_metrics :=
                      {| df_columns := METRICS_COLS_entity :: metric_cols;
                         df_rows := groupby_sum metric_cols metrics_ttm |} in
                    (Ok ttm_metrics,
                     {| snapshots := snapshots c;
                        metrics := save_to_cache cfg ttm_metrics (metrics c)
                                                 cache_id |})
                end
            end
        end
    end.

(** Boolean series and masked assignment. *)
Fixpoint zip_with {A B C} (f : A -> B -> C) (l : list A) (l' : list B)
  : list C :=
  match l, l' with
  | a :: l, b :: l' => f a b :: zip_with f l l'
  | _, _ => []
  end.

Definition series_and : list bool -> list bool -> list bool := zip_with andb.
Definition series_not : list bool -> list bool := map negb.

(** [status[mask] = value] *)
Definition mask_assign (status : list string) (mask : list bool)
    (value : string) : list string :=
  zip_with (fun s (m : bool) => if m then value else s) status mask.

(** [a == b] on two nullable object columns: false where either is null. *)
Definition series_eq (a b : list (option string)) : list bool :=
  zip_with (fun x y =>
              match x, y with
              | Some s, Some t => String.eqb s t
              | _, _ => false
              end) a b.

Definition classify_status_vectorized {C} (snapshot : list (Row C))
  : list string :=
  let base_na := map (fun r => isna (base_segment r)) snapshot in
  let curr_na := map (fun r => isna (current_segment r)) snapshot in
  let same_seg := series_eq (map base_segment snapshot)
                            (map current_segment snapshot) in
  let status := map (fun _ => "") snapshot in
  let status := mask_assign status
                  (series_and base_na (series_not curr_na)) "New (System)" in
  let status := mask_assign status
                  (series_and (series_not base_na) curr_na) "Lost (System)" in
  let status := mask_assign status
                  (series_and (series_and same_seg (series_not base_na))
                              (series_not curr_na)) "Retained" in
  let status := mask_assign status
                  (series_and (series_and (series_not same_seg)
                                          (series_not base_na))
                              (series_not curr_na)) "Moved Internal" in
  status.

(** [df.iloc[0]] on a column. *)
Definition iloc0 {A} (column : list A) : result A :=
  match column with
  | [] => Raise IndexError
  | x :: _ => Ok x
  end.

(** [df[[a, b]]]: the labels that are not columns are reported. *)
Definition getitems {R} (df : DataFrame R) (labels : list string)
  : result (list R) :=
  match filter (fun l => negb (mem l (df_columns df))) labels with
  | [] => Ok (df_rows df)
  | missing => Raise (KeyError missing)
  end.

(** [base.merge(curr, on='entity', how='outer')]: the union of the keys
    in ascending order; for a key on both sides every pairing of its
    rows, for a key on one side its rows with a null on the other.
    (The order of the keys is that of pandas 2.2; earlier releases do
    not always sort them.) *)
Definition merge_outer (base curr : list (string * option string))
  : list (Row (option num)) :=
  flat_map
    (fun key =>
       let l := filter (fun r => String.eqb (fst r) key) base in
       let r := filter (fun r => String.eqb (fst r) key) curr in
       match l, r with
       | [], _ => map (fun y => mkRow key None (snd y) "" []) r
       | _, [] => map (fun x => mkRow key (snd x) None "" []) l
       | _, _ =>
           flat_map (fun x => map (fun y => mkRow key (snd x) (snd y) "" []) r) l
       end)
    (sorted String.leb (unique (map fst base ++ map fst curr))).

(** [df.rename(columns=mapping)] on the aggregated metrics. *)
Definition rename (f : string -> string) (df : TtmFrame) : TtmFrame :=
  {| df_columns := map f (df_columns df);
     df_rows := map (fun r => {| ttm_entity := ttm_entity r;
                                 ttm_values := map (fun kv => (f (fst kv), snd kv))
                                                   (ttm_values r) |})
                    (df_rows df) |}.

(** [snapshot.merge(metrics, on='entity', how='left')]: the rows of the
    left table in their order; the metric cells of an entity without
    metrics are missing. *)
Definition merge_left (snapshot : DataFrame (Row (option num)))
    (metrics : TtmFrame) : result (DataFrame (Row (option num))) :=
  _ <- getitem metrics "entity" ;;
  let metric_cols :=
    filter (fun col => negb (String.eqb col "entity")) (df_columns metrics) in
  let extend (r : Row (option num)) (values : string -> option num) :=
    mkRow (entity r) (base_segment r) (current_segment r) (status r)
          (cells r ++ map (fun col => (col, values col)) metric_cols) in
  Ok {| df_columns := df_columns snapshot ++ metric_cols;
        df_rows :=
          flat_map
            (fun r =>
               match filter (fun m => String.eqb (ttm_entity m) (entity r))
                            (df_rows metrics) with
               | [] => [extend r (fun _ => None)]
               | ms => map (fun m => extend r (fun col => lookup col (ttm_values m)))
                           ms
               end)
            (df_rows snapshot) |}.

(** [snapshot[cols] = snapshot[cols].fillna(0)] over the metric columns. *)
Definition fillna0 (snapshot : DataFrame (Row (option num))) : Snapshot :=
  {| df_columns := df_columns snapshot;
     df_rows :=
       map (fun r =>
              mkRow (entity r) (base_segment r) (current_segment r) (status r)
                    (map (fun kv => (fst kv,
                                     match snd kv with
                                     | Some v => v
                                     | None => of_Z 0
                                     end))
                         (cells r)))
           (df_rows snapshot) |}.

Definition set_status {C} (rows : list (Row C)) (status : list string)
  : list (Row C) :=
  zip_with (fun r s => mkRow (entity r) (base_segment r) (current_segment r)
                             s (cells r))
           rows status.

Definition create_snapshot (cfg : settings)
    (base_seg curr_seg : SegTable) (metrics_glbl : MetricsTable) : M Snapshot :=
  (* Get months *)
  base_rows <~ lift (getitem base_seg SEGMENT_COLS_month) ;;
  base_month <~ lift (iloc0 (map seg_month base_rows)) ;;
  curr_rows <~ lift (getitem curr_seg SEGMENT_COLS_month) ;;
  current_month <~ lift (iloc0 (map seg_month curr_rows)) ;;
  (* Try to load from cache *)
  let cache_id := "snapshot_" ++ str base_month ++ "_" ++ str current_month in
  fun c =>
    match load_from_cache cfg (snapshots c) cache_id with
    | Some cached_data => (Ok cached_data, c)
    | None =>
        (base <~ lift (getitems base_seg [SEGMENT_COLS_entity; SEGMENT_COLS_segment]) ;;
         curr <~ lift (getitems curr_seg [SEGMENT_COLS_entity; SEGMENT_COLS_segment]) ;;
         (* Merge segmentation *)
         let merged :=
           merge_outer (map (fun r => (seg_entity r, seg_segment r)) base)
                       (map (fun r => (seg_entity r, seg_segment r)) curr) in
         (* Classify status *)
         let snapshot :=
           {| df_columns := ["entity"; "base_segment"; "current_segment"; "status"];
              df_rows := set_status merged (classify_status_vectorized merged) |} in
         (* Calculate TTM metrics *)
         base_metrics <~ calculate_ttm_metrics cfg metrics_glbl base_month ;;
         curr_metrics <~ calculate_ttm_metrics cfg metrics_glbl current_month ;;
         let to_entity col :=
           if String.eqb col METRICS_COLS_entity then "entity" else col in
         let base_metrics := rename to_entity base_metrics in
         let curr_metrics := rename to_entity curr_metrics in
         let metric_cols :=
           filter (fun col => negb (String.eqb col "entity"))
                  (df_columns base_metrics) in
         let prefixed p col := if mem col metric_cols then p ++ col else col in
         let base_metrics := rename (prefixed "base_") base_metrics in
         let curr_metrics := rename (prefixed "current_") curr_metrics in
         (* Merge metrics *)
         snapshot <~ lift (merge_left snapshot base_metrics) ;;
         snapshot <~ lift (merge_left snapshot curr_metrics) ;;
         (* Fill NaN *)
         let snapshot := fillna0 snapshot in
         (* Save to cache *)
         fun c' =>
           (Ok snapshot,
            {| snapshots := save_to_cache cfg snapshot (snapshots c') cache_id;
               metrics := metrics c' |})) c
    end.

End Processor.

(** ** [src/data/validator.py] *)

Module Validator.

Import Settings.

(** The warnings about duplicate entities and null segments are printed
    and do not change the outcome. *)
Definition validate_segmentation_data (df : SegTable) (file_name : string)
  : result bool :=
  let required_cols :=
    [SEGMENT_COLS_entity; SEGMENT_COLS_month; SEGMENT_COLS_segment] in
  let missing_cols :=
    filter (fun col => negb (mem col (df_columns df))) required_cols in
  match missing_cols with
  | _ :: _ => Raise (ValueError (MissingColumns file_name missing_cols))
  | [] => Ok true
  end.

End Validator.

(** ** [src/analysis/metrics.py] *)

Module Metrics.

(** The selector is ['count'] or the name of a numeric metric (for the
    name [segment] the prefixed column would be the segment code, which
    is not a number; the properties below leave that name out). *)
Definition calculate_metric (df : Snapshot) (period metric : string) : num :=
  if Nat.eqb (List.length (df_rows df)) 0 then of_Z 0
  else if String.eqb metric "count" then of_nat (List.length (df_rows df))
  else
    let col_name := period ++ "_" ++ metric in
    if mem col_name (df_columns df)
    then sum (map (cell col_name) (df_rows df))
    else of_Z 0.

End Metrics.

(** ** [src/analysis/summary.py] *)

Module Summary.

Import Metrics.

(** A row of the summary: the dictionary [row] of the source, its
    numeric entries in insertion order. *)
Record SummaryRow : Type := mkSummaryRow {
  Segment : string;
  fields : list (string * num)
}.

Definition field (label : string) (r : SummaryRow) : num :=
  match lookup label (fields r) with
  | Some v => v
  | None => of_Z 0
  end.

Definition summary_columns : list string :=
  ["Segment"; "Base"; "Current"; "Retained"; "New (System)";
   "Added (Other Seg)"; "Lost (Other Seg)"; "Lost (System)"; "Net Change"].

(** The body of the loop over [all_segments]. *)
Definition segment_row (snapshot : Snapshot) (metric segment : string)
  : SummaryRow :=
  let base_entities :=
    select (fun r => eq_code (base_segment r) segment) snapshot in
  let Base := calculate_metric base_entities "base" metric in
  let curr_entities :=
    select (fun r => eq_code (current_segment r) segment) snapshot in
  let Current := calculate_metric curr_entities "current" metric in
  let retained :=
    select (fun r => eq_code (base_segment r) segment
                     && eq_code (current_segment r) segment) snapshot in
  let new_system :=
    select (fun r => eq_code (current_segment r) segment
                     && isna (base_segment r)) snapshot in
  let added :=
    select (fun r => eq_code (current_segment r) segment
                     && notna (base_segment r)
                     && ne_code (base_segment r) segment) snapshot in
  let lost_other :=
    select (fun r => eq_code (base_segment r) segment
                     && notna (current_segment r)
                     && ne_code (current_segment r) segment) snapshot in
  let lost_system :=
    select (fun r => eq_code (base_segment r) segment
                     && isna (current_segment r)) snapshot in
  {| Segment := segment;
     fields :=
       [("Base", Base);
        ("Current", Current);
        ("Retained", calculate_metric retained "current" metric);
        ("New (System)", calculate_metric new_system "current" metric);
        ("Added (Other Seg)", calculate_metric added "current" metric);
        ("Lost (Other Seg)", calculate_metric lost_other "base" metric);
        ("Lost (System)", calculate_metric lost_system "base" metric);
        ("Net Change", (Current - Base)%Qc)] |}.

Definition all_segments (snapshot : Snapshot) : list string :=
  let base_segments := unique (dropna (map base_segment (df_rows snapshot))) in
  let curr_segments :=
    unique (dropna (map current_segment (df_rows snapshot))) in
  sorted String.leb (unique (base_segments ++ curr_segments)).

(** The totals row: one entry per column of the frame other than
    [Segment], the sum of that column. *)
Definition totals_row (df : DataFrame SummaryRow) : SummaryRow :=
  {| Segment := "TOTAL";
     fields :=
       map (fun col => (col, sum (map (field col) (df_rows df))))
           (filter (fun col => negb (String.eqb col "Segment"))
                   (df_columns df)) |}.

(** [pd.concat([df, totals_df], ignore_index=True)] *)
Definition concat_row (df : DataFrame SummaryRow) (totals : SummaryRow)
  : DataFrame SummaryRow :=
  let totals_columns := "Segment" :: map fst (fields totals) in
  {| df_columns :=
       df_columns df
       ++ filter (fun col => negb (mem col (df_columns df))) totals_columns;
     df_rows := df_rows df ++ [totals] |}.

Definition generate_summary_view (snapshot : Snapshot) (metric : string)
  : result (DataFrame SummaryRow) :=
  let summary_data :=
    map (segment_row snapshot metric) (all_segments snapshot) in
  let df := DataFrame_of_records summary_columns summary_data in
  (* Add totals row *)
  let totals := totals_row df in
  let df := concat_row df totals in
  (* the two print statements read the columns Base and Current *)
  _ <- getitem df "Base" ;;
  _ <- getitem df "Current" ;;
  Ok df.

End Summary.

(** ** [src/analysis/matrix.py] *)

Module Matrix.

Import Metrics.

(** A labelled matrix.  Cells are addressed by the pair of labels; the
    store keeps the assignments, the latest first, and a cell never
    assigned holds the initial [0.0]. *)
Record matrix : Type := mkMatrix {
  index : list string;
  columns : list string;
  data : list (string * string * num)
}.

Definition key_eqb (r c : string) (e : string * string * num) : bool :=
  String.eqb r (fst (fst e)) && String.eqb c (snd (fst e)).

(** [matrix.loc[r, c]] *)
Definition loc (m : matrix) (r c : string) : num :=
  match find (key_eqb r c) (data m) with
  | Some e => snd e
  | None => of_Z 0
  end.

(** [matrix.loc[r, c] = v] for labels that are in the index and in the
    columns. *)
Definition loc_set (m : matrix) (r c : string) (v : num) : matrix :=
  {| index := index m; columns := columns m; data := (r, c, v) :: data m |}.

(** [matrix.sum(axis=1)], aligned with the index. *)
Definition sum_axis1 (m : matrix) : list num :=
  map (fun r => sum (map (loc m r) (columns m))) (index m).

(** [matrix.sum(axis=0)], aligned with the columns. *)
Definition sum_axis0 (m : matrix) : list num :=
  map (fun c => sum (map (fun r => loc m r c) (index m))) (columns m).

(** [matrix[label] = series] *)
Definition set_column (m : matrix) (label : string) (series : list num)
  : matrix :=
  let m' :=
    fold_left (fun acc rv => loc_set acc (fst rv) label (snd rv))
              (combine (index m) series) m in
  {| index := index m';
     columns := if mem label (columns m') then columns m'
                else columns m' ++ [label];
     data := data m' |}.

(** [matrix.loc[label] = series] *)
Definition set_row (m : matrix) (label : string) (series : list num)
  : matrix :=
  let m' :=
    fold_left (fun acc cv => loc_set acc label (fst cv) (snd cv))
              (combine (columns m) series) m in
  {| index := if mem label (index m') then index m'
              else index m' ++ [label];
     columns := columns m';
     data := data m' |}.

Definition base_segments (snapshot : Snapshot) : list string :=
  sorted_codes (map base_segment (df_rows snapshot)).

Definition curr_segments (snapshot : Snapshot) : list string :=
  sorted_codes (map current_segment (df_rows snapshot)).

(** The value written in a cell of each of the three kinds. *)
Definition movement (snapshot : Snapshot) (metric base_seg curr_seg : string)
  : num :=
  let movement :=
    select (fun r => eq_code (base_segment r) base_seg
                     && eq_code (current_segment r) curr_seg) snapshot in
  calculate_metric movement "current" metric.

Definition lost (snapshot : Snapshot) (metric base_seg : string) : num :=
  let lost :=
    select (fun r => eq_code (base_segment r) base_seg
                     && isna (current_segment r)) snapshot in
  calculate_metric lost "base" metric.

Definition new (snapshot : Snapshot) (metric curr_seg : string) : num :=
  let new :=
    select (fun r => eq_code (current_segment r) curr_seg
                     && isna (base_segment r)) snapshot in
  calculate_metric new "current" metric.

(** The loops that fill the movements: for each base segment its row and
    its Lost cell, then the New row. *)
Definition fill_movements (snapshot : Snapshot) (metric : string)
    (m : matrix) : matrix :=
  let m :=
    fold_left
      (fun m base_seg =>
         let m :=
           fold_left
             (fun m curr_seg =>
                loc_set m base_seg curr_seg
                        (movement snapshot metric base_seg curr_seg))
             (curr_segments snapshot) m in
         loc_set m base_seg "Lost" (lost snapshot metric base_seg))
      (base_segments snapshot) m in
  fold_left
    (fun m curr_seg => loc_set m "New" curr_seg (new snapshot metric curr_seg))
    (curr_segments snapshot) m.

(** The result before [reset_index], which only moves the row labels
    into a leading column. *)
Definition generate_movement_matrix (snapshot : Snapshot) (metric : string)
  : matrix :=
  let all_base := (base_segments snapshot ++ ["New"])%list in
  let all_curr := (curr_segments snapshot ++ ["Lost"])%list in
  let matrix := {| index := all_base; columns := all_curr; data := [] |} in
  let matrix := fill_movements snapshot metric matrix in
  (* Totals *)
  let matrix := set_column matrix "Total Out" (sum_axis1 matrix) in
  let matrix := set_row matrix "Total In" (sum_axis0 matrix) in
  matrix.

End Matrix.

(** ** [src/analysis/cohort.py] *)

Module Cohort.

Record CohortRow : Type := mkCohortRow {
  Base_Segment : string;
  Cohort_Size : Z;
  Retained : Z;
  Moved_Up : Z;
  Moved_Down : Z;
  Churned : Z;
  Retention_Rate : num;
  Churn_Rate : num
}.

Definition cohort_columns : list string :=
  ["Base Segment"; "Cohort Size"; "Retained"; "Moved Up"; "Moved Down";
   "Churned"; "Retention Rate"; "Churn Rate"].

Definition len {R} (df : DataFrame R) : Z := Z.of_nat (List.length (df_rows df)).

Definition has_status (s : string) (r : SnapshotRow) : bool :=
  String.eqb (status r) s.

Definition rate (part whole : Z) : num :=
  if 0 <? whole then (of_Z part / of_Z whole * of_Z 100)%Qc else of_Z 0.

(** The loop over the rows that moved: one more "up" when the current
    ordinal is lower than the base ordinal, one more "down" otherwise. *)
Definition count_moves (base_num : Z) (moved : list SnapshotRow)
  : result (Z * Z) :=
  for_each
    (fun (acc : Z * Z) row =>
       match current_segment row with
       | Some curr_seg =>
           curr_num <- int (slice_from 3 curr_seg) ;;
           if curr_num <? base_num then Ok (fst acc + 1, snd acc)
           else Ok (fst acc, snd acc + 1)
       | None => Ok acc
       end)
    moved (0, 0).

(** The body of the loop over [base_segments]. *)
Definition cohort_of (snapshot : Snapshot) (base_seg : string)
  : result CohortRow :=
  let cohort_data :=
    select (fun r => eq_code (base_segment r) base_seg) snapshot in
  let size := len cohort_data in
  let retained := len (select (has_status "Retained") cohort_data) in
  let churned := len (select (has_status "Lost (System)") cohort_data) in
  base_num <- int (slice_from 3 base_seg) ;;
  moves <- count_moves base_num
             (df_rows (select (has_status "Moved Internal") cohort_data)) ;;
  Ok {| Base_Segment := base_seg;
        Cohort_Size := size;
        Retained := retained;
        Moved_Up := fst moves;
        Moved_Down := snd moves;
        Churned := churned;
        Retention_Rate := rate retained size;
        Churn_Rate := rate churned size |}.

Definition identify_segment_cohorts (snapshot : Snapshot)
  : result (DataFrame CohortRow) :=
  let base_segments := sorted_codes (map base_segment (df_rows snapshot)) in
  cohorts <- for_each (fun cohorts base_seg =>
                         cohort <- cohort_of snapshot base_seg ;;
                         Ok (cohorts ++ [cohort])%list)
                      base_segments [] ;;
  let cohort_df := DataFrame_of_records cohort_columns cohorts in
  (* the print statement takes the mean of the Retention Rate column *)
  _ <- getitem cohort_df "Retention Rate" ;;
  Ok cohort_df.

End Cohort.

(** ** [src/analysis/risk.py] *)

Module Risk.

Import Cohort.

(** The entries of [risk_factors], before they are joined into text. *)
Inductive risk_factor : Type :=
| RevenueDeclined (rev_change_pct : num)
| LowRevenue
| BelowAverageRevenue
| BottomTier
| LowerTier
| MovedLower.

Record RiskRow : Type := mkRiskRow {
  risk_entity : string;
  risk_current_segment : option string;
  current_revenue : num;
  risk_score : Z;
  risk_level : string;
  risk_factors : list risk_factor
}.

Definition risk_columns : list string :=
  ["entity"; "current_segment"; "current_revenue"; "risk_score";
   "risk_level"; "risk_factors"].

Record SegmentRiskRow : Type := mkSegmentRiskRow {
  Segment : string;
  Current_Size : Z;
  Churn_Rate_pct : num;
  Revenue_Change_pct : num;
  Risk_Score : Z;
  Risk_Level : string
}.

Definition segment_risk_columns : list string :=
  ["Segment"; "Current Size"; "Churn Rate %"; "Revenue Change %";
   "Risk Score"; "Risk Level"].

Definition is_rev_col (period : string) (col : string) : bool :=
  startswith col period && contains "_rev_wf" col.

Definition base_rev_cols (snapshot : Snapshot) : list string :=
  filter (is_rev_col "base_") (df_columns snapshot).

Definition curr_rev_cols (snapshot : Snapshot) : list string :=
  filter (is_rev_col "current_") (df_columns snapshot).

Definition level_of (score : Z) : string :=
  if 60 <=? score then "High"
  else if 30 <=? score then "Medium"
  else "Low".

(** Factor 1: revenue decline (0-40 points). *)
Definition revenue_decline (base_rev curr_rev : num)
  : Z * list risk_factor :=
  if ltb (of_Z 0) base_rev then
    let rev_change_pct := ((curr_rev - base_rev) / base_rev * of_Z 100)%Qc in
    if ltb rev_change_pct (of_Z (-20)) then (40, [RevenueDeclined rev_change_pct])
    else if ltb rev_change_pct (of_Z (-10)) then (25, [RevenueDeclined rev_change_pct])
    else if ltb rev_change_pct (of_Z 0) then (10, [RevenueDeclined rev_change_pct])
    else (0, [])
  else (0, []).

(** Factor 2: low revenue (0-20 points). *)
Definition low_revenue (curr_rev : num) : Z * list risk_factor :=
  if ltb curr_rev (of_Z 5000) then (20, [LowRevenue])
  else if ltb curr_rev (of_Z 10000) then (10, [BelowAverageRevenue])
  else (0, []).

(** Factor 3: in declining segments (0-20 points). *)
Definition segment_tier (curr_seg : option string)
  : result (Z * list risk_factor) :=
  match curr_seg with
  | Some code =>
      seg_num <- int (slice_from 3 code) ;;
      if 16 <=? seg_num then Ok (20, [BottomTier])
      else if 11 <=? seg_num then Ok (10, [LowerTier])
      else Ok (0, [])
  | None => Ok (0, [])
  end.

(** Factor 4: recently moved segments (0-20 points). *)
Definition moved_down (entity : SnapshotRow)
  : result (Z * list risk_factor) :=
  if String.eqb (status entity) "Moved Internal" then
    match base_segment entity, current_segment entity with
    | Some base_seg, Some curr_seg =>
        base_num <- int (slice_from 3 base_seg) ;;
        curr_num <- int (slice_from 3 curr_seg) ;;
        if base_num <? curr_num then Ok (20, [MovedLower]) else Ok (0, [])
    | _, _ => Ok (0, [])
    end
  else Ok (0, []).

(** The two revenue totals of an entity:
    [sum(entity[col] for col in base_rev_cols if col in entity.index)]. *)
Definition base_rev_of (snapshot : Snapshot) (entity : SnapshotRow) : num :=
  sum (map (fun col => cell col entity) (base_rev_cols snapshot)).

Definition curr_rev_of (snapshot : Snapshot) (entity : SnapshotRow) : num :=
  sum (map (fun col => cell col entity) (curr_rev_cols snapshot)).

(** The body of the loop over [current_entities]: the score starts at 0
    and each factor adds its points in turn. *)
Definition score_entity (snapshot : Snapshot) (entity : SnapshotRow)
  : result RiskRow :=
  let score := 0 in
  let risk_factors := [] in
  let base_rev := base_rev_of snapshot entity in
  let curr_rev := curr_rev_of snapshot entity in
  let f1 := revenue_decline base_rev curr_rev in
  let score := score + fst f1 in
  let risk_factors := (risk_factors ++ snd f1)%list in
  let f2 := low_revenue curr_rev in
  let score := score + fst f2 in
  let risk_factors := (risk_factors ++ snd f2)%list in
  let curr_seg := current_segment entity in
  f3 <- segment_tier curr_seg ;;
  let score := score + fst f3 in
  let risk_factors := (risk_factors ++ snd f3)%list in
  f4 <- moved_down entity ;;
  let score := score + fst f4 in
  let risk_factors := (risk_factors ++ snd f4)%list in
  Ok {| risk_entity := Frames.entity entity;
        risk_current_segment := curr_seg;
        current_revenue := curr_rev;
        risk_score := score;
        risk_level := level_of score;
        risk_factors := risk_factors |}.

Section Sorting.

(** [df.sort_values(by, ascending=False)] with the default
    [kind='quicksort'], given the key of a row.  Which of the rows of
    equal key comes first is up to the sorting routine of the library;
    any routine is accepted here, and the properties state what they
    require of it. *)
Variable sort_values_descending : forall R : Type, (R -> Z) -> list R -> list R.

Definition calculate_churn_risk_score (snapshot : Snapshot)
  : result (DataFrame RiskRow) :=
  let current_entities :=
    select (fun r => notna (current_segment r)) snapshot in
  risk_scores <- for_each (fun risk_scores entity =>
                             r <- score_entity snapshot entity ;;
                             Ok (risk_scores ++ [r])%list)
                          (df_rows current_entities) [] ;;
  let risk_df := DataFrame_of_records risk_columns risk_scores in
  _ <- getitem risk_df "risk_score" ;;
  Ok {| df_columns := df_columns risk_df;
        df_rows := sort_values_descending RiskRow risk_score (df_rows risk_df) |}.

(** The body of the loop over [segments]. *)
Definition segment_risk (snapshot : Snapshot) (segment : string)
  : result SegmentRiskRow :=
  let seg_data :=
    select (fun r => eq_code (current_segment r) segment) snapshot in
  let base_in_segment :=
    select (fun r => eq_code (base_segment r) segment) snapshot in
  let churned := len (select (has_status "Lost (System)") base_in_segment) in
  let churn_rate := rate churned (len base_in_segment) in
  let base_seg_rev :=
    sum (map (fun col => sum (map (cell col) (df_rows base_in_segment)))
             (base_rev_cols snapshot)) in
  let curr_seg_rev :=
    sum (map (fun col => sum (map (cell col) (df_rows seg_data)))
             (curr_rev_cols snapshot)) in
  let rev_change_pct :=
    if ltb (of_Z 0) base_seg_rev
    then ((curr_seg_rev - base_seg_rev) / base_seg_rev * of_Z 100)%Qc
    else of_Z 0 in
  let risk_score := 0 in
  let risk_score :=
    if ltb (of_Z 10) churn_rate then risk_score + 40
    else if ltb (of_Z 5) churn_rate then risk_score + 20
    else risk_score in
  let risk_score :=
    if ltb rev_change_pct (of_Z (-15)) then risk_score + 40
    else if ltb rev_change_pct (of_Z (-5)) then risk_score + 20
    else risk_score in
  seg_num <- int (slice_from 3 segment) ;;
  let risk_score := if 15 <=? seg_num then risk_score + 20 else risk_score in
  Ok {| Segment := segment;
        Current_Size := len seg_data;
        Churn_Rate_pct := round2 churn_rate;
        Revenue_Change_pct := round2 rev_change_pct;
        Risk_Score := risk_score;
        Risk_Level := level_of risk_score |}.

Definition identify_at_risk_segments (snapshot : Snapshot)
  : result (DataFrame SegmentRiskRow) :=
  let segments := sorted_codes (map current_segment (df_rows snapshot)) in
  segment_risks <- for_each (fun segment_risks segment =>
                               r <- segment_risk snapshot segment ;;
                               Ok (segment_risks ++ [r])%list)
                            segments [] ;;
  let risk_df := DataFrame_of_records segment_risk_columns segment_risks in
  _ <- getitem risk_df "Risk Score" ;;
  Ok {| df_columns := df_columns risk_df;
        df_rows := sort_values_descending SegmentRiskRow Risk_Score
                                          (df_rows risk_df) |}.

End Sorting.

End Risk.

(** ** The wording of the specification, for comparison with the code *)

Module Spec.

(** The four transition categories of a snapshot row. *)
Inductive transition : Type :=
| New_System
| Lost_System
| Retained
| Moved_Internal.

Definition label (t : transition) : string :=
  match t with
  | New_System => "New (System)"
  | Lost_System => "Lost (System)"
  | Retained => "Retained"
  | Moved_Internal => "Moved Internal"
  end.

(** The transition table: base null?, current null?, same segment?  The
    table has no line for a row whose two segments are null. *)
Definition transition_rule (base_null current_null same_segment : bool)
  : option transition :=
  match base_null, current_null with
  | true, false => Some New_System
  | false, true => Some Lost_System
  | false, false => Some (if same_segment then Retained else Moved_Internal)
  | true, true => None
  end.

(** The third input of the table for a row: both segments present and
    equal. *)
Definition same_segment {C} (r : Row C) : bool :=
  match base_segment r, current_segment r with
  | Some b, Some c => String.eqb b c
  | _, _ => false
  end.

(** The status the table gives to a row; the empty string, the initial
    value of the status column, where the table has no line. *)
Definition status_of {C} (r : Row C) : string :=
  match transition_rule (isna (base_segment r)) (isna (current_segment r))
                        (same_segment r) with
  | Some t => label t
  | None => ""
  end.

(** A row carries the status the table gives it. *)
Definition classified {C} (r : Row C) : Prop := status r = status_of r.

(** A table in descending order of a key. *)
Definition descending {R} (key : R -> Z) (l : list R) : Prop :=
  Sorted (fun a b => key b <= key a) l.

(** What is required of the routine behind [sort_values(ascending=False)]:
    it rearranges the rows and leaves them in descending order of the
    key. *)
Definition sorts_descending
    (sort : forall R : Type, (R -> Z) -> list R -> list R) : Prop :=
  forall (R : Type) (key : R -> Z) (l : list R),
    Permutation l (sort R key l) /\ descending key (sort R key l).

(** The codes whose ordinal [int(code[3:])] each function computes. *)
Definition ordinal_ok (code : string) : bool :=
  match int_literal (slice_from 3 code) with
  | Some _ => true
  | None => false
  end.

Definition moved_internal (r : SnapshotRow) : bool :=
  String.eqb (status r) "Moved Internal".

(** Cohorts: every base segment, and the current segment of the rows of a
    cohort marked as moved. *)
Definition codes_parsed_by_cohorts (snapshot : Snapshot) : list string :=
  (dropna (map base_segment (df_rows snapshot))
   ++ dropna (map current_segment
                  (filter (fun r => notna (base_segment r) && moved_internal r)
                          (df_rows snapshot))))%list.

(** Entity scorer: the current segment of every scored row, and the base
    segment of the scored rows marked as moved. *)
Definition codes_parsed_by_entity_scorer (snapshot : Snapshot) : list string :=
  (dropna (map current_segment (df_rows snapshot))
   ++ dropna (map base_segment
                  (filter (fun r => notna (current_segment r) && moved_internal r)
                          (df_rows snapshot))))%list.

(** Segment scorer: every current segment. *)
Definition codes_parsed_by_segment_scorer (snapshot : Snapshot) : list string :=
  dropna (map current_segment (df_rows snapshot)).

(** The error of [int] on the part of one of the codes that starts at
    its fourth character. *)
Definition rejected_literal (codes : list string) (e : exn) : Prop :=
  exists code,
    In code codes /\ ordinal_ok code = false
    /\ e = ValueError (InvalidLiteral (slice_from 3 code)).

(** The precondition as the claim words it: at least four characters,
    decimal digits from the fourth on. *)
Fixpoint all_digits (s : string) : bool :=
  match s with
  | EmptyString => true
  | String c s' =>
      match digit c with Some _ => all_digits s' | None => false end
  end.

Definition decimal_suffix (code : string) : bool :=
  (4 <=? String.length code)%nat && all_digits (slice_from 3 code).

Definition segment_codes (snapshot : Snapshot) : list string :=
  (dropna (map base_segment (df_rows snapshot))
   ++ dropna (map current_segment (df_rows snapshot)))%list.

(** The required columns that an assignment table lacks. *)
Definition required_missing (df : SegTable) : list string :=
  filter (fun col => negb (mem col (df_columns df)))
         [Settings.SEGMENT_COLS_entity; Settings.SEGMENT_COLS_month;
          Settings.SEGMENT_COLS_segment].

(** An assignment table the builder is to refuse: no row, or a required
    column missing. *)
Definition defective (df : SegTable) : Prop :=
  df_rows df = [] \/ required_missing df <> [].

(** The failure that the defects of the two tables call for, when no
    snapshot is served from the cache.  The tables are gone through in
    this order, and the first defect met decides:
    - the month column of the base table is missing: [KeyError] with
      that label; else the base table has no row: [IndexError];
    - the same two for the current table;
    - the entity or the segment column of the base table is missing:
      [KeyError] with the missing ones, entity before segment;
    - the same for the current table. *)
Definition month_defect (df : SegTable) : option exn :=
  if mem Settings.SEGMENT_COLS_month (df_columns df) then
    match df_rows df with
    | [] => Some IndexError
    | _ :: _ => None
    end
  else Some (KeyError [Settings.SEGMENT_COLS_month]).

Definition missing_pair (df : SegTable) : list string :=
  filter (fun col => negb (mem col (df_columns df)))
         [Settings.SEGMENT_COLS_entity; Settings.SEGMENT_COLS_segment].

Definition pair_defect (df : SegTable) : option exn :=
  match missing_pair df with
  | [] => None
  | missing => Some (KeyError missing)
  end.

Fixpoint first_defect (defects : list (option exn)) : option exn :=
  match defects with
  | [] => None
  | Some e :: _ => Some e
  | None :: defects' => first_defect defects'
  end.

Definition expected_failure (base_seg curr_seg : SegTable) : option exn :=
  first_defect [month_defect base_seg; month_defect curr_seg;
                pair_defect base_seg; pair_defect curr_seg].

(** The snapshot that the cache serves for the months of the first rows
    of the two tables. *)
Definition served (cfg : Settings.settings) (c : Caching.cache)
    (base_seg curr_seg : SegTable) : option Snapshot :=
  match df_rows base_seg, df_rows curr_seg with
  | b :: _, c0 :: _ =>
      Caching.load_from_cache cfg (Caching.snapshots c)
        ("snapshot_" ++ str (seg_month b) ++ "_" ++ str (seg_month c0))
  | _, _ => None
  end.

(** The segment codes do not use the labels that the movement matrix
    reserves. *)
Definition reserved_free (snapshot : Snapshot) : Prop :=
  ~ In "New" (Matrix.base_segments snapshot)
  /\ ~ In "Total In" (Matrix.base_segments snapshot)
  /\ ~ In "Lost" (Matrix.curr_segments snapshot)
  /\ ~ In "Total Out" (Matrix.curr_segments snapshot).

(** The sum of the flow cells of a matrix: the rows of the base segments
    and the row New, over the columns of the current segments and the
    column Lost. *)
Definition flow_total (snapshot : Snapshot) (m : Matrix.matrix) : num :=
  sum (map (fun r => sum (map (Matrix.loc m r)
                              (Matrix.curr_segments snapshot ++ ["Lost"])%list))
           (Matrix.base_segments snapshot ++ ["New"])%list).

(** The assignments made by the loops that fill the movements. *)
Definition written (snapshot : Snapshot) (metric : string)
    (e : string * string * num) : Prop :=
  (exists b c, In b (Matrix.base_segments snapshot)
               /\ In c (Matrix.curr_segments snapshot)
               /\ e = (b, c, Matrix.movement snapshot metric b c))
  \/ (exists b, In b (Matrix.base_segments snapshot)
                /\ e = (b, "Lost", Matrix.lost snapshot metric b))
  \/ (exists c, In c (Matrix.curr_segments snapshot)
                /\ e = ("New", c, Matrix.new snapshot metric c)).

(** The value of each flow cell, by its labels. *)
Definition flow (snapshot : Snapshot) (metric : string) (r c : string) : num :=
  if mem r (Matrix.base_segments snapshot) then
    if mem c (Matrix.curr_segments snapshot)
    then Matrix.movement snapshot metric r c
    else if String.eqb c "Lost" then Matrix.lost snapshot metric r
         else of_Z 0
  else if String.eqb r "New" then
    if mem c (Matrix.curr_segments snapshot)
    then Matrix.new snapshot metric c
    else of_Z 0
  else of_Z 0.

(** The stages of [generate_movement_matrix]: the movements filled in,
    then the column Total Out, then the row Total In. *)
Definition filled (snapshot : Snapshot) (metric : string) : Matrix.matrix :=
  Matrix.fill_movements snapshot metric
    {| Matrix.index := (Matrix.base_segments snapshot ++ ["New"])%list;
       Matrix.columns := (Matrix.curr_segments snapshot ++ ["Lost"])%list;
       Matrix.data := [] |}.

Definition with_total_out (snapshot : Snapshot) (metric : string)
  : Matrix.matrix :=
  Matrix.set_column (filled snapshot metric) "Total Out"
                    (Matrix.sum_axis1 (filled snapshot metric)).

(** A row that has a segment in at least one period. *)
Definition has_segment (r : SnapshotRow) : bool :=
  notna (base_segment r) || notna (current_segment r).

(** The value of [calculate_metric] over the rows [l] of a frame with the
    columns of [snapshot]; the test for an empty frame changes nothing,
    the other branches give 0 there. *)
Definition metric_value (snapshot : Snapshot) (period metric : string)
    (l : list SnapshotRow) : num :=
  if String.eqb metric "count" then of_nat (List.length l)
  else if mem (period ++ "_" ++ metric)%string (df_columns snapshot)
       then sum (map (cell (period ++ "_" ++ metric)%string) l)
       else of_Z 0.

(** Where a row was in the base period, seen from a segment: in that
    segment, in no segment (the base segment is null), or in another
    one. *)
Inductive origin : Type :=
| Same_segment
| No_segment
| Other_segment.

Definition origin_of (segment : string) (r : SnapshotRow) : origin :=
  match base_segment r with
  | None => No_segment
  | Some b => if String.eqb b segment then Same_segment else Other_segment
  end.

Definition origin_eqb (a b : origin) : bool :=
  match a, b with
  | Same_segment, Same_segment => true
  | No_segment, No_segment => true
  | Other_segment, Other_segment => true
  | _, _ => false
  end.

(** The rows whose current segment is [segment], and those of them that
    have a given origin. *)
Definition current_rows (snapshot : Snapshot) (segment : string)
  : list SnapshotRow :=
  filter (fun r => eq_code (current_segment r) segment) (df_rows snapshot).

Definition current_rows_from (snapshot : Snapshot) (segment : string)
    (o : origin) : list SnapshotRow :=
  filter (fun r => origin_eqb (origin_of segment r) o)
         (current_rows snapshot segment).

(** The current-period value of a metric over rows of the snapshot: their
    number for ['count'], else the sum of the current column of the
    metric. *)
Definition current_value (snapshot : Snapshot) (metric : string)
    (l : list SnapshotRow) : num :=
  metric_value snapshot "current" metric l.

(** The numeric columns of the summary. *)
Definition numeric_columns : list string :=
  ["Base"; "Current"; "Retained"; "New (System)"; "Added (Other Seg)";
   "Lost (Other Seg)"; "Lost (System)"; "Net Change"].

(** The frame of the per-segment rows, before the totals are appended. *)
Definition segment_rows (snapshot : Snapshot) (metric : string)
  : list Summary.SummaryRow :=
  map (Summary.segment_row snapshot metric) (Summary.all_segments snapshot).

(** The number of rows of a snapshot that pass a test. *)
Definition count (p : SnapshotRow -> bool) (snapshot : Snapshot) : nat :=
  List.length (filter p (df_rows snapshot)).

(** One step backward in the calendar: the month number goes down by
    one, and when it falls below 1 it wraps to 12 of the year before. *)
Definition previous_month (yyyymm : Z) : Z :=
  let year := yyyymm / 100 in
  let month := yyyymm mod 100 - 1 in
  if month <? 1 then (year - 1) * 100 + (month + 12) else year * 100 + month.

(** The months met when walking backward [steps] times from a month,
    that month included. *)
Fixpoint walk_backward (steps : nat) (yyyymm : Z) : list Z :=
  match steps with
  | O => [yyyymm]
  | S steps' => yyyymm :: walk_backward steps' (previous_month yyyymm)
  end.

End Spec.

(** ** Sample tables *)

Module Examples.

Import Settings Caching Processor.

Definition seg_columns : list string :=
  [SEGMENT_COLS_entity; SEGMENT_COLS_month; SEGMENT_COLS_segment].

(** The example of the specification: E1 stays in SEG01, E2 leaves, E3
    arrives. *)
Definition base_seg : SegTable :=
  {| df_columns := seg_columns;
     df_rows := [mkSegRow "E1" 202406 (Some "SEG01");
                 mkSegRow "E2" 202406 (Some "SEG02")] |}.

Definition curr_seg : SegTable :=
  {| df_columns := seg_columns;
     df_rows := [mkSegRow "E1" 202411 (Some "SEG01");
                 mkSegRow "E3" 202411 (Some "SEG03")] |}.

Definition metrics_glbl : MetricsTable :=
  {| df_columns := [METRICS_COLS_entity; METRICS_COLS_month; "a_rev_wf"];
     df_rows := [mkMetricRow "E1" 202405 [("a_rev_wf", of_Z 10)];
                 mkMetricRow "E1" 202410 [("a_rev_wf", of_Z 7)];
                 mkMetricRow "E3" 202411 [("a_rev_wf", of_Z 5)]] |}.

Definition built : result Snapshot * cache :=
  Eval vm_compute in
    create_snapshot Settings.default base_seg curr_seg metrics_glbl
                    Caching.empty.

Definition snapshot : Snapshot :=
  Eval vm_compute in
    match fst built with
    | Ok s => s
    | Raise _ => mkDataFrame [] []
    end.

(** A base file in which the segment code of E2 is null; E2 is absent
    from the current file. *)
Definition base_seg_null : SegTable :=
  {| df_columns := seg_columns;
     df_rows := [mkSegRow "E1" 202406 (Some "SEG01");
                 mkSegRow "E2" 202406 None] |}.

Definition built_null : result Snapshot * cache :=
  Eval vm_compute in
    create_snapshot Settings.default base_seg_null curr_seg metrics_glbl
                    Caching.empty.

Definition snapshot_null : Snapshot :=
  Eval vm_compute in
    match fst built_null with
    | Ok s => s
    | Raise _ => mkDataFrame [] []
    end.

(** [sort_values] by a stable routine: rows of equal key keep their
order. *)
Definition sort_stable (R : Type) (key : R -> Z) (l : list R) : list R :=
sorted (fun a b => key b <=? key a) l.

Definition snapshot_columns : list string :=
["entity"; "base_segment"; "current_segment"; "status";
 "base_a_rev_wf"; "current_a_rev_wf"].

Definition revenue (base current : Z) : list (string * num) :=
[("base_a_rev_wf", of_Z base); ("current_a_rev_wf", of_Z current)].

(** Two entities for the risk scorer: revenue down by 40 percent in a
bottom-tier segment, and a small new customer in a lower-tier segment. *)
Definition risk_snapshot : Snapshot :=
{| df_columns := snapshot_columns;
   df_rows :=
     [mkRow "E1" (Some "SEG16") (Some "SEG16") "Retained" (revenue 20000 12000);
      mkRow "E2" None (Some "SEG11") "New (System)" (revenue 0 1000)] |}.

Definition risk_scored : result (DataFrame Risk.RiskRow) :=
Eval vm_compute in Risk.calculate_churn_risk_score sort_stable risk_snapshot.

Definition risk_rows : list Risk.RiskRow :=
Eval vm_compute in
  match risk_scored with
  | Ok df => df_rows df
  | Raise _ => []
  end.

Definition risk_entity_1 : SnapshotRow :=
  mkRow "E1" (Some "SEG16") (Some "SEG16") "Retained" (revenue 20000 12000).

Definition risk_row_1 : Risk.RiskRow :=
  Eval vm_compute in
    match Risk.score_entity risk_snapshot risk_entity_1 with
    | Ok r => r
    | Raise _ => Risk.mkRiskRow "" None (of_Z 0) 0 "" []
    end.

(** A retained entity whose segment code has no ordinal. *)
Definition unnumbered_snapshot : Snapshot :=
  {| df_columns := snapshot_columns;
     df_rows := [mkRow "E1" (Some "SEG") (Some "SEG") "Retained" (revenue 0 0)] |}.

(** A well-coded retained entity next to a new entity whose current code
    is a single letter. *)
Definition short_current_snapshot : Snapshot :=
  {| df_columns := snapshot_columns;
     df_rows := [mkRow "E1" (Some "SEG01") (Some "SEG01") "Retained" (revenue 0 0);
                 mkRow "E2" None (Some "X") "New (System)" (revenue 0 0)] |}.

(** A well-coded retained entity next to a lost entity whose base code is
    a single letter. *)
Definition short_base_snapshot : Snapshot :=
  {| df_columns := snapshot_columns;
     df_rows := [mkRow "E1" (Some "SEG01") (Some "SEG01") "Retained" (revenue 0 0);
                 mkRow "E2" (Some "X") None "Lost (System)" (revenue 0 0)] |}.

(** The base file of the example without its segment column. *)
Definition base_seg_without_segment : SegTable :=
  {| df_columns := [SEGMENT_COLS_entity; SEGMENT_COLS_month];
     df_rows := df_rows base_seg |}.

(** The cache as the build of the example leaves it. *)
Definition warm_cache : cache := Eval vm_compute in snd built.

(** A snapshot with a base segment called New. *)
Definition new_named_snapshot : Snapshot :=
  {| df_columns := snapshot_columns;
     df_rows := [mkRow "E1" (Some "New") (Some "SEG01") "Moved Internal"
                       (revenue 0 0)] |}.


End Examples.

(** ** [src/data/validator.py], the metrics table *)

Module MetricsValidator.

Import Settings.

Definition validate_metrics_data (df : MetricsTable) : result bool :=
  let required_cols := [METRICS_COLS_entity; METRICS_COLS_month] in
  let missing_cols :=
    filter (fun col => negb (mem col (df_columns df))) required_cols in
  match missing_cols with
  | _ :: _ => Raise (ValueError (MissingColumns "metrics" missing_cols))
  | [] => Ok true
  end.

End MetricsValidator.

(** ** More of the Python runtime *)

Module PyText.

(** [s.replace(old, new)] for a non-empty [old]: the occurrences of
    [old] are replaced from left to right, without overlap.  [skip]
    counts the characters of the occurrence just replaced that are still
    to be passed over. *)
Fixpoint replace_from (old new : string) (skip : nat) (s : string) : string :=
  match s with
  | EmptyString => EmptyString
  | String c s' =>
      match skip with
      | S k => replace_from old new k s'
      | O =>
          if String.prefix old s
          then new ++ replace_from old new (String.length old - 1) s'
          else String c (replace_from old new 0 s')
      end
  end.

Definition replace (old new s : string) : string := replace_from old new 0 s.

End PyText.

(** ** [src/analysis/metrics.py], the catalogue and the entity view *)

Module EntityView.

Import PyText.

Definition get_available_metrics (snapshot : Snapshot) : list string :=
  let metrics :=
    fold_left (fun metrics col =>
                 if startswith col "base_"
                 then (metrics ++ [replace "base_" "" col])%list
                 else metrics)
              (df_columns snapshot) [] in
  sorted String.leb metrics.

(** The dictionary that [calculate_entity_metrics] returns. *)
Record EntityMetrics : Type := mkEntityMetrics {
  entity_id : string;
  em_base_segment : option string;
  em_current_segment : option string;
  em_status : option string;
  base_total_revenue : num;
  current_total_revenue : num;
  revenue_change : num;
  revenue_change_pct : num
}.

(** [entity.get(label, None)]: the value of the row, [None] when the
    frame has no such column. *)
Definition get {A} (snapshot : Snapshot) (label : string) (value : option A)
  : option A :=
  if mem label (df_columns snapshot) then value else None.

Definition calculate_entity_metrics (snapshot : Snapshot) (entity_id : string)
  : result (option EntityMetrics) :=
  rows <- getitem snapshot "entity" ;;
  let entity_data := filter (fun r => String.eqb (entity r) entity_id) rows in
  match entity_data with
  | [] => Ok None
  | entity :: _ =>
      (* Calculate total revenues *)
      let base_rev_cols :=
        filter (fun col => startswith col "base_" && contains "_rev_wf" col)
               (df_columns snapshot) in
      let curr_rev_cols :=
        filter (fun col => startswith col "current_" && contains "_rev_wf" col)
               (df_columns snapshot) in
      let base_total_revenue :=
        sum (map (fun col => cell col entity)
                 (filter (fun col => mem col (df_columns snapshot))
                         base_rev_cols)) in
      let current_total_revenue :=
        sum (map (fun col => cell col entity)
                 (filter (fun col => mem col (df_columns snapshot))
                         curr_rev_cols)) in
      let revenue_change := (current_total_revenue - base_total_revenue)%Qc in
      let revenue_change_pct :=
        if ltb (of_Z 0) base_total_revenue
        then (revenue_change / base_total_revenue * of_Z 100)%Qc
        else of_Z 0 in
      Ok (Some {| entity_id := entity_id;
                  em_base_segment :=
                    get snapshot "base_segment" (base_segment entity);
                  em_current_segment :=
                    get snapshot "current_segment" (current_segment entity);
                  em_status := get snapshot "status" (Some (status entity));
                  base_total_revenue := base_total_revenue;
                  current_total_revenue := current_total_revenue;
                  revenue_change := revenue_change;
                  revenue_change_pct := revenue_change_pct |})
  end.

End EntityView.

(** ** [src/analysis/cohort.py], the revenue of the cohorts *)

Module CohortRevenue.





End CohortRevenue.

(** ** [src/analysis/sankey.py] *)

Module Sankey.

Import Metrics.

Record SankeyData : Type := mkSankeyData {
  labels : list string;
  sources : list Z;
  targets : list Z;
  values : list num
}.

(** [enumerate(l)] *)
Fixpoint enumerate_from (k : Z) (l : list string) : list (Z * string) :=
  match l with
  | [] => []
  | x :: l' => (k, x) :: enumerate_from (k + 1) l'
  end.

Definition enumerate (l : list string) : list (Z * string) :=
  enumerate_from 0 l.

(** [{label: idx for idx, label in enumerate(all_labels)}]: a label met
    again takes the later position. *)
Definition index_of_labels (all_labels : list string) : list (string * Z) :=
  fold_left (fun d p => (snd p, fst p) :: d) (enumerate all_labels) [].

(** [d[label]] *)
Definition dict_getitem (d : list (string * Z)) (label : string) : result Z :=
  match lookup label d with
  | Some idx => Ok idx
  | None => Raise (KeyError [label])
  end.

(** The three lists that the loops append to. *)
Definition flows : Type := list Z * list Z * list num.

(** [if value > 0: sources.append(..); targets.append(..);
    values.append(value)] *)
Definition append_flow (f : flows) (source target : Z) (value : num) : flows :=
  if ltb (of_Z 0) value
  then ((fst (fst f) ++ [source])%list, (snd (fst f) ++ [target])%list,
        (snd f ++ [value])%list)
  else f.

Definition generate_sankey_data (snapshot : Snapshot) (metric : string)
  : result SankeyData :=
  (* Get unique segments *)
  let base_segments := sorted_codes (map base_segment (df_rows snapshot)) in
  let curr_segments := sorted_codes (map current_segment (df_rows snapshot)) in
  (* Create node labels *)
  let base_labels := map (fun seg => seg ++ " (Base)") base_segments in
  let curr_labels := map (fun seg => seg ++ " (Current)") curr_segments in
  let all_labels :=
    (base_labels ++ curr_labels ++ ["New (System)"; "Lost (System)"])%list in
  (* Create index mapping *)
  let label_to_idx := index_of_labels all_labels in
  (* Flow from base to current *)
  f <- for_each
         (fun f base_seg =>
            base_idx <- dict_getitem label_to_idx (base_seg ++ " (Base)") ;;
            f <- for_each
                   (fun f curr_seg =>
                      curr_idx <- dict_getitem label_to_idx
                                               (curr_seg ++ " (Current)") ;;
                      let flow :=
                        select (fun r => eq_code (base_segment r) base_seg
                                         && eq_code (current_segment r) curr_seg)
                               snapshot in
                      let value := calculate_metric flow "current" metric in
                      Ok (append_flow f base_idx curr_idx value))
                   curr_segments f ;;
            (* Lost from system *)
            lost_idx <- dict_getitem label_to_idx "Lost (System)" ;;
            let lost :=
              select (fun r => eq_code (base_segment r) base_seg
                               && isna (current_segment r)) snapshot in
            let value := calculate_metric lost "base" metric in
            Ok (append_flow f base_idx lost_idx value))
         base_segments (([], []), []) ;;
  (* New to system *)
  new_idx <- dict_getitem label_to_idx "New (System)" ;;
  f <- for_each
         (fun f curr_seg =>
            curr_idx <- dict_getitem label_to_idx (curr_seg ++ " (Current)") ;;
            let new :=
              select (fun r => eq_code (current_segment r) curr_seg
                               && isna (base_segment r)) snapshot in
            let value := calculate_metric new "current" metric in
            Ok (append_flow f new_idx curr_idx value))
         curr_segments f ;;
  Ok {| labels := all_labels;
        sources := fst (fst f);
        targets := snd (fst f);
        values := snd f |}.

End Sankey.

(** ** [src/analysis/metrics.py], the matrix of segments and products *)

Module ProductMatrix.

Import PyText.

(** The values of the dictionary [seg_data]: the code of the segment
    and the revenues. *)
Inductive value : Type :=
| Text (s : string)
| Number (x : num).





End ProductMatrix.

(** ** Notions used to state the further properties *)

Module Notions.

Import Settings Caching Processor.

(** The month a segment file is for: [df[month].iloc[0]]. *)
Definition first_month (df : SegTable) : result Z :=
  rows <- getitem df SEGMENT_COLS_month ;;
  iloc0 (map seg_month rows).

(** The identifiers under which the two kinds of table are cached. *)
Definition snapshot_id (base_month current_month : Z) : string :=
  "snapshot_" ++ str base_month ++ "_" ++ str current_month.

Definition ttm_id (month : Z) : string := "ttm_" ++ str month.

(** A computation that returns the same result from every cache and
    hands the cache back as it received it. *)
Definition cache_independent {A} (m : M A) : Prop :=
  exists r, forall c, m c = (r, c).

(** The rows of the metrics table in the trailing window of a month. *)
Definition in_window (cfg : settings) (month : Z) (r : MetricRow) : bool :=
  existsb (Z.eqb (met_month r)) (Dates.get_ttm_months month (TTM_MONTHS cfg)).

(** The value of a metric in a row of the metrics table, a missing value
    counting for nothing, and the total of a metric over rows. *)
Definition met_value (col : string) (r : MetricRow) : num :=
  match lookup col (met_values r) with
  | Some v => v
  | None => of_Z 0
  end.

Definition column_total (col : string) (rows : list MetricRow) : num :=
  sum (map (met_value col) rows).


(** The frame that [calculate_ttm_metrics] computes for a month. *)
Definition ttm_frame (cfg : settings) (metrics_glbl : MetricsTable) (month : Z)
  : TtmFrame :=
  {| df_columns := METRICS_COLS_entity :: detect_metric_columns metrics_glbl;
     df_rows := groupby_sum (detect_metric_columns metrics_glbl)
                            (filter (in_window cfg month)
                                    (df_rows metrics_glbl)) |}.

(** The total of a metric over the rows of an entity in the trailing
    window of a month. *)
Definition entity_total (cfg : settings) (metrics_glbl : MetricsTable)
    (month : Z) (col entity : string) : num :=
  column_total col
    (filter (fun m => String.eqb (met_entity m) entity)
            (filter (in_window cfg month) (df_rows metrics_glbl))).

(** The segment that a file gives for an entity: that of the first row
    of the entity, null when the file has none. *)
Definition segment_in (df : SegTable) (e : string) : option string :=
  match find (fun x => String.eqb (seg_entity x) e) (df_rows df) with
  | Some x => seg_segment x
  | None => None
  end.

(** Tables that the builder is made for: a segment file with distinct
    column labels, the three required ones among them, and at least one
    row; a metrics table with distinct column labels, the two required
    ones among them, at least one metric column, and no metric called
    [entity] or [segment], the names that the snapshot gives to its own
    columns. *)
Definition well_formed_segments (df : SegTable) : Prop :=
  NoDup (df_columns df) /\ ~ Spec.defective df.

Definition well_formed_metrics (df : MetricsTable) : Prop :=
  NoDup (df_columns df)
  /\ MetricsValidator.validate_metrics_data df = Ok true
  /\ ~ In "entity" (df_columns df)
  /\ ~ In "segment" (df_columns df)
  /\ detect_metric_columns df <> [].

(** A row that the counts of a cohort account for: retained, lost, or
    moved to a current segment. *)
Definition accounted (r : SnapshotRow) : bool :=
  (Cohort.has_status "Retained" r || Cohort.has_status "Lost (System)" r)
  || Cohort.has_status "Moved Internal" r && notna (current_segment r).

(** The flows of a snapshot by the labels of their two nodes, in the
    order in which the loops of the Sankey generator meet them. *)
Definition labelled_flows (snapshot : Snapshot) (metric : string)
  : list (string * string * num) :=
  (flat_map
     (fun b =>
        map (fun c => ((b ++ " (Base)")%string, (c ++ " (Current)")%string,
                       Matrix.movement snapshot metric b c))
            (Matrix.curr_segments snapshot)
        ++ [((b ++ " (Base)")%string, "Lost (System)",
             Matrix.lost snapshot metric b)])
     (Matrix.base_segments snapshot)
   ++ map (fun c => ("New (System)", (c ++ " (Current)")%string,
                     Matrix.new snapshot metric c))
          (Matrix.curr_segments snapshot))%list.

Definition positive (t : string * string * num) : bool :=
  ltb (of_Z 0) (snd t).

(** The position [idx] of a list of labels holds [label]. *)
Definition points_to (all_labels : list string) (label : string) (idx : Z)
  : Prop :=
  0 <= idx /\ nth_error all_labels (Z.to_nat idx) = Some label.

(** The three lists of the generator hold the given flows: the values
    are theirs, and the sources and targets are positions of their
    labels. *)
Definition holds (all_labels : list string)
    (ts : list (string * string * num)) (f : Sankey.flows) : Prop :=
  Forall2 (fun t idx => points_to all_labels (fst (fst t)) idx)
          ts (fst (fst f))
  /\ Forall2 (fun t idx => points_to all_labels (snd (fst t)) idx)
             ts (snd (fst f))
  /\ snd f = map snd ts.

(** What a factor of the churn score contributes: nothing, or between
    10 and 40 points together with one entry in the list of reasons. *)
Definition contribution (p : Z * list Risk.risk_factor) : Prop :=
  (fst p = 0 /\ snd p = [])
  \/ (10 <= fst p <= 40 /\ exists reason, snd p = [reason]).


(** A cache that serves nothing. *)
Definition cold (cfg : settings) (c : cache) : Prop :=
  (forall id, load_from_cache cfg (snapshots c) id = None)
  /\ (forall id, load_from_cache cfg (metrics c) id = None).

(** The rows of the two segment files as the merge sees them. *)
Definition segment_pairs (df : SegTable) : list (string * option string) :=
  map (fun r => (seg_entity r, seg_segment r)) (df_rows df).

(** The snapshot of two segment files and a metrics table, in closed
    form: the merged rows with their status, each followed by the
    totals of the entity over the two trailing windows. *)
Definition snapshot_of (cfg : settings) (base_seg curr_seg : SegTable)
    (metrics_glbl : MetricsTable) (base_month current_month : Z) : Snapshot :=
  let cols := detect_metric_columns metrics_glbl in
  {| df_columns :=
       (["entity"; "base_segment"; "current_segment"; "status"]
        ++ map (append "base_") cols ++ map (append "current_") cols)%list;
     df_rows :=
       map (fun r : Row (option num) =>
              mkRow (entity r) (base_segment r) (current_segment r)
                    (Spec.status_of r)
                    (map (fun col =>
                            (("base_" ++ col)%string,
                             entity_total cfg metrics_glbl base_month col
                                          (entity r)))
                         cols
                     ++ map (fun col =>
                               (("current_" ++ col)%string,
                                entity_total cfg metrics_glbl current_month col
                                             (entity r)))
                            cols)%list)
           (merge_outer (segment_pairs base_seg) (segment_pairs curr_seg)) |}.

End Notions.

(* ===================================================================== *)
(** * Part II: properties *)
(* ===================================================================== *)

(** ** Generic facts about the runtime model *)

Section RuntimeFacts.

Lemma bind_Ok_inv {A B} (r : result A) (k : A -> result B) (b : B) :
  Py.bind r k = Ok b -> exists a, r = Ok a /\ k a = Ok b.
Proof.
  destruct r as [a | e]; simpl; intros H; [eauto | discriminate].
Qed.

Lemma mem_In (x : string) (l : list string) : mem x l = true <-> In x l.
Proof.
  unfold mem. rewrite existsb_exists. split.
  - intros [y [Hy Heq]]. apply String.eqb_eq in Heq. now subst.
  - intros H. exists x. split; [assumption | apply String.eqb_refl].
Qed.

Lemma mem_false (x : string) (l : list string) : mem x l = false <-> ~ In x l.
Proof.
  rewrite <- mem_In. destruct (mem x l); split; intro H; congruence.
Qed.

Lemma In_dropna {A} (x : A) (l : list (option A)) :
  In x (dropna l) <-> In (Some x) l.
Proof.
  induction l as [| [y |] l IH]; simpl.
  - tauto.
  - rewrite IH. split; intros [H | H]; auto; left; congruence.
  - rewrite IH. split; [auto | intros [H | H]; [discriminate | assumption]].
Qed.

Lemma In_unique (x : string) (l : list string) : In x (unique l) <-> In x l.
Proof.
  induction l as [| y l IH]; simpl; [tauto |].
  rewrite filter_In, IH. split.
  - intros [H | [H _]]; auto.
  - intros [H | H]; [auto |].
    destruct (String.eqb_spec y x) as [E | E]; [auto |].
    right. split; [assumption | reflexivity].
Qed.

Lemma NoDup_filter {A} (f : A -> bool) (l : list A) :
  NoDup l -> NoDup (filter f l).
Proof.
  induction 1 as [| x l Hx Hl IH]; simpl; [constructor |].
  destruct (f x); [constructor |]; auto.
  rewrite filter_In. tauto.
Qed.

Lemma NoDup_unique (l : list string) : NoDup (unique l).
Proof.
  induction l as [| x l IH]; simpl; constructor.
  - rewrite filter_In. intros [_ H]. now rewrite String.eqb_refl in H.
  - now apply NoDup_filter.
Qed.

Lemma insert_Permutation {A} (leb : A -> A -> bool) (x : A) (l : list A) :
  Permutation (x :: l) (insert leb x l).
Proof.
  induction l as [| y l IH]; simpl; [reflexivity |].
  destruct (leb x y); [reflexivity |].
  rewrite perm_swap. now constructor.
Qed.

Lemma sorted_Permutation {A} (leb : A -> A -> bool) (l : list A) :
  Permutation l (sorted leb l).
Proof.
  induction l as [| x l IH]; simpl; [constructor |].
  rewrite <- insert_Permutation. now constructor.
Qed.

Lemma In_sorted {A} (leb : A -> A -> bool) (x : A) (l : list A) :
  In x (sorted leb l) <-> In x l.
Proof.
  split; apply Permutation_in;
    [symmetry |]; apply sorted_Permutation.
Qed.

Lemma In_sorted_codes (x : string) (column : list (option string)) :
  In x (sorted_codes column) <-> In (Some x) column.
Proof.
  unfold sorted_codes. now rewrite In_sorted, In_unique, In_dropna.
Qed.

Lemma NoDup_sorted_codes (column : list (option string)) :
  NoDup (sorted_codes column).
Proof.
  unfold sorted_codes.
  eapply Permutation_NoDup; [apply sorted_Permutation | apply NoDup_unique].
Qed.

(** A sort by a total order yields an ordered list. *)
Lemma insert_Sorted {A} (leb : A -> A -> bool) (x : A) (l : list A) :
  (forall a b, leb a b = false -> leb b a = true) ->
  Sorted (fun a b => leb a b = true) l ->
  Sorted (fun a b => leb a b = true) (insert leb x l).
Proof.
  intros Htot. induction l as [| y l IH]; simpl; intros Hs.
  - repeat constructor.
  - destruct (leb x y) eqn:E.
    + constructor; [assumption | constructor; assumption].
    + apply Sorted_inv in Hs. destruct Hs as [Hs Hhd].
      constructor; [now apply IH |].
      destruct l as [| z l]; simpl.
      * constructor. now apply Htot.
      * destruct (leb x z); constructor; [now apply Htot | now inversion Hhd].
Qed.

Lemma sorted_Sorted {A} (leb : A -> A -> bool) (l : list A) :
  (forall a b, leb a b = false -> leb b a = true) ->
  Sorted (fun a b => leb a b = true) (sorted leb l).
Proof.
  intros Htot. induction l as [| x l IH]; simpl; [constructor |].
  now apply insert_Sorted.
Qed.

Lemma Forall2_In_l {A B} (P : A -> B -> Prop) (l : list A) (l' : list B) (x : A) :
  Forall2 P l l' -> In x l -> exists y, In y l' /\ P x y.
Proof.
  induction 1 as [| a b l l' Hab HF IH]; simpl; [contradiction |].
  intros [-> | Hin]; [eauto |].
  destruct (IH Hin) as [y [Hy Hxy]]. eauto.
Qed.

Lemma Forall2_In_r {A B} (P : A -> B -> Prop) (l : list A) (l' : list B) (y : B) :
  Forall2 P l l' -> In y l' -> exists x, In x l /\ P x y.
Proof.
  induction 1 as [| a b l l' Hab HF IH]; simpl; [contradiction |].
  intros [-> | Hin]; [eauto |].
  destruct (IH Hin) as [x [Hx Hxy]]. eauto.
Qed.

(** Loops that collect one record per element. *)
Lemma collect_Ok {A R} (f : A -> result R) (xs : list A) (acc out : list R) :
  for_each (fun acc x => r <- f x ;; Ok (acc ++ [r])%list) xs acc = Ok out ->
  exists rs, out = (acc ++ rs)%list /\ Forall2 (fun x r => f x = Ok r) xs rs.
Proof.
  revert acc. induction xs as [| x xs IH]; simpl; intros acc H.
  - exists []. injection H as <-. now rewrite app_nil_r.
  - apply bind_Ok_inv in H. destruct H as [acc' [H1 H2]].
    apply bind_Ok_inv in H1. destruct H1 as [r [Hr Hacc]].
    injection Hacc as <-.
    destruct (IH _ H2) as [rs [-> HF]].
    exists (r :: rs). split; [now rewrite <- app_assoc | now constructor].
Qed.

Lemma collect_all_Ok {A R} (f : A -> result R) (xs : list A) (acc rs : list R) :
  Forall2 (fun x r => f x = Ok r) xs rs ->
  for_each (fun acc x => r <- f x ;; Ok (acc ++ [r])%list) xs acc
  = Ok (acc ++ rs)%list.
Proof.
  intros HF. revert acc.
  induction HF as [| x r xs rs Hx HF IH]; simpl; intros acc.
  - now rewrite app_nil_r.
  - rewrite Hx. simpl. rewrite IH. now rewrite <- app_assoc.
Qed.

Lemma collect_Raise {A R} (f : A -> result R) (xs : list A) (acc : list R)
    (x : A) (e : exn) :
  In x xs -> f x = Raise e ->
  raises (for_each (fun acc x => r <- f x ;; Ok (acc ++ [r])%list) xs acc).
Proof.
  revert acc. induction xs as [| y xs IH]; simpl; intros acc Hin Hx.
  - contradiction.
  - destruct (f y) as [r | e'] eqn:Hy; simpl.
    + destruct Hin as [-> | Hin]; [congruence |]. now apply IH.
    + now exists e'.
Qed.

End RuntimeFacts.

(** ** The trailing window ([get_ttm_months]) *)

Section TrailingWindow.

Import Dates Spec.

(** What the loop [while m <= 0] computes: the same month counted from
    year 0, brought back into 1..12. *)
Lemma wrap_month_spec (m y : Z) :
  fst (wrap_month m y) + 12 * snd (wrap_month m y) = m + 12 * y
  /\ (m <= 12 -> 1 <= fst (wrap_month m y) <= 12).
Proof.
  funelim (wrap_month m y); cbn [fst snd]; lia.
Qed.

Lemma month_at_0 (month : Z) :
  1 <= month mod 100 <= 12 -> month_at month 0 = month.
Proof.
  intros H. unfold month_at. rewrite Z.sub_0_r.
  pose proof (wrap_month_spec (month mod 100) (month / 100)) as [H1 H2].
  destruct (wrap_month (month mod 100) (month / 100)) as [m y].
  cbn [fst snd] in *. pose proof (Z.div_mod month 100 ltac:(lia)). lia.
Qed.

Lemma month_at_succ (month : Z) (i : Z) :
  0 <= i -> 1 <= month mod 100 <= 12 ->
  month_at month (i + 1) = previous_month (month_at month i).
Proof.
  intros Hi H. unfold month_at, previous_month.
  pose proof (wrap_month_spec (month mod 100 - i) (month / 100)) as [H1 H2].
  pose proof (wrap_month_spec (month mod 100 - (i + 1)) (month / 100)) as [H3 H4].
  destruct (wrap_month (month mod 100 - i) (month / 100)) as [m1 y1].
  destruct (wrap_month (month mod 100 - (i + 1)) (month / 100)) as [m2 y2].
  cbn [fst snd] in *.
  assert (Hd : (y1 * 100 + m1) / 100 = y1 /\ (y1 * 100 + m1) mod 100 = m1).
  { split; [symmetry; apply (Z.div_unique _ _ y1 m1) |
            symmetry; apply (Z.mod_unique _ _ y1 m1)]; lia. }
  destruct Hd as [-> ->].
  destruct (Z.ltb_spec (m1 - 1) 1); lia.
Qed.

Lemma loop_is_walk (month : Z) (n k : nat) :
  1 <= month mod 100 <= 12 ->
  map (month_at month) (map Z.of_nat (seq k (S n)))
  = walk_backward n (month_at month (Z.of_nat k)).
Proof.
  intros H. revert k. induction n as [| n IH]; intros k.
  - reflexivity.
  - rewrite <- (cons_seq (S n) k), !map_cons. cbn [walk_backward].
    f_equal. rewrite IH. f_equal.
    rewrite Nat2Z.inj_succ. apply month_at_succ; [lia | assumption].
Qed.

(** C3, as amended.  For a target month in the form YYYYMM and a window
    of at least one month, [get_ttm_months] returns, in ascending order,
    the months met when walking backward [window_months - 1] times from
    the target, the year going down when the month falls below 1.  With
    a window of 3 the months ending at 202403 are 202401, 202402 and
    202403, and the months ending at 202401 are 202311, 202312 and
    202401. *)
Theorem ttm_window_walks_backward :
  (forall month window_months : Z,
      1 <= month mod 100 <= 12 -> 1 <= window_months ->
      get_ttm_months month window_months
      = sorted Z.leb (walk_backward (Z.to_nat (window_months - 1)) month))
  /\ get_ttm_months 202403 3 = [202401; 202402; 202403]
  /\ get_ttm_months 202401 3 = [202311; 202312; 202401].
Proof.
  split; [| split; reflexivity].
  intros month w Hm Hw. unfold get_ttm_months, range.
  replace (Z.to_nat w) with (S (Z.to_nat (w - 1))) by lia.
  f_equal.
  change (fun i : Z =>
            let '(m, y) := wrap_month (month mod 100 - i) (month / 100) in
            y * 100 + m) with (month_at month).
  rewrite loop_is_walk by assumption.
  simpl Z.of_nat. now rewrite month_at_0.
Qed.

Lemma ttm_window_walks_backward_witness :
  get_ttm_months 202402 12
  = sorted Z.leb (walk_backward (Z.to_nat (12 - 1)) 202402).
Proof.
  apply (proj1 ttm_window_walks_backward 202402 12).
  - split; vm_compute; discriminate.
  - lia.
Defined.

(** The window ending at 202401 does not reach back to 2012: the months
    the claim lists for it are not the months the code returns. *)
Lemma ttm_window_202401_is_not_2012 :
  ~ (forall m : Z,
        In m (get_ttm_months 202401 3) <-> In m [201211; 201212; 202401]).
Proof.
  intros H. specialize (H 201211).
  assert (Hin : In 201211 (get_ttm_months 202401 3)) by (apply H; simpl; auto).
  vm_compute in Hin. intuition discriminate.
Qed.

End TrailingWindow.

(** ** The status of a snapshot row *)

Section Status.

Import Settings Caching Processor Spec.

Lemma classify_cons {C} (r : Row C) (l : list (Row C)) :
  classify_status_vectorized (r :: l)
  = status_of r :: classify_status_vectorized l.
Proof.
  unfold classify_status_vectorized, series_and, series_not, mask_assign,
    series_eq, status_of, same_segment.
  simpl. f_equal.
  destruct (base_segment r) as [b |], (current_segment r) as [c |];
    simpl; try reflexivity.
  destruct (String.eqb b c); reflexivity.
Qed.

Lemma classify_is_status_of {C} (snapshot : list (Row C)) :
  classify_status_vectorized snapshot = map status_of snapshot.
Proof.
  induction snapshot as [| r l IH]; [reflexivity |].
  rewrite classify_cons, IH. reflexivity.
Qed.

Lemma set_status_classified {C} (merged : list (Row C)) :
  Forall classified (set_status merged (classify_status_vectorized merged)).
Proof.
  rewrite classify_is_status_of. unfold set_status.
  induction merged as [| r l IH]; simpl; constructor; [reflexivity | exact IH].
Qed.

Lemma merge_left_classified (snapshot out : DataFrame (Row (option num)))
    (metrics : TtmFrame) :
  Forall classified (df_rows snapshot) ->
  merge_left snapshot metrics = Ok out ->
  Forall classified (df_rows out).
Proof.
  intros HF H. unfold merge_left in H.
  apply bind_Ok_inv in H. destruct H as [_ [_ H]]. injection H as <-.
  simpl. rewrite Forall_forall in *. intros r' Hin.
  apply in_flat_map in Hin. destruct Hin as [r [Hr Hin]].
  specialize (HF r Hr).
  destruct (filter _ (df_rows metrics)) as [| m ms].
  - destruct Hin as [<- | []]. exact HF.
  - change (In r' (map (fun m0 : TtmRow =>
               mkRow (entity r) (base_segment r) (current_segment r) (status r)
                 (cells r ++
                  map (fun col => (col, lookup col (ttm_values m0)))
                    (filter (fun col => negb (String.eqb col "entity"))
                       (df_columns metrics)))) (m :: ms))) in Hin.
    apply in_map_iff in Hin. destruct Hin as [m' [<- _]]. exact HF.
Qed.

Lemma fillna0_classified (snapshot : DataFrame (Row (option num))) :
  Forall classified (df_rows snapshot) ->
  Forall classified (df_rows (fillna0 snapshot)).
Proof.
  unfold fillna0. simpl. intros HF.
  induction HF as [| r l Hr HF IH]; simpl; constructor; [exact Hr | exact IH].
Qed.

Lemma create_snapshot_classified (cfg : settings)
    (base_seg curr_seg : SegTable) (metrics_glbl : MetricsTable)
    (c c' : cache) (snapshot : Snapshot) :
  (forall id, load_from_cache cfg (snapshots c) id = None) ->
  create_snapshot cfg base_seg curr_seg metrics_glbl c = (Ok snapshot, c') ->
  Forall classified (df_rows snapshot).
Proof.
  intros Hmiss H. unfold create_snapshot, Caching.bind, lift in H.
  destruct (getitem base_seg SEGMENT_COLS_month); [| discriminate].
  destruct (iloc0 _) as [base_month |]; [| discriminate].
  destruct (getitem curr_seg SEGMENT_COLS_month); [| discriminate].
  destruct (iloc0 _) as [current_month |]; [| discriminate].
  rewrite Hmiss in H.
  destruct (getitems base_seg _) as [base |]; [| discriminate].
  destruct (getitems curr_seg _) as [curr |]; [| discriminate].
  destruct (calculate_ttm_metrics cfg metrics_glbl base_month c)
    as [[base_metrics |] c1]; [| discriminate].
  destruct (calculate_ttm_metrics cfg metrics_glbl current_month c1)
    as [[curr_metrics |] c2]; [| discriminate].
  match type of H with
  | context [merge_left ?s ?m] =>
      destruct (merge_left s m) as [s1 |] eqn:E1; [| discriminate]
  end.
  match type of H with
  | context [merge_left s1 ?m] =>
      destruct (merge_left s1 m) as [s2 |] eqn:E2; [| discriminate]
  end.
  injection H as <- _.
  apply fillna0_classified.
  eapply merge_left_classified; [| exact E2].
  eapply merge_left_classified; [| exact E1].
  apply set_status_classified.
Qed.

(** C1, as amended.  The status column computed by
    [classify_status_vectorized] is, row by row, the value that the
    transition table gives to the three tests (base segment null,
    current segment null, same segment): for a row with at least one
    segment the table has exactly one line, the four labels are distinct
    and none is empty; a row with neither segment keeps the empty
    initial value.  Every row of a snapshot built by [create_snapshot]
    carries that status. *)
Theorem status_follows_transition_table :
  (forall (C : Type) (snapshot : list (Row C)),
      classify_status_vectorized snapshot = map status_of snapshot)
  /\ (forall base_null current_null same : bool,
         base_null && current_null = false ->
         exists t, transition_rule base_null current_null same = Some t)
  /\ (forall t t', label t = label t' -> t = t')
  /\ (forall t, label t <> "")
  /\ (forall cfg base_seg curr_seg metrics_glbl c c' snapshot,
         (forall id, load_from_cache cfg (snapshots c) id = None) ->
         create_snapshot cfg base_seg curr_seg metrics_glbl c
         = (Ok snapshot, c') ->
         forall r, In r (df_rows snapshot) -> status r = status_of r).
Proof.
  split; [intros; apply classify_is_status_of |].
  split.
  { intros [|] [|] same H; simpl in *; try discriminate; eauto. }
  split.
  { intros [] []; simpl; intros H; try reflexivity; discriminate. }
  split.
  { intros []; discriminate. }
  intros cfg base_seg curr_seg metrics_glbl c c' snapshot Hmiss H r Hr.
  pose proof (create_snapshot_classified _ _ _ _ _ _ _ Hmiss H) as HF.
  rewrite Forall_forall in HF. now apply HF.
Qed.

Lemma status_follows_transition_table_witness :
  (exists t, transition_rule true false false = Some t)
  /\ (forall r, In r (df_rows Examples.snapshot) -> status r = status_of r).
Proof.
  split.
  - apply (proj1 (proj2 status_follows_transition_table) true false false).
    reflexivity.
  - apply (proj2 (proj2 (proj2 (proj2 status_follows_transition_table)))
             Settings.default Examples.base_seg Examples.curr_seg
             Examples.metrics_glbl Caching.empty (snd Examples.built)).
    + intros id. reflexivity.
    + vm_compute. reflexivity.
Defined.

(** With a null segment code in the base file and the entity absent from
    the current file, the builder returns a row whose status is none of
    the four values. *)
Lemma status_unset_when_both_segments_null :
  create_snapshot Settings.default Examples.base_seg_null Examples.curr_seg
                  Examples.metrics_glbl Caching.empty
  = (Ok Examples.snapshot_null, snd Examples.built_null)
  /\ exists r, In r (df_rows Examples.snapshot_null)
               /\ base_segment r = None /\ current_segment r = None
               /\ status r = ""
               /\ forall t, status r <> label t.
Proof.
  split; [vm_compute; reflexivity |].
  eexists. split; [right; left; reflexivity |].
  do 3 (split; [reflexivity |]). intros []; discriminate.
Qed.

End Status.

(** ** The churn-risk score of an entity *)

Section RiskScore.

Import Risk.

Lemma revenue_decline_range (base_rev curr_rev : num) :
  0 <= fst (revenue_decline base_rev curr_rev) <= 40.
Proof.
  unfold revenue_decline.
  repeat match goal with
         | |- context [if ?b then _ else _] => destruct b
         end; simpl; lia.
Qed.

Lemma low_revenue_range (curr_rev : num) :
  0 <= fst (low_revenue curr_rev) <= 20.
Proof.
  unfold low_revenue.
  repeat match goal with
         | |- context [if ?b then _ else _] => destruct b
         end; simpl; lia.
Qed.

Lemma segment_tier_range (curr_seg : option string) (f : Z * list risk_factor) :
  segment_tier curr_seg = Ok f -> 0 <= fst f <= 20.
Proof.
  unfold segment_tier. destruct curr_seg as [code |].
  - intros H. apply bind_Ok_inv in H. destruct H as [seg_num [_ H]].
    destruct (16 <=? seg_num); [| destruct (11 <=? seg_num)];
      injection H as <-; simpl; lia.
  - intros H. injection H as <-. simpl. lia.
Qed.

Lemma moved_down_range (entity : SnapshotRow) (f : Z * list risk_factor) :
  moved_down entity = Ok f -> 0 <= fst f <= 20.
Proof.
  unfold moved_down.
  destruct (String.eqb (status entity) "Moved Internal").
  - destruct (base_segment entity) as [b |], (current_segment entity) as [c |];
      intros H; try (injection H as <-; simpl; lia).
    apply bind_Ok_inv in H. destruct H as [base_num [_ H]].
    apply bind_Ok_inv in H. destruct H as [curr_num [_ H]].
    destruct (base_num <? curr_num); injection H as <-; simpl; lia.
  - intros H. injection H as <-. simpl. lia.
Qed.

Lemma level_of_thresholds (score : Z) :
  (60 <= score -> level_of score = "High")
  /\ (30 <= score < 60 -> level_of score = "Medium")
  /\ (score < 30 -> level_of score = "Low").
Proof.
  unfold level_of.
  destruct (Z.leb_spec 60 score), (Z.leb_spec 30 score);
    repeat split; intros; try reflexivity; lia.
Qed.

Lemma score_entity_Ok_inv (snapshot : Snapshot) (entity : SnapshotRow)
    (rec : RiskRow) :
  score_entity snapshot entity = Ok rec ->
  exists tier move,
    segment_tier (current_segment entity) = Ok tier
    /\ moved_down entity = Ok move
    /\ risk_score rec
       = fst (revenue_decline (base_rev_of snapshot entity)
                              (curr_rev_of snapshot entity))
         + fst (low_revenue (curr_rev_of snapshot entity))
         + fst tier + fst move
    /\ risk_level rec = level_of (risk_score rec).
Proof.
  unfold score_entity. intros H.
  apply bind_Ok_inv in H. destruct H as [tier [Ht H]].
  apply bind_Ok_inv in H. destruct H as [move [Hm H]].
  injection H as <-. exists tier, move. simpl.
  repeat split; try assumption.
Qed.

Lemma scored_rows (sort : forall R : Type, (R -> Z) -> list R -> list R)
    (snapshot : Snapshot) (out : DataFrame RiskRow) :
  calculate_churn_risk_score sort snapshot = Ok out ->
  exists scored,
    Forall2 (fun entity rec => score_entity snapshot entity = Ok rec)
            (filter (fun r => notna (current_segment r)) (df_rows snapshot))
            scored
    /\ df_rows out = sort RiskRow risk_score scored.
Proof.
  unfold calculate_churn_risk_score. intros H.
  apply bind_Ok_inv in H. destruct H as [risk_scores [Hs H]].
  apply bind_Ok_inv in H. destruct H as [_ [_ H]]. injection H as <-.
  apply collect_Ok in Hs. destruct Hs as [scored [-> HF]].
  exists scored. split; [exact HF | reflexivity].
Qed.

(** C6.  The score of an entity is the sum of the points of the four
    factors (revenue decline 0 to 40, revenue level 0 to 20, segment tier
    0 to 20, downward move 0 to 20), so it lies between 0 and 100; the
    level is High from 60 on, Medium from 30 to 59 and Low below.  The
    rows of the scorer's output are the scores of the snapshot rows whose
    current segment is not null. *)
Theorem churn_risk_score_bounds :
  (forall snapshot entity rec,
      score_entity snapshot entity = Ok rec ->
      exists tier move,
        segment_tier (current_segment entity) = Ok tier
        /\ moved_down entity = Ok move
        /\ risk_score rec
           = fst (revenue_decline (base_rev_of snapshot entity)
                                  (curr_rev_of snapshot entity))
             + fst (low_revenue (curr_rev_of snapshot entity))
             + fst tier + fst move
        /\ 0 <= fst (revenue_decline (base_rev_of snapshot entity)
                                     (curr_rev_of snapshot entity)) <= 40
        /\ 0 <= fst (low_revenue (curr_rev_of snapshot entity)) <= 20
        /\ 0 <= fst tier <= 20
        /\ 0 <= fst move <= 20
        /\ 0 <= risk_score rec <= 100
        /\ (60 <= risk_score rec -> risk_level rec = "High")
        /\ (30 <= risk_score rec < 60 -> risk_level rec = "Medium")
        /\ (risk_score rec < 30 -> risk_level rec = "Low"))
  /\ (forall sort snapshot out,
         (forall R key l, Permutation l (sort R key l)) ->
         calculate_churn_risk_score sort snapshot = Ok out ->
         (forall rec, In rec (df_rows out) ->
                      exists entity,
                        In entity (df_rows snapshot)
                        /\ current_segment entity <> None
                        /\ score_entity snapshot entity = Ok rec)
         /\ (forall entity, In entity (df_rows snapshot) ->
                            current_segment entity <> None ->
                            exists rec, In rec (df_rows out)
                                        /\ score_entity snapshot entity = Ok rec)).
Proof.
  split.
  - intros snapshot entity rec H.
    destruct (score_entity_Ok_inv _ _ _ H) as [tier [move [Ht [Hm [Hs Hl]]]]].
    pose proof (revenue_decline_range (base_rev_of snapshot entity)
                                      (curr_rev_of snapshot entity)) as R1.
    pose proof (low_revenue_range (curr_rev_of snapshot entity)) as R2.
    pose proof (segment_tier_range _ _ Ht) as R3.
    pose proof (moved_down_range _ _ Hm) as R4.
    pose proof (level_of_thresholds (risk_score rec)) as [L1 [L2 L3]].
    exists tier, move. rewrite Hl.
    repeat split; try assumption; try lia.
  - intros sort snapshot out Hperm H.
    destruct (scored_rows _ _ _ H) as [scored [HF Hout]].
    rewrite Hout. split.
    + intros rec Hin.
      apply (Permutation_in _ (Permutation_sym (Hperm _ _ _))) in Hin.
      destruct (Forall2_In_r _ _ _ _ HF Hin) as [entity [He Hrec]].
      apply filter_In in He. destruct He as [He Hna].
      exists entity. repeat split; try assumption.
      intros E. rewrite E in Hna. discriminate.
    + intros entity He Hna.
      assert (Hin : In entity (filter (fun r => notna (current_segment r))
                                      (df_rows snapshot))).
      { apply filter_In. split; [assumption |].
        destruct (current_segment entity); [reflexivity | congruence]. }
      destruct (Forall2_In_l _ _ _ _ HF Hin) as [rec [Hr Hrec]].
      exists rec. split; [| assumption].
      apply (Permutation_in _ (Hperm _ _ _)). assumption.
Qed.

Lemma sort_stable_Permutation (R : Type) (key : R -> Z) (l : list R) :
  Permutation l (Examples.sort_stable R key l).
Proof. apply sorted_Permutation. Qed.

Lemma churn_risk_score_bounds_witness :
  (0 <= risk_score Examples.risk_row_1 <= 100
   /\ risk_level Examples.risk_row_1 = "High")
  /\ (forall rec, In rec Examples.risk_rows ->
                  exists entity,
                    In entity (df_rows Examples.risk_snapshot)
                    /\ current_segment entity <> None
                    /\ score_entity Examples.risk_snapshot entity = Ok rec).
Proof.
  split.
  - destruct (proj1 churn_risk_score_bounds Examples.risk_snapshot
                    Examples.risk_entity_1 Examples.risk_row_1)
      as [tier [move [_ [_ [_ [_ [_ [_ [_ [Hrange [Hhigh _]]]]]]]]]]].
    + vm_compute. reflexivity.
    + split; [exact Hrange | apply Hhigh; vm_compute; discriminate].
  - apply (proj2 churn_risk_score_bounds Examples.sort_stable
                 Examples.risk_snapshot
                 (mkDataFrame risk_columns Examples.risk_rows)).
    + apply sort_stable_Permutation.
    + vm_compute. reflexivity.
Defined.

End RiskScore.

(** ** The analytics on a snapshot without rows *)

Section EmptySnapshot.

Import Cohort Risk.

(** C4, as the code has it.  On a snapshot without rows the cohort
    identification raises [KeyError] for the column [Retention Rate] (the
    frame of cohorts has no column, and the final message reads that
    column), and the entity risk scorer raises [KeyError] for [risk_score]
    (the frame of scores has no column to sort by). *)
Theorem analytics_raise_on_empty_snapshot :
  forall (columns : list string)
         (sort : forall R : Type, (R -> Z) -> list R -> list R),
    identify_segment_cohorts {| df_columns := columns; df_rows := [] |}
    = Raise (KeyError ["Retention Rate"])
    /\ calculate_churn_risk_score sort {| df_columns := columns; df_rows := [] |}
       = Raise (KeyError ["risk_score"]).
Proof. intros columns sort. split; reflexivity. Qed.

End EmptySnapshot.

(** ** The order of the scorer's output *)

Section RiskOrder.

Import Risk Spec.

Lemma Sorted_weaken {A} (P Q : A -> A -> Prop) (l : list A) :
  (forall a b, P a b -> Q a b) -> Sorted P l -> Sorted Q l.
Proof.
  intros HPQ. induction 1 as [| a l Hs IH Hhd]; constructor; [exact IH |].
  destruct Hhd; constructor. now apply HPQ.
Qed.

Lemma StronglySorted_snoc {A} (P : A -> A -> Prop) (l : list A) (x : A) :
  StronglySorted P l -> Forall (fun y => P y x) l ->
  StronglySorted P (l ++ [x]).
Proof.
  induction 1 as [| a l Hs IH Ha]; simpl; intros HF.
  - repeat constructor.
  - inversion HF as [| ? ? Hax HF']; subst.
    constructor; [now apply IH |].
    apply Forall_app. split; [exact Ha | now repeat constructor].
Qed.

Lemma StronglySorted_rev {A} (P : A -> A -> Prop) (l : list A) :
  StronglySorted P l -> StronglySorted (fun a b => P b a) (rev l).
Proof.
  induction 1 as [| a l Hs IH Ha]; simpl; [constructor |].
  apply StronglySorted_snoc; [exact IH |].
  apply Forall_rev. exact Ha.
Qed.

Lemma sort_stable_descending : sorts_descending Examples.sort_stable.
Proof.
  intros R key l. split; [apply sorted_Permutation |].
  unfold descending, Examples.sort_stable.
  apply Sorted_weaken with (P := fun a b => (key b <=? key a) = true).
  - intros a b H. now apply Z.leb_le.
  - apply sorted_Sorted. intros a b H.
    apply Z.leb_gt in H. apply Z.leb_le. lia.
Qed.



End RiskOrder.

(** ** The ordinal of a segment code *)

Section Ordinals.

Import Cohort Risk Spec.

Lemma raises_bind {A B} (r : result A) (k : A -> result B) :
  raises r -> raises (Py.bind r k).
Proof. intros [e ->]. now exists e. Qed.

Lemma raises_not_Ok {A} (r : result A) (a : A) : raises r -> r <> Ok a.
Proof. intros [e ->]. discriminate. Qed.

Lemma int_bad (code : string) :
  ordinal_ok code = false ->
  int (slice_from 3 code) = Raise (ValueError (InvalidLiteral (slice_from 3 code))).
Proof.
  unfold ordinal_ok, int. now destruct (int_literal (slice_from 3 code)).
Qed.

Lemma int_good (code : string) :
  ordinal_ok code = true -> exists z, int (slice_from 3 code) = Ok z.
Proof.
  unfold ordinal_ok, int.
  destruct (int_literal (slice_from 3 code)) as [z |]; [eauto | discriminate].
Qed.

Lemma Forall2_total {A R} (f : A -> result R) (xs : list A) :
  (forall x, In x xs -> exists r, f x = Ok r) ->
  exists rs, Forall2 (fun x r => f x = Ok r) xs rs.
Proof.
  induction xs as [| x xs IH]; intros H.
  - exists []. constructor.
  - destruct (H x (or_introl eq_refl)) as [r Hr].
    destruct IH as [rs Hrs]; [intros y Hy; apply H; now right |].
    exists (r :: rs). now constructor.
Qed.

Lemma sorted_codes_nil (column : list (option string)) :
  sorted_codes column = [] <-> dropna column = [].
Proof.
  split; intros H.
  - destruct (dropna column) as [| x l] eqn:E; [reflexivity |].
    assert (Hin : In x (sorted_codes column)).
    { apply In_sorted_codes, In_dropna. rewrite E. now left. }
    rewrite H in Hin. contradiction.
  - destruct (sorted_codes column) as [| x l] eqn:E; [reflexivity |].
    assert (Hin : In x (dropna column)).
    { apply In_dropna, In_sorted_codes. rewrite E. now left. }
    rewrite H in Hin. contradiction.
Qed.

(** *** Cohorts *)

Lemma count_moves_raises (base_num : Z) (moved : list SnapshotRow)
    (r : SnapshotRow) (code : string) :
  In r moved -> current_segment r = Some code -> ordinal_ok code = false ->
  raises (count_moves base_num moved).
Proof.
  unfold count_moves. generalize (0, 0) as acc.
  induction moved as [| y moved IH]; cbn [for_each]; intros acc Hin Hc Hbad.
  - contradiction.
  - destruct (current_segment y) as [cy |] eqn:Ey; cbn [Py.bind].
    + destruct (ordinal_ok cy) eqn:Ok_cy.
      * destruct (int_good _ Ok_cy) as [z ->]. cbn [Py.bind].
        destruct Hin as [-> | Hin]; [congruence |].
        destruct (z <? base_num); cbn [Py.bind]; now apply IH.
      * rewrite (int_bad _ Ok_cy). cbn [Py.bind]. now eexists.
    + destruct Hin as [-> | Hin]; [congruence |]. now apply IH.
Qed.

Lemma count_moves_returns (base_num : Z) (moved : list SnapshotRow) :
  (forall r code, In r moved -> current_segment r = Some code ->
                  ordinal_ok code = true) ->
  exists moves, count_moves base_num moved = Ok moves.
Proof.
  unfold count_moves. generalize (0, 0) as acc.
  induction moved as [| y moved IH]; cbn [for_each]; intros acc H.
  - eauto.
  - destruct (current_segment y) as [cy |] eqn:Ey; cbn [Py.bind].
    + destruct (int_good cy) as [z ->]; [apply (H y); [now left | assumption] |].
      cbn [Py.bind].
      destruct (z <? base_num); cbn [Py.bind]; apply IH; intros r code Hr;
        apply H; now right.
    + apply IH; intros r code Hr; apply H; now right.
Qed.

Lemma cohort_rows_moved (snapshot : Snapshot) (base_seg : string)
    (r : SnapshotRow) :
  In r (df_rows (select (has_status "Moved Internal")
                        (select (fun r => eq_code (base_segment r) base_seg)
                                snapshot)))
  <-> In r (df_rows snapshot) /\ base_segment r = Some base_seg
      /\ moved_internal r = true.
Proof.
  unfold select, has_status, moved_internal, eq_code. simpl.
  rewrite !filter_In. split.
  - intros [[Hin Hb] Hs]. destruct (base_segment r) as [b |]; [| discriminate].
    apply String.eqb_eq in Hb. subst. auto.
  - intros [Hin [Hb Hs]]. rewrite Hb, String.eqb_refl. auto.
Qed.

Lemma in_parsed_moved_current (snapshot : Snapshot) (r : SnapshotRow)
    (b code : string) :
  In r (df_rows snapshot) -> base_segment r = Some b ->
  moved_internal r = true -> current_segment r = Some code ->
  In code (codes_parsed_by_cohorts snapshot).
Proof.
  intros Hin Hb Hm Hc. unfold codes_parsed_by_cohorts.
  apply in_or_app. right. apply In_dropna. rewrite <- Hc.
  apply in_map. apply filter_In. split; [assumption |].
  rewrite Hb, Hm. reflexivity.
Qed.

Lemma cohorts_raise_on_bad_code (snapshot : Snapshot) :
  Exists (fun code => ordinal_ok code = false) (codes_parsed_by_cohorts snapshot) ->
  raises (identify_segment_cohorts snapshot).
Proof.
  intros H. apply Exists_exists in H. destruct H as [code [Hin Hbad]].
  unfold identify_segment_cohorts. apply raises_bind.
  unfold codes_parsed_by_cohorts in Hin. apply in_app_or in Hin.
  destruct Hin as [Hin | Hin].
  - (* a base segment *)
    assert (raises (cohort_of snapshot code)) as [e He].
    { unfold cohort_of. rewrite (int_bad _ Hbad). cbn [Py.bind]. now eexists. }
    eapply collect_Raise; [| exact He].
    apply In_sorted_codes, In_dropna. exact Hin.
  - (* the current segment of a moved row *)
    apply In_dropna, in_map_iff in Hin. destruct Hin as [r [Hc Hr]].
    apply filter_In in Hr. destruct Hr as [Hr Hbm].
    apply andb_prop in Hbm. destruct Hbm as [Hb Hm].
    destruct (base_segment r) as [b |] eqn:Eb; [| discriminate].
    assert (raises (cohort_of snapshot b)) as [e He].
    { unfold cohort_of. destruct (int (slice_from 3 b)) as [base_num |];
        cbn [Py.bind]; [| now eexists].
      apply raises_bind. eapply count_moves_raises; [| exact Hc | exact Hbad].
      apply cohort_rows_moved. auto. }
    eapply collect_Raise; [| exact He].
    apply In_sorted_codes. rewrite <- Eb. apply in_map. exact Hr.
Qed.

Lemma cohorts_return_on_good_codes (snapshot : Snapshot) :
  Forall (fun code => ordinal_ok code = true) (codes_parsed_by_cohorts snapshot) ->
  dropna (map base_segment (df_rows snapshot)) <> [] ->
  exists out, identify_segment_cohorts snapshot = Ok out.
Proof.
  intros Hgood Hne. rewrite Forall_forall in Hgood.
  unfold identify_segment_cohorts.
  destruct (Forall2_total (cohort_of snapshot)
              (sorted_codes (map base_segment (df_rows snapshot))))
    as [cohorts HF].
  { intros b Hb. unfold cohort_of.
    destruct (int_good b) as [base_num ->].
    { apply Hgood. apply in_or_app. left. now apply In_dropna, In_sorted_codes. }
    cbn [Py.bind].
    destruct (count_moves_returns base_num
                (df_rows (select (has_status "Moved Internal")
                            (select (fun r => eq_code (base_segment r) b)
                                    snapshot)))) as [moves ->].
    { intros r code Hr Hc. apply cohort_rows_moved in Hr.
      destruct Hr as [Hr [Hrb Hm]]. apply Hgood.
      eapply in_parsed_moved_current; eauto. }
    cbn [Py.bind]. eauto. }
  rewrite (collect_all_Ok _ _ [] _ HF). cbn [Py.bind app].
  destruct cohorts as [| c cohorts].
  - inversion HF as [E |]. symmetry in E. apply sorted_codes_nil in E.
    contradiction.
  - eexists. reflexivity.
Qed.

(** *** The entity scorer *)

Lemma score_entity_raises_current (snapshot : Snapshot) (entity : SnapshotRow)
    (code : string) :
  current_segment entity = Some code -> ordinal_ok code = false ->
  raises (score_entity snapshot entity).
Proof.
  intros Hc Hbad. unfold score_entity. apply raises_bind.
  rewrite Hc. unfold segment_tier. rewrite (int_bad _ Hbad). now eexists.
Qed.

Lemma score_entity_raises_base (snapshot : Snapshot) (entity : SnapshotRow)
    (code : string) :
  moved_internal entity = true -> current_segment entity <> None ->
  base_segment entity = Some code -> ordinal_ok code = false ->
  raises (score_entity snapshot entity).
Proof.
  intros Hm Hc Hb Hbad. unfold score_entity.
  destruct (segment_tier (current_segment entity)) as [tier |]; cbn [Py.bind];
    [| now eexists].
  apply raises_bind. unfold moved_down. unfold moved_internal in Hm.
  rewrite Hm, Hb. destruct (current_segment entity); [| congruence].
  rewrite (int_bad _ Hbad). now eexists.
Qed.

Lemma segment_tier_returns (curr_seg : option string) :
  (forall code, curr_seg = Some code -> ordinal_ok code = true) ->
  exists tier, segment_tier curr_seg = Ok tier.
Proof.
  intros H. unfold segment_tier. destruct curr_seg as [code |]; [| eauto].
  destruct (int_good code (H code eq_refl)) as [seg_num ->]. cbn [Py.bind].
  destruct (16 <=? seg_num); [| destruct (11 <=? seg_num)]; eauto.
Qed.

Lemma moved_down_returns (entity : SnapshotRow) :
  (forall code, current_segment entity = Some code -> ordinal_ok code = true) ->
  (forall code, moved_internal entity = true -> current_segment entity <> None ->
                base_segment entity = Some code -> ordinal_ok code = true) ->
  exists move, moved_down entity = Ok move.
Proof.
  intros Hc Hb. unfold moved_down. fold (moved_internal entity).
  destruct (moved_internal entity) eqn:Em; [| eauto].
  destruct (base_segment entity) as [b |] eqn:Eb; [| eauto].
  destruct (current_segment entity) as [c |] eqn:Ec; [| eauto].
  destruct (int_good b) as [base_num ->];
    [apply Hb; [reflexivity | discriminate | reflexivity] |].
  destruct (int_good c (Hc c eq_refl)) as [curr_num ->]. cbn [Py.bind].
  destruct (base_num <? curr_num); eauto.
Qed.

Lemma score_entity_returns (snapshot : Snapshot) (entity : SnapshotRow) :
  (forall code, current_segment entity = Some code -> ordinal_ok code = true) ->
  (forall code, moved_internal entity = true -> current_segment entity <> None ->
                base_segment entity = Some code -> ordinal_ok code = true) ->
  exists rec, score_entity snapshot entity = Ok rec.
Proof.
  intros Hc Hb. unfold score_entity.
  destruct (segment_tier_returns _ Hc) as [tier ->].
  destruct (moved_down_returns _ Hc Hb) as [move ->].
  cbn [Py.bind]. eauto.
Qed.

Lemma entity_scorer_raises_on_bad_code
    (sort : forall R : Type, (R -> Z) -> list R -> list R) (snapshot : Snapshot) :
  Exists (fun code => ordinal_ok code = false)
         (codes_parsed_by_entity_scorer snapshot) ->
  raises (calculate_churn_risk_score sort snapshot).
Proof.
  intros H. apply Exists_exists in H. destruct H as [code [Hin Hbad]].
  unfold calculate_churn_risk_score. apply raises_bind.
  unfold codes_parsed_by_entity_scorer in Hin. apply in_app_or in Hin.
  destruct Hin as [Hin | Hin];
    apply In_dropna, in_map_iff in Hin; destruct Hin as [r [Hc Hr]].
  - destruct (score_entity_raises_current snapshot r code Hc Hbad) as [e He].
    eapply collect_Raise; [| exact He].
    cbn [select df_rows]. apply filter_In. split; [assumption |]. now rewrite Hc.
  - apply filter_In in Hr. destruct Hr as [Hr Hcm].
    apply andb_prop in Hcm. destruct Hcm as [Hna Hm].
    destruct (score_entity_raises_base snapshot r code Hm) as [e He];
      try assumption.
    { intros E. rewrite E in Hna. discriminate. }
    eapply collect_Raise; [| exact He].
    cbn [select df_rows]. apply filter_In. split; assumption.
Qed.

Lemma current_entities_nil (rows : list SnapshotRow) :
  filter (fun r => notna (current_segment r)) rows = []
  <-> dropna (map current_segment rows) = [].
Proof.
  induction rows as [| r rows IH]; simpl; [tauto |].
  destruct (current_segment r); simpl; [| exact IH].
  split; discriminate.
Qed.

Lemma entity_scorer_returns_on_good_codes
    (sort : forall R : Type, (R -> Z) -> list R -> list R) (snapshot : Snapshot) :
  Forall (fun code => ordinal_ok code = true)
         (codes_parsed_by_entity_scorer snapshot) ->
  dropna (map current_segment (df_rows snapshot)) <> [] ->
  exists out, calculate_churn_risk_score sort snapshot = Ok out.
Proof.
  intros Hgood Hne. rewrite Forall_forall in Hgood.
  unfold calculate_churn_risk_score.
  destruct (Forall2_total (score_entity snapshot)
              (df_rows (select (fun r => notna (current_segment r)) snapshot)))
    as [scored HF].
  { intros r Hr. cbn [select df_rows] in Hr.
    apply filter_In in Hr. destruct Hr as [Hr Hna].
    apply score_entity_returns.
    - intros code Hc. apply Hgood. apply in_or_app. left.
      apply In_dropna. rewrite <- Hc. now apply in_map.
    - intros code Hm Hc Hb. apply Hgood. apply in_or_app. right.
      apply In_dropna. rewrite <- Hb. apply in_map.
      apply filter_In. split; [assumption |]. now rewrite Hna, Hm. }
  rewrite (collect_all_Ok _ _ [] _ HF). cbn [Py.bind app].
  destruct scored as [| r scored].
  - exfalso. apply Hne. inversion HF as [E |]. cbn [select df_rows] in E.
    symmetry in E. now apply current_entities_nil.
  - eexists. reflexivity.
Qed.

(** *** The segment scorer *)

Lemma segment_risk_raises (snapshot : Snapshot) (segment : string) :
  ordinal_ok segment = false -> raises (segment_risk snapshot segment).
Proof.
  intros Hbad. unfold segment_risk. rewrite (int_bad _ Hbad).
  now eexists.
Qed.

Lemma segment_risk_returns (snapshot : Snapshot) (segment : string) :
  ordinal_ok segment = true -> exists r, segment_risk snapshot segment = Ok r.
Proof.
  intros Hgood. unfold segment_risk.
  destruct (int_good _ Hgood) as [seg_num ->]. cbn [Py.bind]. eauto.
Qed.

Lemma segment_scorer_raises_on_bad_code
    (sort : forall R : Type, (R -> Z) -> list R -> list R) (snapshot : Snapshot) :
  Exists (fun code => ordinal_ok code = false)
         (codes_parsed_by_segment_scorer snapshot) ->
  raises (identify_at_risk_segments sort snapshot).
Proof.
  intros H. apply Exists_exists in H. destruct H as [code [Hin Hbad]].
  unfold identify_at_risk_segments. apply raises_bind.
  destruct (segment_risk_raises snapshot code Hbad) as [e He].
  eapply collect_Raise; [| exact He].
  apply In_sorted_codes, In_dropna. exact Hin.
Qed.

Lemma segment_scorer_returns_on_good_codes
    (sort : forall R : Type, (R -> Z) -> list R -> list R) (snapshot : Snapshot) :
  Forall (fun code => ordinal_ok code = true)
         (codes_parsed_by_segment_scorer snapshot) ->
  dropna (map current_segment (df_rows snapshot)) <> [] ->
  exists out, identify_at_risk_segments sort snapshot = Ok out.
Proof.
  intros Hgood Hne. rewrite Forall_forall in Hgood.
  unfold identify_at_risk_segments.
  destruct (Forall2_total (segment_risk snapshot)
              (sorted_codes (map current_segment (df_rows snapshot))))
    as [risks HF].
  { intros c Hc. apply segment_risk_returns, Hgood.
    now apply In_dropna, In_sorted_codes. }
  rewrite (collect_all_Ok _ _ [] _ HF). cbn [Py.bind app].
  destruct risks as [| r risks].
  - inversion HF as [E |]. symmetry in E. apply sorted_codes_nil in E.
    contradiction.
  - eexists. reflexivity.
Qed.

Lemma Forall_or_Exists {A} (f : A -> bool) (l : list A) :
  Forall (fun x => f x = true) l \/ Exists (fun x => f x = false) l.
Proof.
  induction l as [| x l [IH | IH]].
  - left. constructor.
  - destruct (f x) eqn:E; [left | right]; now constructor.
  - right. now constructor.
Qed.

Lemma returns_iff {A} (r : result A) (codes : list string) :
  (Exists (fun code => ordinal_ok code = false) codes -> raises r) ->
  (Forall (fun code => ordinal_ok code = true) codes -> exists out, r = Ok out) ->
  (exists out, r = Ok out)
  <-> Forall (fun code => ordinal_ok code = true) codes.
Proof.
  intros Hbad Hgood. split.
  - intros [out Hout].
    destruct (Forall_or_Exists ordinal_ok codes) as [H | H]; [exact H |].
    exfalso. exact (raises_not_Ok _ out (Hbad H) Hout).
  - exact Hgood.
Qed.

(** *** The error that is raised *)

Lemma collect_Raise_inv {A R} (f : A -> result R) (xs : list A) (acc : list R)
    (e : exn) :
  for_each (fun acc x => r <- f x ;; Ok (acc ++ [r])%list) xs acc = Raise e ->
  exists x, In x xs /\ f x = Raise e.
Proof.
  revert acc. induction xs as [| y xs IH]; simpl; intros acc H.
  - discriminate.
  - destruct (f y) as [r | e'] eqn:Hy; simpl in H.
    + destruct (IH _ H) as [x [Hin Hx]]. eauto.
    + injection H as <-. eauto.
Qed.

Lemma int_Raise_inv (code : string) (e : exn) :
  int (slice_from 3 code) = Raise e ->
  ordinal_ok code = false
  /\ e = ValueError (InvalidLiteral (slice_from 3 code)).
Proof.
  unfold ordinal_ok, int.
  destruct (int_literal (slice_from 3 code)); [discriminate |].
  intros H. injection H as <-. auto.
Qed.

Lemma count_moves_Raise_inv (base_num : Z) (moved : list SnapshotRow)
    (e : exn) :
  count_moves base_num moved = Raise e ->
  exists r code,
    In r moved /\ current_segment r = Some code /\ ordinal_ok code = false
    /\ e = ValueError (InvalidLiteral (slice_from 3 code)).
Proof.
  unfold count_moves. generalize (0, 0) as acc.
  induction moved as [| y moved IH]; cbn [for_each]; intros acc H.
  - discriminate.
  - destruct (current_segment y) as [cy |] eqn:Ey; cbn [Py.bind] in H.
    + destruct (int (slice_from 3 cy)) as [z | e'] eqn:Ez; cbn [Py.bind] in H.
      * assert (Hrest : exists acc',
                   for_each
                     (fun (acc : Z * Z) row =>
                        match current_segment row with
                        | Some curr_seg =>
                            curr_num <- int (slice_from 3 curr_seg) ;;
                            if curr_num <? base_num
                            then Ok (fst acc + 1, snd acc)
                            else Ok (fst acc, snd acc + 1)
                        | None => Ok acc
                        end) moved acc' = Raise e).
        { destruct (z <? base_num); cbn [Py.bind] in H; eauto. }
        destruct Hrest as [acc' Hrest].
        destruct (IH _ Hrest) as [r [code [Hin Hr]]].
        exists r, code. split; [now right | exact Hr].
      * injection H as <-. apply int_Raise_inv in Ez.
        exists y, cy. split; [now left |]. tauto.
    + destruct (IH _ H) as [r [code [Hin Hr]]].
      exists r, code. split; [now right | exact Hr].
Qed.

Lemma records_getitem {R} (keys : list string) (records : list R)
    (label : string) (e : exn) :
  mem label keys = true ->
  getitem (DataFrame_of_records keys records) label = Raise e ->
  records = [].
Proof.
  intros Hmem. unfold getitem, DataFrame_of_records. cbn [df_columns].
  destruct records; [reflexivity |]. rewrite Hmem. discriminate.
Qed.

Lemma cohorts_raise_rejected (snapshot : Snapshot) (e : exn) :
  dropna (map base_segment (df_rows snapshot)) <> [] ->
  identify_segment_cohorts snapshot = Raise e ->
  rejected_literal (codes_parsed_by_cohorts snapshot) e.
Proof.
  intros Hne H. unfold identify_segment_cohorts in H.
  match type of H with
  | Py.bind ?loop _ = _ => destruct loop as [cohorts | e'] eqn:Eloop
  end; cbn [Py.bind] in H.
  - exfalso.
    destruct (getitem (DataFrame_of_records cohort_columns cohorts)
                      "Retention Rate") as [rows | e'] eqn:Eget;
      cbn [Py.bind] in H; [discriminate |].
    apply records_getitem in Eget; [| reflexivity]. subst cohorts.
    apply collect_Ok in Eloop. destruct Eloop as [rs [E HF]].
    symmetry in E. apply app_eq_nil in E. destruct E as [_ ->].
    inversion HF as [E |]. symmetry in E. apply sorted_codes_nil in E.
    contradiction.
  - injection H as ->. apply collect_Raise_inv in Eloop.
    destruct Eloop as [b [Hb Hraise]].
    apply In_sorted_codes in Hb. unfold cohort_of in Hraise.
    destruct (int (slice_from 3 b)) as [base_num | e'] eqn:Eb;
      cbn [Py.bind] in Hraise.
    + match type of Hraise with
      | Py.bind ?counted _ = _ => destruct counted as [moves | e'] eqn:Em
      end; cbn [Py.bind] in Hraise; [discriminate |].
      injection Hraise as ->.
      apply count_moves_Raise_inv in Em.
      destruct Em as [r [code [Hr [Hc [Hbad He]]]]].
      apply cohort_rows_moved in Hr. destruct Hr as [Hr [Hrb Hm]].
      exists code. split; [| tauto].
      eapply in_parsed_moved_current; eauto.
    + injection Hraise as ->. apply int_Raise_inv in Eb.
      exists b. split; [| tauto].
      unfold codes_parsed_by_cohorts. apply in_or_app. left.
      now apply In_dropna.
Qed.

Lemma segment_tier_Raise_inv (curr_seg : option string) (e : exn) :
  segment_tier curr_seg = Raise e ->
  exists code, curr_seg = Some code /\ ordinal_ok code = false
               /\ e = ValueError (InvalidLiteral (slice_from 3 code)).
Proof.
  unfold segment_tier. destruct curr_seg as [code |]; [| discriminate].
  destruct (int (slice_from 3 code)) as [seg_num | e'] eqn:E; cbn [Py.bind].
  - destruct (16 <=? seg_num); [| destruct (11 <=? seg_num)]; discriminate.
  - intros H. injection H as ->. apply int_Raise_inv in E. eauto.
Qed.

Lemma moved_down_Raise_inv (entity : SnapshotRow) (e : exn) :
  moved_down entity = Raise e ->
  moved_internal entity = true
  /\ exists code,
       (base_segment entity = Some code \/ current_segment entity = Some code)
       /\ current_segment entity <> None
       /\ ordinal_ok code = false
       /\ e = ValueError (InvalidLiteral (slice_from 3 code)).
Proof.
  unfold moved_down. fold (moved_internal entity).
  destruct (moved_internal entity); [| discriminate].
  destruct (base_segment entity) as [b |]; [| discriminate].
  destruct (current_segment entity) as [c |]; [| discriminate].
  destruct (int (slice_from 3 b)) as [base_num | e'] eqn:Eb; cbn [Py.bind].
  - destruct (int (slice_from 3 c)) as [curr_num | e'] eqn:Ec; cbn [Py.bind].
    + destruct (base_num <? curr_num); discriminate.
    + intros H. injection H as ->. apply int_Raise_inv in Ec.
      split; [reflexivity |]. exists c. repeat split; try tauto.
      discriminate.
  - intros H. injection H as ->. apply int_Raise_inv in Eb.
    split; [reflexivity |]. exists b. repeat split; try tauto.
    discriminate.
Qed.

Lemma score_entity_Raise_inv (snapshot : Snapshot) (entity : SnapshotRow)
    (e : exn) :
  score_entity snapshot entity = Raise e ->
  exists code,
    (current_segment entity = Some code
     \/ (base_segment entity = Some code /\ moved_internal entity = true
         /\ current_segment entity <> None))
    /\ ordinal_ok code = false
    /\ e = ValueError (InvalidLiteral (slice_from 3 code)).
Proof.
  unfold score_entity.
  destruct (segment_tier (current_segment entity)) as [tier | e'] eqn:Et;
    cbn [Py.bind].
  - destruct (moved_down entity) as [move | e'] eqn:Em; cbn [Py.bind];
      [discriminate |].
    intros H. injection H as ->. apply moved_down_Raise_inv in Em.
    destruct Em as [Hm [code [[Hb | Hc] [Hcur [Hbad He]]]]];
      exists code; tauto.
  - intros H. injection H as ->. apply segment_tier_Raise_inv in Et.
    destruct Et as [code [Hc [Hbad He]]]. exists code. tauto.
Qed.

Lemma entity_scorer_raise_rejected
    (sort : forall R : Type, (R -> Z) -> list R -> list R) (snapshot : Snapshot)
    (e : exn) :
  dropna (map current_segment (df_rows snapshot)) <> [] ->
  calculate_churn_risk_score sort snapshot = Raise e ->
  rejected_literal (codes_parsed_by_entity_scorer snapshot) e.
Proof.
  intros Hne H. unfold calculate_churn_risk_score in H.
  match type of H with
  | Py.bind ?loop _ = _ => destruct loop as [scored | e'] eqn:Eloop
  end; cbn [Py.bind] in H.
  - exfalso.
    destruct (getitem (DataFrame_of_records risk_columns scored) "risk_score")
      as [rows | e'] eqn:Eget; cbn [Py.bind] in H; [discriminate |].
    apply records_getitem in Eget; [| reflexivity]. subst scored.
    apply collect_Ok in Eloop. destruct Eloop as [rs [E HF]].
    symmetry in E. apply app_eq_nil in E. destruct E as [_ ->].
    inversion HF as [E |]. cbn [select df_rows] in E. symmetry in E.
    apply current_entities_nil in E. contradiction.
  - injection H as ->. apply collect_Raise_inv in Eloop.
    destruct Eloop as [r [Hr Hraise]]. cbn [select df_rows] in Hr.
    apply filter_In in Hr. destruct Hr as [Hr Hna].
    apply score_entity_Raise_inv in Hraise.
    destruct Hraise as [code [[Hc | [Hb [Hm Hcur]]] [Hbad He]]];
      exists code; (split; [| tauto]); unfold codes_parsed_by_entity_scorer;
      apply in_or_app; [left | right]; apply In_dropna.
    + rewrite <- Hc. now apply in_map.
    + rewrite <- Hb. apply in_map. apply filter_In.
      split; [assumption |]. now rewrite Hna, Hm.
Qed.

Lemma segment_risk_Raise_inv (snapshot : Snapshot) (segment : string)
    (e : exn) :
  segment_risk snapshot segment = Raise e ->
  ordinal_ok segment = false
  /\ e = ValueError (InvalidLiteral (slice_from 3 segment)).
Proof.
  unfold segment_risk.
  destruct (int (slice_from 3 segment)) as [seg_num | e'] eqn:E; cbn [Py.bind];
    [discriminate |].
  intros H. injection H as ->. now apply int_Raise_inv.
Qed.

Lemma segment_scorer_raise_rejected
    (sort : forall R : Type, (R -> Z) -> list R -> list R) (snapshot : Snapshot)
    (e : exn) :
  dropna (map current_segment (df_rows snapshot)) <> [] ->
  identify_at_risk_segments sort snapshot = Raise e ->
  rejected_literal (codes_parsed_by_segment_scorer snapshot) e.
Proof.
  intros Hne H. unfold identify_at_risk_segments in H.
  match type of H with
  | Py.bind ?loop _ = _ => destruct loop as [risks | e'] eqn:Eloop
  end; cbn [Py.bind] in H.
  - exfalso.
    destruct (getitem (DataFrame_of_records segment_risk_columns risks)
                      "Risk Score") as [rows | e'] eqn:Eget;
      cbn [Py.bind] in H; [discriminate |].
    apply records_getitem in Eget; [| reflexivity]. subst risks.
    apply collect_Ok in Eloop. destruct Eloop as [rs [E HF]].
    symmetry in E. apply app_eq_nil in E. destruct E as [_ ->].
    inversion HF as [E |]. symmetry in E. apply sorted_codes_nil in E.
    contradiction.
  - injection H as ->. apply collect_Raise_inv in Eloop.
    destruct Eloop as [c [Hc Hraise]].
    apply segment_risk_Raise_inv in Hraise.
    exists c. split; [| exact Hraise].
    unfold codes_parsed_by_segment_scorer.
    now apply In_dropna, In_sorted_codes.
Qed.

(** C10, as amended.  The three functions compute the ordinal of a
    segment code as [int(code[3:])].  On a snapshot that gives it a
    segment to work on (a base segment for the cohorts, a current
    segment for the two scorers) each of them returns a result exactly
    when [int] accepts the part from the fourth character on of every
    code it parses, and an error it raises is the [ValueError] of [int]
    on one of these codes: the cohorts parse every base segment and the
    current segment of the moved rows of a cohort; the entity scorer
    parses the current segment of every row that has one and the base
    segment of those of these rows that are marked as moved; the segment
    scorer parses every current segment.  On a snapshot whose only entity
    is in the segment [SEG] the three raise [ValueError]. *)
Theorem ordinal_parsing_decides_totality :
  (forall snapshot,
      dropna (map base_segment (df_rows snapshot)) <> [] ->
      ((exists out, identify_segment_cohorts snapshot = Ok out)
       <-> Forall (fun code => ordinal_ok code = true)
                  (codes_parsed_by_cohorts snapshot))
      /\ (forall e,
             identify_segment_cohorts snapshot = Raise e ->
             rejected_literal (codes_parsed_by_cohorts snapshot) e))
  /\ (forall sort snapshot,
         dropna (map current_segment (df_rows snapshot)) <> [] ->
         ((exists out, calculate_churn_risk_score sort snapshot = Ok out)
          <-> Forall (fun code => ordinal_ok code = true)
                     (codes_parsed_by_entity_scorer snapshot))
         /\ (forall e,
                calculate_churn_risk_score sort snapshot = Raise e ->
                rejected_literal (codes_parsed_by_entity_scorer snapshot) e))
  /\ (forall sort snapshot,
         dropna (map current_segment (df_rows snapshot)) <> [] ->
         ((exists out, identify_at_risk_segments sort snapshot = Ok out)
          <-> Forall (fun code => ordinal_ok code = true)
                     (codes_parsed_by_segment_scorer snapshot))
         /\ (forall e,
                identify_at_risk_segments sort snapshot = Raise e ->
                rejected_literal (codes_parsed_by_segment_scorer snapshot) e))
  /\ (forall sort,
         identify_segment_cohorts Examples.unnumbered_snapshot
         = Raise (ValueError (InvalidLiteral ""))
         /\ calculate_churn_risk_score sort Examples.unnumbered_snapshot
            = Raise (ValueError (InvalidLiteral ""))
         /\ identify_at_risk_segments sort Examples.unnumbered_snapshot
            = Raise (ValueError (InvalidLiteral ""))).
Proof.
  split; [| split; [| split; [| split; [| split]]]]; try reflexivity.
  - intros snapshot Hne. split.
    + apply returns_iff.
      * apply cohorts_raise_on_bad_code.
      * intros H. now apply cohorts_return_on_good_codes.
    + intros e. now apply cohorts_raise_rejected.
  - intros sort snapshot Hne. split.
    + apply returns_iff.
      * apply entity_scorer_raises_on_bad_code.
      * intros H. now apply entity_scorer_returns_on_good_codes.
    + intros e. now apply entity_scorer_raise_rejected.
  - intros sort snapshot Hne. split.
    + apply returns_iff.
      * apply segment_scorer_raises_on_bad_code.
      * intros H. now apply segment_scorer_returns_on_good_codes.
    + intros e. now apply segment_scorer_raise_rejected.
Qed.

Lemma ordinal_parsing_decides_totality_witness :
  exists out, identify_segment_cohorts Examples.short_current_snapshot = Ok out.
Proof.
  apply (proj1 (proj1 ordinal_parsing_decides_totality
                      Examples.short_current_snapshot
                      ltac:(discriminate))).
  repeat constructor.
Defined.

(** Each of the three functions returns a result on a snapshot in which
    some segment code is a single letter, because it never parses that
    code: the precondition on every code of the snapshot is not needed.
    For the two scorers this is so whatever routine sorts the frame. *)
Lemma totality_without_decimal_suffixes :
  ~ (forall snapshot out,
        identify_segment_cohorts snapshot = Ok out ->
        Forall (fun code => decimal_suffix code = true) (segment_codes snapshot))
  /\ (forall sort,
         ~ (forall snapshot out,
               calculate_churn_risk_score sort snapshot = Ok out ->
               Forall (fun code => decimal_suffix code = true)
                      (segment_codes snapshot)))
  /\ (forall sort,
         ~ (forall snapshot out,
               identify_at_risk_segments sort snapshot = Ok out ->
               Forall (fun code => decimal_suffix code = true)
                      (segment_codes snapshot))).
Proof.
  split; [| split]; [| intros sort | intros sort]; intros H.
  - destruct (cohorts_return_on_good_codes Examples.short_current_snapshot)
      as [out Hout]; [repeat constructor | discriminate |].
    specialize (H _ _ Hout). rewrite Forall_forall in H.
    specialize (H "X"). vm_compute in H.
    assert (E : false = true) by (apply H; auto). discriminate.
  - destruct (entity_scorer_returns_on_good_codes sort
                Examples.short_base_snapshot)
      as [out Hout]; [repeat constructor | discriminate |].
    specialize (H _ _ Hout). rewrite Forall_forall in H.
    specialize (H "X"). vm_compute in H.
    assert (E : false = true) by (apply H; auto). discriminate.
  - destruct (segment_scorer_returns_on_good_codes sort
                Examples.short_base_snapshot)
      as [out Hout]; [repeat constructor | discriminate |].
    specialize (H _ _ Hout). rewrite Forall_forall in H.
    specialize (H "X"). vm_compute in H.
    assert (E : false = true) by (apply H; auto). discriminate.
Qed.

End Ordinals.

(** ** The failures of the snapshot builder *)

Section BuilderFailures.

Import Settings Caching Processor Validator Spec.

Lemma required_missing_nil (df : SegTable) :
  required_missing df = []
  <-> mem SEGMENT_COLS_month (df_columns df) = true /\ missing_pair df = [].
Proof.
  unfold required_missing, missing_pair. cbn [filter].
  destruct (mem SEGMENT_COLS_entity (df_columns df));
    destruct (mem SEGMENT_COLS_month (df_columns df));
    destruct (mem SEGMENT_COLS_segment (df_columns df)); cbn [negb];
    split; try discriminate; try tauto; intros [H1 H2]; discriminate.
Qed.

(** The tables that call for a failure are the defective ones. *)
Lemma expected_failure_defective (base_seg curr_seg : SegTable) :
  expected_failure base_seg curr_seg <> None
  <-> defective base_seg \/ defective curr_seg.
Proof.
  unfold expected_failure, defective, month_defect, pair_defect.
  rewrite (required_missing_nil base_seg), (required_missing_nil curr_seg).
  cbn [first_defect].
  destruct (mem SEGMENT_COLS_month (df_columns base_seg)).
  2:{ split; [| discriminate]. intros _. left. right. intros [H _].
      discriminate. }
  destruct (df_rows base_seg) as [| b0 brows].
  { split; [| discriminate]. auto. }
  destruct (mem SEGMENT_COLS_month (df_columns curr_seg)).
  2:{ split; [| discriminate]. intros _. right. right. intros [H _].
      discriminate. }
  destruct (df_rows curr_seg) as [| c0 crows].
  { split; [| discriminate]. auto. }
  destruct (missing_pair base_seg) as [| l missing].
  2:{ split; [| discriminate]. intros _. left. right. intros [_ H].
      discriminate. }
  destruct (missing_pair curr_seg) as [| l missing].
  2:{ split; [| discriminate]. intros _. right. right. intros [_ H].
      discriminate. }
  split; [congruence |].
  intros [[H | H] | [H | H]]; try discriminate; exfalso; apply H; auto.
Qed.

Lemma create_snapshot_refuses (cfg : settings) (base_seg curr_seg : SegTable)
    (metrics_glbl : MetricsTable) (c : cache) (e : exn) :
  served cfg c base_seg curr_seg = None ->
  expected_failure base_seg curr_seg = Some e ->
  create_snapshot cfg base_seg curr_seg metrics_glbl c = (Raise e, c).
Proof.
  unfold served, expected_failure, month_defect, pair_defect, missing_pair.
  unfold create_snapshot, Caching.bind, lift, getitem, getitems.
  cbn [first_defect].
  destruct (mem SEGMENT_COLS_month (df_columns base_seg)).
  2:{ intros _ H. injection H as <-. reflexivity. }
  destruct (df_rows base_seg) as [| b0 brows].
  { intros _ H. injection H as <-. reflexivity. }
  cbn [map iloc0].
  destruct (mem SEGMENT_COLS_month (df_columns curr_seg)).
  2:{ intros _ H. injection H as <-. reflexivity. }
  destruct (df_rows curr_seg) as [| c0 crows].
  { intros _ H. injection H as <-. reflexivity. }
  cbn [map iloc0]. intros ->.
  destruct (filter (fun l => negb (mem l (df_columns base_seg)))
                   [SEGMENT_COLS_entity; SEGMENT_COLS_segment])
    as [| l missing].
  2:{ intros H. injection H as <-. reflexivity. }
  destruct (filter (fun l => negb (mem l (df_columns curr_seg)))
                   [SEGMENT_COLS_entity; SEGMENT_COLS_segment])
    as [| l missing].
  2:{ intros H. injection H as <-. reflexivity. }
  discriminate.
Qed.

Lemma create_snapshot_serves (cfg : settings) (base_seg curr_seg : SegTable)
    (metrics_glbl : MetricsTable) (c : cache) (cached : Snapshot) :
  month_defect base_seg = None -> month_defect curr_seg = None ->
  served cfg c base_seg curr_seg = Some cached ->
  create_snapshot cfg base_seg curr_seg metrics_glbl c = (Ok cached, c).
Proof.
  unfold served, month_defect.
  unfold create_snapshot, Caching.bind, lift, getitem.
  destruct (mem SEGMENT_COLS_month (df_columns base_seg)); [| discriminate].
  destruct (df_rows base_seg) as [| b0 brows]; [discriminate |].
  destruct (mem SEGMENT_COLS_month (df_columns curr_seg)); [| discriminate].
  destruct (df_rows curr_seg) as [| c0 crows]; [discriminate |].
  cbn [map iloc0]. intros _ _ ->. reflexivity.
Qed.

Lemma validator_reports_missing (df : SegTable) (file_name : string) :
  validate_segmentation_data df file_name
  = match required_missing df with
    | [] => Ok true
    | missing => Raise (ValueError (MissingColumns file_name missing))
    end.
Proof.
  unfold validate_segmentation_data, required_missing.
  destruct (filter _ _); reflexivity.
Qed.

(** C7, as amended.  When an assignment table has no row or lacks a
    required column, and the cache serves no snapshot for the months of
    the two tables, [create_snapshot] raises and leaves the cache as it
    was, and the error is the one that the first defect calls for: the
    base table is looked at before the current table for the month
    column ([KeyError] with its label) and the first row ([IndexError]),
    then the base table and after it the current table for the entity
    and segment columns ([KeyError] with the missing ones of the table,
    entity before segment).  A failure is called for exactly when a table
    is defective.  When the month columns and first rows are there and
    the cache serves a snapshot for the two months, that snapshot is
    returned, whatever else the tables lack.  The validator raises
    [ValueError] with exactly the missing required columns of the table
    it is given, and accepts a table that has them all, also one without
    rows. *)
Theorem snapshot_builder_refuses_defective_tables :
  (forall cfg base_seg curr_seg metrics_glbl c,
      defective base_seg \/ defective curr_seg ->
      served cfg c base_seg curr_seg = None ->
      exists e,
        expected_failure base_seg curr_seg = Some e
        /\ create_snapshot cfg base_seg curr_seg metrics_glbl c = (Raise e, c))
  /\ (forall base_seg curr_seg,
         expected_failure base_seg curr_seg <> None
         <-> defective base_seg \/ defective curr_seg)
  /\ (forall cfg base_seg curr_seg metrics_glbl c cached,
         month_defect base_seg = None -> month_defect curr_seg = None ->
         served cfg c base_seg curr_seg = Some cached ->
         create_snapshot cfg base_seg curr_seg metrics_glbl c = (Ok cached, c))
  /\ (forall df file_name,
         validate_segmentation_data df file_name
         = match required_missing df with
           | [] => Ok true
           | missing => Raise (ValueError (MissingColumns file_name missing))
           end).
Proof.
  split; [| split; [| split]].
  - intros cfg base_seg curr_seg metrics_glbl c Hdef Hcold.
    apply expected_failure_defective in Hdef.
    destruct (expected_failure base_seg curr_seg) as [e |] eqn:E;
      [| contradiction].
    exists e. split; [reflexivity |]. now apply create_snapshot_refuses.
  - apply expected_failure_defective.
  - apply create_snapshot_serves.
  - apply validator_reports_missing.
Qed.

Lemma snapshot_builder_refuses_defective_tables_witness :
  create_snapshot Settings.default Examples.base_seg_without_segment
                  Examples.curr_seg Examples.metrics_glbl Caching.empty
  = (Raise (KeyError [SEGMENT_COLS_segment]), Caching.empty).
Proof.
  destruct (proj1 snapshot_builder_refuses_defective_tables
              Settings.default Examples.base_seg_without_segment
              Examples.curr_seg Examples.metrics_glbl Caching.empty)
    as [e [He Hraise]].
  - left. right. vm_compute. discriminate.
  - reflexivity.
  - vm_compute in He. injection He as <-. exact Hraise.
Defined.

(** With the snapshot of the two months in the cache, the builder returns
    it although the base table has lost its segment column. *)
Lemma snapshot_builder_serves_cache_for_defective_table :
  defective Examples.base_seg_without_segment
  /\ create_snapshot Settings.default Examples.base_seg_without_segment
                     Examples.curr_seg Examples.metrics_glbl Examples.warm_cache
     = (Ok Examples.snapshot, Examples.warm_cache).
Proof.
  split.
  - right. vm_compute. discriminate.
  - vm_compute. reflexivity.
Qed.

End BuilderFailures.

(** ** Sums and counts *)

Section Sums.

Open Scope Qc_scope.

Lemma of_Z_add (x y : Z) : of_Z (x + y) = of_Z x + of_Z y.
Proof.
  unfold of_Z, Qcplus. apply Qc_is_canon. cbn [this Q2Qc].
  rewrite !Qred_correct, inject_Z_plus. reflexivity.
Qed.

Lemma of_nat_add (n m : nat) : of_nat (n + m) = of_nat n + of_nat m.
Proof. unfold of_nat. rewrite Nat2Z.inj_add. apply of_Z_add. Qed.

Lemma fold_left_Qcplus (l : list num) (a : num) :
  fold_left Qcplus l a = a + fold_left Qcplus l 0.
Proof.
  revert a. induction l as [| x l IH]; intros a; simpl.
  - ring.
  - rewrite (IH (a + x)), (IH (0 + x)). ring.
Qed.

Lemma sum_nil : sum [] = 0.
Proof. reflexivity. Qed.

Lemma sum_cons (x : num) (l : list num) : sum (x :: l) = x + sum l.
Proof.
  unfold sum. change (of_Z 0) with 0. simpl.
  rewrite fold_left_Qcplus. ring.
Qed.

Lemma sum_app (l l' : list num) : sum (l ++ l') = sum l + sum l'.
Proof.
  induction l as [| x l IH]; simpl.
  - rewrite sum_nil. ring.
  - rewrite !sum_cons, IH. ring.
Qed.


Lemma sum_map_add {A} (f g : A -> num) (l : list A) :
  sum (map (fun x => f x + g x) l) = sum (map f l) + sum (map g l).
Proof.
  induction l as [| x l IH]; simpl.
  - rewrite sum_nil. ring.
  - rewrite !sum_cons, IH. ring.
Qed.

Lemma sum_map_ext {A} (f g : A -> num) (l : list A) :
  (forall x, In x l -> f x = g x) -> sum (map f l) = sum (map g l).
Proof.
  intros H. f_equal. apply map_ext_in. exact H.
Qed.

Lemma sum_of_nat {A} (f : A -> nat) (l : list A) :
  sum (map (fun x => of_nat (f x)) l) = of_nat (list_sum (map f l)).
Proof.
  induction l as [| x l IH]; simpl; [reflexivity |].
  rewrite sum_cons, IH, of_nat_add. reflexivity.
Qed.

(** Splitting the rows selected by a test into two disjoint parts. *)
Lemma sum_filter_split {A} (f : A -> num) (p q : A -> bool) (l : list A) :
  (forall x, p x && q x = false) ->
  sum (map f (filter (fun x => p x || q x) l))
  = sum (map f (filter p l)) + sum (map f (filter q l)).
Proof.
  intros Hdis. induction l as [| x l IH]; simpl.
  - rewrite sum_nil. ring.
  - specialize (Hdis x).
    destruct (p x), (q x); simpl in *; try discriminate;
      rewrite ?sum_cons, IH; ring.
Qed.

Lemma length_filter_split {A} (p q : A -> bool) (l : list A) :
  (forall x, p x && q x = false) ->
  List.length (filter (fun x => p x || q x) l)
  = (List.length (filter p l) + List.length (filter q l))%nat.
Proof.
  intros Hdis. induction l as [| x l IH]; simpl; [reflexivity |].
  specialize (Hdis x).
  destruct (p x), (q x); simpl in *; try discriminate; rewrite IH; lia.
Qed.

End Sums.

(** ** The value of a metric over a selection of rows *)

Section MetricFacts.

Import Metrics Spec.
Open Scope Qc_scope.

Lemma calculate_metric_select (snapshot : Snapshot) (period metric : string)
    (p : SnapshotRow -> bool) :
  calculate_metric (select p snapshot) period metric
  = metric_value snapshot period metric (filter p (df_rows snapshot)).
Proof.
  unfold calculate_metric, metric_value, select. simpl.
  destruct (filter p (df_rows snapshot)) as [| x l]; simpl; [| reflexivity].
  destruct (String.eqb metric "count"); [reflexivity |].
  destruct (mem _ _); reflexivity.
Qed.

Lemma metric_value_split (snapshot : Snapshot) (period metric : string)
    (p q : SnapshotRow -> bool) (l : list SnapshotRow) :
  (forall x, p x && q x = false) ->
  metric_value snapshot period metric (filter (fun x => p x || q x) l)
  = metric_value snapshot period metric (filter p l)
    + metric_value snapshot period metric (filter q l).
Proof.
  intros Hdis. unfold metric_value.
  destruct (String.eqb metric "count").
  - rewrite length_filter_split by assumption. apply of_nat_add.
  - destruct (mem _ _); [now apply sum_filter_split |].
    change (of_Z 0) with 0. ring.
Qed.

End MetricFacts.

(** ** The summary view *)

Section SummaryFacts.

Import Metrics Summary Spec.
Open Scope Qc_scope.

Lemma summary_view_shape (snapshot : Snapshot) (metric : string) :
  generate_summary_view snapshot metric
  = match all_segments snapshot with
    | [] => Raise (KeyError ["Base"])
    | _ :: _ =>
        Ok {| df_columns := summary_columns;
              df_rows :=
                segment_rows snapshot metric
                ++ [totals_row {| df_columns := summary_columns;
                                  df_rows := segment_rows snapshot metric |}] |}
    end.
Proof.
  unfold generate_summary_view, segment_rows.
  destruct (all_segments snapshot) as [| seg segs]; reflexivity.
Qed.

Lemma lookup_map_key {C} (g : string -> C) (cols : list string) (col : string) :
  In col cols -> lookup col (map (fun c => (c, g c)) cols) = Some (g col).
Proof.
  induction cols as [| c cols IH]; simpl; [contradiction |].
  intros Hin. destruct (String.eqb_spec col c) as [-> | Hne]; [reflexivity |].
  destruct Hin as [-> | Hin]; [congruence | now apply IH].
Qed.

Lemma totals_row_field (rows : list SummaryRow) (col : string) :
  In col numeric_columns ->
  field col (totals_row {| df_columns := summary_columns; df_rows := rows |})
  = sum (map (field col) rows).
Proof.
  intros Hin. unfold field at 1, totals_row. cbn [fields df_columns df_rows].
  change (filter (fun col0 => negb (String.eqb col0 "Segment")) summary_columns)
    with numeric_columns.
  rewrite (lookup_map_key (fun c => sum (map (field c) rows))) by assumption.
  reflexivity.
Qed.

(** C2.  For a metric selector (['count'] or the name of a numeric
    metric) the summary view is returned as soon as the snapshot has a
    segment, and whenever it is returned it consists of the rows of the
    segments followed by one row labelled [TOTAL] which holds, in each of
    the eight numeric columns, the sum of that column over the rows of
    the segments. *)
Theorem summary_total_row_is_column_sum :
  forall snapshot metric,
    metric <> "segment"%string ->
    (all_segments snapshot <> [] ->
     exists df, generate_summary_view snapshot metric = Ok df)
    /\ (forall df,
           generate_summary_view snapshot metric = Ok df ->
           exists rows total,
             df_rows df = (rows ++ [total])%list
             /\ rows = map (segment_row snapshot metric) (all_segments snapshot)
             /\ Segment total = "TOTAL"%string
             /\ forall col, In col numeric_columns ->
                            field col total = sum (map (field col) rows)).
Proof.
  intros snapshot metric _. rewrite summary_view_shape. split.
  - intros Hne. destruct (all_segments snapshot); [contradiction | eauto].
  - intros df H.
    destruct (all_segments snapshot) as [| seg segs] eqn:E; [discriminate |].
    injection H as <-. rewrite <- E.
    exists (segment_rows snapshot metric),
           (totals_row {| df_columns := summary_columns;
                          df_rows := segment_rows snapshot metric |}).
    repeat split. intros col Hcol. now apply totals_row_field.
Qed.

Lemma summary_total_row_is_column_sum_witness :
  (exists df, generate_summary_view Examples.snapshot "count" = Ok df)
  /\ (forall df,
         generate_summary_view Examples.snapshot "count" = Ok df ->
         exists rows total,
           df_rows df = (rows ++ [total])%list
           /\ rows = map (segment_row Examples.snapshot "count")
                         (all_segments Examples.snapshot)
           /\ Segment total = "TOTAL"%string
           /\ forall col, In col numeric_columns ->
                          field col total = sum (map (field col) rows)).
Proof.
  destruct (summary_total_row_is_column_sum Examples.snapshot "count")
    as [Hret Htotal]; [discriminate |].
  split; [apply Hret; vm_compute; discriminate | exact Htotal].
Defined.

(** The rows whose current segment is [segment] are those retained in it,
    those new to the system, and those added from another segment. *)
Lemma current_partition (segment : string) (r : SnapshotRow) :
  eq_code (current_segment r) segment
  = (eq_code (base_segment r) segment && eq_code (current_segment r) segment
     || eq_code (current_segment r) segment && isna (base_segment r))
    || eq_code (current_segment r) segment && notna (base_segment r)
       && ne_code (base_segment r) segment.
Proof.
  unfold ne_code, notna.
  destruct (eq_code (current_segment r) segment); simpl.
  - rewrite andb_true_r.
    destruct (base_segment r) as [b |]; simpl;
      [destruct (String.eqb b segment) |]; reflexivity.
  - rewrite andb_false_r. reflexivity.
Qed.

Lemma segment_row_current (snapshot : Snapshot) (metric segment : string) :
  let row := segment_row snapshot metric segment in
  field "Current" row
  = field "Retained" row + field "New (System)" row
    + field "Added (Other Seg)" row.
Proof.
  intros row.
  change (field "Current" row)
    with (calculate_metric
            (select (fun r => eq_code (current_segment r) segment) snapshot)
            "current" metric).
  change (field "Retained" row)
    with (calculate_metric
            (select (fun r => eq_code (base_segment r) segment
                              && eq_code (current_segment r) segment) snapshot)
            "current" metric).
  change (field "New (System)" row)
    with (calculate_metric
            (select (fun r => eq_code (current_segment r) segment
                              && isna (base_segment r)) snapshot)
            "current" metric).
  change (field "Added (Other Seg)" row)
    with (calculate_metric
            (select (fun r => eq_code (current_segment r) segment
                              && notna (base_segment r)
                              && ne_code (base_segment r) segment) snapshot)
            "current" metric).
  rewrite !calculate_metric_select.
  rewrite (filter_ext _ _ (current_partition segment)).
  rewrite metric_value_split.
  - rewrite metric_value_split; [reflexivity |].
    intros r. destruct (base_segment r); simpl;
      rewrite ?andb_false_r; reflexivity.
  - intros r. unfold ne_code, notna.
    destruct (base_segment r) as [b |]; simpl.
    + destruct (String.eqb b segment); simpl;
        rewrite ?andb_false_r; reflexivity.
    + rewrite !andb_false_r. reflexivity.
Qed.

Lemma filter_of_filter {A} (f g : A -> bool) (l : list A) :
  filter f (filter g l) = filter (fun x => g x && f x) l.
Proof.
  induction l as [| x l IH]; simpl; [reflexivity |].
  destruct (g x); simpl; [destruct (f x) |]; now rewrite IH.
Qed.

(** The masks of the loop select the rows of each origin. *)
Lemma current_rows_from_mask (snapshot : Snapshot) (segment : string) :
  current_rows_from snapshot segment Same_segment
  = filter (fun r => eq_code (base_segment r) segment
                     && eq_code (current_segment r) segment)
           (df_rows snapshot)
  /\ current_rows_from snapshot segment No_segment
     = filter (fun r => eq_code (current_segment r) segment
                        && isna (base_segment r))
              (df_rows snapshot)
  /\ current_rows_from snapshot segment Other_segment
     = filter (fun r => eq_code (current_segment r) segment
                        && notna (base_segment r)
                        && ne_code (base_segment r) segment)
              (df_rows snapshot).
Proof.
  unfold current_rows_from, current_rows. rewrite !filter_of_filter.
  repeat split; apply filter_ext; intros r;
    unfold origin_of, ne_code, notna, eq_code;
    destruct (current_segment r) as [c |]; simpl;
    try destruct (String.eqb c segment); simpl;
    destruct (base_segment r) as [b |]; simpl;
    try destruct (String.eqb b segment); reflexivity.
Qed.

(** Every row is of exactly one origin. *)
Lemma origin_partition (segment : string) (l : list SnapshotRow) :
  Permutation l
    (filter (fun r => origin_eqb (origin_of segment r) Same_segment) l
     ++ filter (fun r => origin_eqb (origin_of segment r) No_segment) l
     ++ filter (fun r => origin_eqb (origin_of segment r) Other_segment) l).
Proof.
  induction l as [| x l IH]; simpl; [constructor |].
  destruct (origin_of segment x); simpl.
  - now constructor.
  - apply Permutation_cons_app. exact IH.
  - rewrite app_assoc. apply Permutation_cons_app.
    rewrite <- app_assoc. exact IH.
Qed.

Lemma Forall2_map_of {A B} (P : A -> B -> Prop) (f : A -> B) (l : list A) :
  (forall x, In x l -> P x (f x)) -> Forall2 P l (map f l).
Proof.
  induction l as [| x l IH]; simpl; intros H; constructor.
  - apply H. now left.
  - apply IH. intros y Hy. apply H. now right.
Qed.

(** The four columns of the row of a segment. *)
Lemma segment_row_columns (snapshot : Snapshot) (metric segment : string) :
  let row := segment_row snapshot metric segment in
  lookup "Current" (fields row)
  = Some (current_value snapshot metric (current_rows snapshot segment))
  /\ lookup "Retained" (fields row)
     = Some (current_value snapshot metric
               (current_rows_from snapshot segment Same_segment))
  /\ lookup "New (System)" (fields row)
     = Some (current_value snapshot metric
               (current_rows_from snapshot segment No_segment))
  /\ lookup "Added (Other Seg)" (fields row)
     = Some (current_value snapshot metric
               (current_rows_from snapshot segment Other_segment)).
Proof.
  intros row.
  destruct (current_rows_from_mask snapshot segment) as [-> [-> ->]].
  unfold current_value, current_rows.
  rewrite <- !calculate_metric_select.
  repeat split; reflexivity.
Qed.

(** C9.  The summary view of a metric selector (['count'] or the name of
    a numeric metric) has one row per segment, in the order of the
    segments, before its row of totals.  In the row of a segment the
    column Current holds the current-period value of the metric over the
    rows whose current segment is that segment, and the columns Retained,
    New (System) and Added (Other Seg) hold the same current-period value
    over those of these rows whose base segment is that segment, is null,
    and is another segment.  Every row whose current segment is the
    segment is in exactly one of the three groups, and Current is the sum
    of Retained, New (System) and Added (Other Seg).  Arithmetic is
    exact. *)
Theorem summary_current_is_retained_new_added :
  forall snapshot metric,
    metric <> "segment"%string ->
    forall df,
      generate_summary_view snapshot metric = Ok df ->
      exists rows total,
        df_rows df = (rows ++ [total])%list
        /\ Forall2
             (fun segment row =>
                Segment row = segment
                /\ lookup "Current" (fields row)
                   = Some (current_value snapshot metric
                             (current_rows snapshot segment))
                /\ lookup "Retained" (fields row)
                   = Some (current_value snapshot metric
                             (current_rows_from snapshot segment Same_segment))
                /\ lookup "New (System)" (fields row)
                   = Some (current_value snapshot metric
                             (current_rows_from snapshot segment No_segment))
                /\ lookup "Added (Other Seg)" (fields row)
                   = Some (current_value snapshot metric
                             (current_rows_from snapshot segment Other_segment))
                /\ Permutation
                     (current_rows snapshot segment)
                     (current_rows_from snapshot segment Same_segment
                      ++ current_rows_from snapshot segment No_segment
                      ++ current_rows_from snapshot segment Other_segment)
                /\ field "Current" row
                   = field "Retained" row + field "New (System)" row
                     + field "Added (Other Seg)" row)
             (all_segments snapshot) rows.
Proof.
  intros snapshot metric _ df H. rewrite summary_view_shape in H.
  destruct (all_segments snapshot) as [| seg segs] eqn:E; [discriminate |].
  injection H as <-. rewrite <- E.
  exists (segment_rows snapshot metric),
         (totals_row {| df_columns := summary_columns;
                        df_rows := segment_rows snapshot metric |}).
  split; [reflexivity |]. unfold segment_rows.
  apply Forall2_map_of. intros segment _.
  destruct (segment_row_columns snapshot metric segment)
    as [Hcur [Hret [Hnew Hadd]]].
  split; [reflexivity |].
  split; [exact Hcur |]. split; [exact Hret |].
  split; [exact Hnew |]. split; [exact Hadd |].
  split; [apply origin_partition | apply segment_row_current].
Qed.

Lemma summary_current_is_retained_new_added_witness :
  exists df,
    generate_summary_view Examples.snapshot "a_rev_wf" = Ok df
    /\ exists rows total,
         df_rows df = (rows ++ [total])%list
         /\ Forall2
              (fun segment row =>
                 Segment row = segment
                 /\ lookup "Current" (fields row)
                    = Some (current_value Examples.snapshot "a_rev_wf"
                              (current_rows Examples.snapshot segment))
                 /\ lookup "Retained" (fields row)
                    = Some (current_value Examples.snapshot "a_rev_wf"
                              (current_rows_from Examples.snapshot segment
                                                 Same_segment))
                 /\ lookup "New (System)" (fields row)
                    = Some (current_value Examples.snapshot "a_rev_wf"
                              (current_rows_from Examples.snapshot segment
                                                 No_segment))
                 /\ lookup "Added (Other Seg)" (fields row)
                    = Some (current_value Examples.snapshot "a_rev_wf"
                              (current_rows_from Examples.snapshot segment
                                                 Other_segment))
                 /\ Permutation
                      (current_rows Examples.snapshot segment)
                      (current_rows_from Examples.snapshot segment Same_segment
                       ++ current_rows_from Examples.snapshot segment No_segment
                       ++ current_rows_from Examples.snapshot segment
                                            Other_segment)
                 /\ field "Current" row
                    = field "Retained" row + field "New (System)" row
                      + field "Added (Other Seg)" row)
              (all_segments Examples.snapshot) rows.
Proof.
  destruct (generate_summary_view Examples.snapshot "a_rev_wf")
    as [df | e] eqn:E; [| vm_compute in E; discriminate E].
  exists df. split; [reflexivity |].
  apply (summary_current_is_retained_new_added Examples.snapshot "a_rev_wf").
  - discriminate.
  - exact E.
Defined.

End SummaryFacts.

(** ** The movement matrix *)

Section MatrixStore.

Import Metrics Matrix.
Open Scope Qc_scope.

Lemma key_eqb_true (r c : string) (e : string * string * num) :
  key_eqb r c e = true <-> fst e = (r, c).
Proof.
  destruct e as [[r' c'] v]. unfold key_eqb. simpl.
  rewrite andb_true_iff, !String.eqb_eq. split.
  - intros [-> ->]. reflexivity.
  - intros H. injection H as -> ->. auto.
Qed.

(** A cell reads the value on which all its assignments agree. *)
Lemma loc_determined (m : matrix) (r c : string) (v : num) :
  (exists e, In e (data m) /\ fst e = (r, c)) ->
  (forall e, In e (data m) -> fst e = (r, c) -> snd e = v) ->
  loc m r c = v.
Proof.
  intros [e [Hin Hk]] Hall. unfold loc.
  destruct (find (key_eqb r c) (data m)) as [e' |] eqn:F.
  - apply find_some in F. destruct F as [Hin' Hk'].
    apply key_eqb_true in Hk'. now apply Hall.
  - exfalso. apply (find_none _ _ F) in Hin.
    apply key_eqb_true in Hk. congruence.
Qed.

(** A cell never assigned reads the initial value. *)
Lemma loc_absent (m : matrix) (r c : string) :
  (forall e, In e (data m) -> fst e <> (r, c)) -> loc m r c = 0.
Proof.
  intros H. unfold loc.
  destruct (find (key_eqb r c) (data m)) as [e |] eqn:F; [| reflexivity].
  apply find_some in F. destruct F as [Hin Hk].
  apply key_eqb_true in Hk. now apply H in Hin.
Qed.

(** Assignments to other cells do not change a cell. *)
Lemma loc_frame (m m' : matrix) (ws : list (string * string * num))
    (r c : string) :
  data m' = (ws ++ data m)%list ->
  (forall e, In e ws -> fst e <> (r, c)) ->
  loc m' r c = loc m r c.
Proof.
  intros Hd Hws. unfold loc. rewrite Hd. clear Hd.
  induction ws as [| w ws IH]; simpl; [reflexivity |].
  destruct (key_eqb r c w) eqn:E.
  - apply key_eqb_true in E. exfalso. apply (Hws w); [now left | assumption].
  - apply IH. intros e He. apply Hws. now right.
Qed.

Lemma fold_loc_set_data {X} (kr kc : X -> string) (kv : X -> num)
    (xs : list X) (m : matrix) :
  data (fold_left (fun acc x => loc_set acc (kr x) (kc x) (kv x)) xs m)
  = (rev (map (fun x => (kr x, kc x, kv x)) xs) ++ data m)%list.
Proof.
  revert m. induction xs as [| x xs IH]; intros m; simpl; [reflexivity |].
  rewrite IH. simpl. now rewrite <- app_assoc.
Qed.

Lemma fold_preserves {X} (g : matrix -> X -> matrix) (f : matrix -> list string)
    (xs : list X) (m : matrix) :
  (forall m x, f (g m x) = f m) -> f (fold_left g xs m) = f m.
Proof.
  intros H. revert m. induction xs as [| x xs IH]; intros m; simpl;
    [reflexivity |].
  now rewrite IH, H.
Qed.

Lemma In_data_fold {X} (g : matrix -> X -> matrix)
    (P : X -> string * string * num -> Prop) :
  (forall m x e, In e (data (g m x)) <-> In e (data m) \/ P x e) ->
  forall xs m e,
    In e (data (fold_left g xs m))
    <-> In e (data m) \/ exists x, In x xs /\ P x e.
Proof.
  intros Hg. induction xs as [| x xs IH]; intros m e; simpl.
  - split; [auto | intros [H | [x [[] _]]]; exact H].
  - rewrite IH, Hg. split.
    + intros [[H | H] | [y [Hy H]]]; eauto.
    + intros [H | [y [[<- | Hy] H]]]; eauto.
Qed.

Lemma in_combine_map {A B} (f : A -> B) (l : list A) (x : A) (y : B) :
  In (x, y) (combine l (map f l)) <-> In x l /\ y = f x.
Proof.
  induction l as [| a l IH]; simpl; [tauto |].
  rewrite IH. split.
  - intros [H | [H ->]]; [injection H as -> <- |]; auto.
  - intros [[-> | H] ->]; auto.
Qed.

Lemma set_column_data (m : matrix) (label : string) (f : string -> num)
    (e : string * string * num) :
  In e (data (set_column m label (map f (index m))))
  <-> In e (data m) \/ exists r, In r (index m) /\ e = (r, label, f r).
Proof.
  unfold set_column. cbn [data].
  rewrite (fold_loc_set_data fst (fun _ => label) snd).
  rewrite in_app_iff, <- in_rev, in_map_iff. split.
  - intros [[[r v] [<- Hin]] | H]; [| auto].
    apply in_combine_map in Hin. destruct Hin as [Hr ->]. simpl. eauto.
  - intros [H | [r [Hr ->]]]; [auto |]. left.
    exists (r, f r). split; [reflexivity |]. now apply in_combine_map.
Qed.

Lemma set_row_data (m : matrix) (label : string) (f : string -> num)
    (e : string * string * num) :
  In e (data (set_row m label (map f (columns m))))
  <-> In e (data m) \/ exists c, In c (columns m) /\ e = (label, c, f c).
Proof.
  unfold set_row. cbn [data].
  rewrite (fold_loc_set_data (fun _ => label) fst snd).
  rewrite in_app_iff, <- in_rev, in_map_iff. split.
  - intros [[[c v] [<- Hin]] | H]; [| auto].
    apply in_combine_map in Hin. destruct Hin as [Hc ->]. simpl. eauto.
  - intros [H | [c [Hc ->]]]; [auto |]. left.
    exists (c, f c). split; [reflexivity |]. now apply in_combine_map.
Qed.

Lemma set_column_frame (m : matrix) (label : string) (series : list num)
    (r c : string) :
  c <> label -> loc (set_column m label series) r c = loc m r c.
Proof.
  intros Hc. eapply loc_frame.
  - unfold set_column. cbn [data].
    apply (fold_loc_set_data fst (fun _ => label) snd).
  - intros e He. apply in_rev, in_map_iff in He.
    destruct He as [rv [<- _]]. simpl. congruence.
Qed.

Lemma set_row_frame (m : matrix) (label : string) (series : list num)
    (r c : string) :
  r <> label -> loc (set_row m label series) r c = loc m r c.
Proof.
  intros Hr. eapply loc_frame.
  - unfold set_row. cbn [data].
    apply (fold_loc_set_data (fun _ => label) fst snd).
  - intros e He. apply in_rev, in_map_iff in He.
    destruct He as [cv [<- _]]. simpl. congruence.
Qed.

Lemma set_column_index (m : matrix) (label : string) (series : list num) :
  index (set_column m label series) = index m.
Proof.
  unfold set_column. cbn [index].
  now apply (fold_preserves _ index).
Qed.

Lemma set_column_columns (m : matrix) (label : string) (series : list num) :
  ~ In label (columns m) ->
  columns (set_column m label series) = (columns m ++ [label])%list.
Proof.
  intros Hl. unfold set_column. cbn [columns].
  rewrite (fold_preserves _ columns) by reflexivity.
  apply mem_false in Hl. now rewrite Hl.
Qed.

Lemma set_row_index (m : matrix) (label : string) (series : list num) :
  ~ In label (index m) ->
  index (set_row m label series) = (index m ++ [label])%list.
Proof.
  intros Hl. unfold set_row. cbn [index].
  rewrite (fold_preserves _ index) by reflexivity.
  apply mem_false in Hl. now rewrite Hl.
Qed.

Lemma set_row_columns (m : matrix) (label : string) (series : list num) :
  columns (set_row m label series) = columns m.
Proof.
  unfold set_row. cbn [columns].
  now apply (fold_preserves _ columns).
Qed.

End MatrixStore.

Section MatrixFlows.

Import Metrics Matrix Spec.
Open Scope Qc_scope.

Variable snapshot : Snapshot.
Variable metric : string.

Lemma fill_movements_index (m : matrix) :
  index (fill_movements snapshot metric m) = index m.
Proof.
  unfold fill_movements.
  rewrite (fold_preserves _ index) by reflexivity.
  apply (fold_preserves _ index). intros m' b. cbn [loc_set index].
  now apply (fold_preserves _ index).
Qed.

Lemma fill_movements_columns (m : matrix) :
  columns (fill_movements snapshot metric m) = columns m.
Proof.
  unfold fill_movements.
  rewrite (fold_preserves _ columns) by reflexivity.
  apply (fold_preserves _ columns). intros m' b. cbn [loc_set columns].
  now apply (fold_preserves _ columns).
Qed.

Lemma fill_movements_data (m : matrix) (e : string * string * num) :
  In e (data (fill_movements snapshot metric m))
  <-> In e (data m) \/ written snapshot metric e.
Proof.
  unfold fill_movements, written.
  rewrite (fold_loc_set_data (fun _ => "New"%string) (fun c => c)
                             (new snapshot metric)).
  rewrite in_app_iff, <- in_rev, in_map_iff.
  rewrite (In_data_fold
             (fun m base_seg =>
                loc_set
                  (fold_left
                     (fun m curr_seg =>
                        loc_set m base_seg curr_seg
                                (movement snapshot metric base_seg curr_seg))
                     (curr_segments snapshot) m)
                  base_seg "Lost" (lost snapshot metric base_seg))
             (fun b e =>
                (exists c, In c (curr_segments snapshot)
                           /\ e = (b, c, movement snapshot metric b c))
                \/ e = (b, "Lost"%string, lost snapshot metric b))).
  - split.
    + intros [[c [<- Hc]] | [H | [b [Hb [[c [Hc ->]] | ->]]]]]; eauto 10.
    + intros [H | [[b [c [Hb [Hc ->]]]] | [[b [Hb ->]] | [c [Hc ->]]]]];
        eauto 10.
  - intros m' b e'. cbn [loc_set data]. simpl In.
    rewrite (fold_loc_set_data (fun _ => b) (fun c => c)
                               (movement snapshot metric b)).
    rewrite in_app_iff, <- in_rev, in_map_iff. split.
    + intros [<- | [[c [<- Hc]] | H]]; eauto 10.
    + intros [H | [[c [Hc ->]] | ->]]; eauto 10.
Qed.

Ltac by_cases H :=
  destruct H as [[?b [?c [?Hb [?Hc ->]]]] | [[?b [?Hb ->]] | [?c [?Hc ->]]]];
  cbn [fst snd] in *;
  match goal with
  | Hk : (_, _) = (_, _) |- _ => injection Hk; intros; subst
  end;
  try reflexivity; try contradiction; try congruence.

(** Where the assignments of a matrix to a cell are those of the filling
    loops, the cell holds the flow of its labels. *)
Lemma flow_lookup (m : matrix) (r c : string) :
  ~ In "New"%string (base_segments snapshot) ->
  ~ In "Lost"%string (curr_segments snapshot) ->
  (forall e, written snapshot metric e -> In e (data m)) ->
  (forall e, In e (data m) -> fst e = (r, c) -> written snapshot metric e) ->
  loc m r c = flow snapshot metric r c.
Proof.
  intros Hnew Hlost Hin Hout. unfold flow.
  destruct (mem r (base_segments snapshot)) eqn:Er;
    [apply mem_In in Er | apply mem_false in Er].
  - destruct (mem c (curr_segments snapshot)) eqn:Ec;
      [apply mem_In in Ec | apply mem_false in Ec].
    + apply loc_determined.
      * exists (r, c, movement snapshot metric r c).
        split; [apply Hin; left; eauto | reflexivity].
      * intros e He Hk. pose proof (Hout e He Hk) as Hw. by_cases Hw.
    + destruct (String.eqb_spec c "Lost") as [-> | Hc].
      * apply loc_determined.
        -- exists (r, "Lost"%string, lost snapshot metric r).
           split; [apply Hin; right; left; eauto | reflexivity].
        -- intros e He Hk. pose proof (Hout e He Hk) as Hw. by_cases Hw.
      * apply loc_absent. intros e He Hk.
        pose proof (Hout e He Hk) as Hw. by_cases Hw.
  - destruct (String.eqb_spec r "New") as [-> | Hr].
    + destruct (mem c (curr_segments snapshot)) eqn:Ec;
        [apply mem_In in Ec | apply mem_false in Ec].
      * apply loc_determined.
        -- exists ("New"%string, c, new snapshot metric c).
           split; [apply Hin; right; right; eauto | reflexivity].
        -- intros e He Hk. pose proof (Hout e He Hk) as Hw. by_cases Hw.
      * apply loc_absent. intros e He Hk.
        pose proof (Hout e He Hk) as Hw. by_cases Hw.
    + apply loc_absent. intros e He Hk.
      pose proof (Hout e He Hk) as Hw. by_cases Hw.
Qed.

End MatrixFlows.

Section MatrixTotals.

Import Metrics Matrix Spec.
Open Scope Qc_scope.

Variable snapshot : Snapshot.
Variable metric : string.
Hypothesis Hfree : reserved_free snapshot.

Lemma generate_movement_matrix_stages :
  generate_movement_matrix snapshot metric
  = set_row (with_total_out snapshot metric) "Total In"
            (sum_axis0 (with_total_out snapshot metric)).
Proof. reflexivity. Qed.

Lemma filled_index :
  index (filled snapshot metric) = (base_segments snapshot ++ ["New"])%list.
Proof. unfold filled. now rewrite fill_movements_index. Qed.

Lemma filled_columns :
  columns (filled snapshot metric) = (curr_segments snapshot ++ ["Lost"])%list.
Proof. unfold filled. now rewrite fill_movements_columns. Qed.

Lemma filled_data (e : string * string * num) :
  In e (data (filled snapshot metric)) <-> written snapshot metric e.
Proof.
  unfold filled. rewrite fill_movements_data. cbn [data In]. tauto.
Qed.

Lemma filled_loc (r c : string) :
  loc (filled snapshot metric) r c = flow snapshot metric r c.
Proof.
  destruct Hfree as [Hnew [_ [Hlost _]]].
  apply flow_lookup; try assumption.
  - intros e. apply filled_data.
  - intros e He _. now apply filled_data.
Qed.

Lemma all_base_not_total_in (r : string) :
  In r (base_segments snapshot ++ ["New"])%list -> r <> "Total In"%string.
Proof.
  destruct Hfree as [_ [Hin _]].
  intros Hr ->. apply in_app_or in Hr.
  destruct Hr as [Hr | [Hr | []]]; [contradiction | discriminate].
Qed.

Lemma all_curr_not_total_out (c : string) :
  In c (curr_segments snapshot ++ ["Lost"])%list -> c <> "Total Out"%string.
Proof.
  destruct Hfree as [_ [_ [_ Hout]]].
  intros Hc ->. apply in_app_or in Hc.
  destruct Hc as [Hc | [Hc | []]]; [contradiction | discriminate].
Qed.

Lemma with_total_out_index :
  index (with_total_out snapshot metric)
  = (base_segments snapshot ++ ["New"])%list.
Proof. unfold with_total_out. now rewrite set_column_index, filled_index. Qed.

Lemma with_total_out_columns :
  columns (with_total_out snapshot metric)
  = ((curr_segments snapshot ++ ["Lost"]) ++ ["Total Out"])%list.
Proof.
  unfold with_total_out. rewrite set_column_columns, filled_columns;
    [reflexivity |].
  rewrite filled_columns. intros H. now apply all_curr_not_total_out in H.
Qed.

Lemma written_not_total_out (e : string * string * num) (r : string) :
  written snapshot metric e -> fst e <> (r, "Total Out"%string).
Proof.
  destruct Hfree as [_ [_ [_ Hout]]].
  intros [[b [c [Hb [Hc ->]]]] | [[b [Hb ->]] | [c [Hc ->]]]] Hk;
    cbn [fst] in Hk; injection Hk as ? ?; subst;
    try contradiction; discriminate.
Qed.

Lemma written_not_total_in (e : string * string * num) (c : string) :
  written snapshot metric e -> fst e <> ("Total In"%string, c).
Proof.
  destruct Hfree as [_ [Hin _]].
  intros [[b [c' [Hb [Hc ->]]]] | [[b [Hb ->]] | [c' [Hc ->]]]] Hk;
    cbn [fst] in Hk; injection Hk as ? ?; subst;
    try contradiction; discriminate.
Qed.

(** The flow cells of the result. *)
Lemma result_flow (r c : string) :
  In r (base_segments snapshot ++ ["New"])%list ->
  In c (curr_segments snapshot ++ ["Lost"])%list ->
  loc (generate_movement_matrix snapshot metric) r c = flow snapshot metric r c.
Proof.
  intros Hr Hc. rewrite generate_movement_matrix_stages.
  rewrite set_row_frame by now apply all_base_not_total_in.
  unfold with_total_out.
  rewrite set_column_frame by now apply all_curr_not_total_out.
  apply filled_loc.
Qed.

(** The column Total Out of the result holds the sums of the rows. *)
Lemma result_total_out (r : string) :
  In r (base_segments snapshot ++ ["New"])%list ->
  loc (generate_movement_matrix snapshot metric) r "Total Out"
  = sum (map (loc (generate_movement_matrix snapshot metric) r)
             (curr_segments snapshot ++ ["Lost"])%list).
Proof.
  intros Hr. rewrite generate_movement_matrix_stages at 1.
  rewrite set_row_frame by now apply all_base_not_total_in.
  transitivity (sum (map (loc (filled snapshot metric) r)
                         (columns (filled snapshot metric)))).
  - apply loc_determined.
    + exists (r, "Total Out"%string,
              sum (map (loc (filled snapshot metric) r)
                       (columns (filled snapshot metric)))).
      split; [| reflexivity].
      unfold with_total_out, sum_axis1. apply set_column_data. right.
      exists r. split; [now rewrite filled_index | reflexivity].
    + intros e He Hk. unfold with_total_out, sum_axis1 in He.
      apply set_column_data in He. destruct He as [He | [r' [_ ->]]].
      * apply filled_data in He. now apply written_not_total_out in Hk.
      * cbn [fst] in Hk. injection Hk as ->. reflexivity.
  - rewrite filled_columns. apply sum_map_ext. intros c Hc.
    rewrite filled_loc. symmetry. now apply result_flow.
Qed.

Lemma with_total_out_loc (r c : string) :
  In r (base_segments snapshot ++ ["New"])%list ->
  loc (generate_movement_matrix snapshot metric) r c
  = loc (with_total_out snapshot metric) r c.
Proof.
  intros Hr. rewrite generate_movement_matrix_stages.
  apply set_row_frame. now apply all_base_not_total_in.
Qed.

(** The row Total In of the result holds the sums of the columns, the
    column Total Out included. *)
Lemma result_total_in (c : string) :
  In c ((curr_segments snapshot ++ ["Lost"]) ++ ["Total Out"])%list ->
  loc (generate_movement_matrix snapshot metric) "Total In" c
  = sum (map (fun r => loc (generate_movement_matrix snapshot metric) r c)
             (base_segments snapshot ++ ["New"])%list).
Proof.
  intros Hc.
  transitivity (sum (map (fun r => loc (with_total_out snapshot metric) r c)
                         (index (with_total_out snapshot metric)))).
  - apply loc_determined.
    + exists ("Total In"%string, c,
              sum (map (fun r => loc (with_total_out snapshot metric) r c)
                       (index (with_total_out snapshot metric)))).
      split; [| reflexivity].
      rewrite generate_movement_matrix_stages. unfold sum_axis0.
      apply (set_row_data _ _
               (fun c => sum (map (fun r => loc (with_total_out snapshot metric) r c)
                                  (index (with_total_out snapshot metric))))).
      right. exists c. split; [now rewrite with_total_out_columns | reflexivity].
    + intros e He Hk. rewrite generate_movement_matrix_stages in He.
      unfold sum_axis0 in He.
      apply (set_row_data _ _
               (fun c => sum (map (fun r => loc (with_total_out snapshot metric) r c)
                                  (index (with_total_out snapshot metric))))) in He.
      destruct He as [He | [c' [_ ->]]].
      * unfold with_total_out, sum_axis1 in He.
        apply set_column_data in He. destruct He as [He | [r' [Hr' ->]]].
        -- apply filled_data in He. now apply written_not_total_in in Hk.
        -- cbn [fst] in Hk. injection Hk as -> _.
           rewrite filled_index in Hr'.
           now apply all_base_not_total_in in Hr'.
      * cbn [fst] in Hk. injection Hk as ->. reflexivity.
  - rewrite with_total_out_index. apply sum_map_ext. intros r Hr.
    symmetry. now apply with_total_out_loc.
Qed.

Lemma result_index :
  index (generate_movement_matrix snapshot metric)
  = ((base_segments snapshot ++ ["New"]) ++ ["Total In"])%list.
Proof.
  rewrite generate_movement_matrix_stages.
  rewrite set_row_index, with_total_out_index; [reflexivity |].
  rewrite with_total_out_index. intros H.
  now apply all_base_not_total_in in H.
Qed.

Lemma result_columns :
  columns (generate_movement_matrix snapshot metric)
  = ((curr_segments snapshot ++ ["Lost"]) ++ ["Total Out"])%list.
Proof.
  rewrite generate_movement_matrix_stages.
  now rewrite set_row_columns, with_total_out_columns.
Qed.

End MatrixTotals.

Section Counting.

Import Metrics Matrix Spec.

Lemma list_sum_map_add {A} (f g : A -> nat) (l : list A) :
  list_sum (map (fun x => f x + g x)%nat l)
  = (list_sum (map f l) + list_sum (map g l))%nat.
Proof.
  induction l as [| x l IH]; simpl; [reflexivity |]. rewrite IH. lia.
Qed.

Lemma list_sum_zero {A} (l : list A) : list_sum (map (fun _ => O) l) = O.
Proof. induction l; simpl; auto. Qed.

(** Among distinct codes exactly one is the code of the row. *)
Lemma indicator_sum (codes : list string) (y : string) (b : bool) :
  NoDup codes -> In y codes ->
  list_sum (map (fun x => if String.eqb y x && b then 1 else 0)%nat codes)
  = (if b then 1 else 0)%nat.
Proof.
  induction 1 as [| x codes Hx Hnd IH]; simpl; [contradiction |].
  intros [-> | Hin].
  - rewrite String.eqb_refl. simpl.
    assert (E : map (fun x => if String.eqb y x && b then 1 else 0)%nat codes
                = map (fun _ => O) codes).
    { apply map_ext_in. intros z Hz.
      destruct (String.eqb_spec y z) as [-> | _]; [contradiction | reflexivity]. }
    rewrite E, list_sum_zero. lia.
  - destruct (String.eqb_spec y x) as [-> | _]; [contradiction |].
    simpl. now apply IH.
Qed.

(** Counting the rows code by code counts the rows that have a code. *)
Lemma count_by_code (codes : list string) (f : SnapshotRow -> option string)
    (q : SnapshotRow -> bool) (l : list SnapshotRow) :
  NoDup codes ->
  (forall r x, In r l -> f r = Some x -> In x codes) ->
  list_sum (map (fun x => List.length (filter (fun r => eq_code (f r) x && q r) l))
                codes)
  = List.length (filter (fun r => notna (f r) && q r) l).
Proof.
  intros Hnd. induction l as [| r l IH]; intros Hcodes.
  - simpl. apply list_sum_zero.
  - assert (E : map (fun x => List.length
                                (filter (fun r => eq_code (f r) x && q r) (r :: l)))
                    codes
                = map (fun x => (if eq_code (f r) x && q r then 1 else 0)
                                + List.length
                                    (filter (fun r => eq_code (f r) x && q r) l))%nat
                      codes).
    { apply map_ext. intros x. simpl.
      destruct (eq_code (f r) x && q r); reflexivity. }
    rewrite E, list_sum_map_add, IH by (intros; eapply Hcodes; eauto; now right).
    simpl. unfold notna, eq_code.
    destruct (f r) as [y |] eqn:Ey; simpl.
    + rewrite indicator_sum; [| assumption | eapply Hcodes; eauto; now left].
      destruct (q r); reflexivity.
    + rewrite list_sum_zero. reflexivity.
Qed.

Lemma codes_cover (f : SnapshotRow -> option string) (l : list SnapshotRow)
    (r : SnapshotRow) (x : string) :
  In r l -> f r = Some x -> In x (sorted_codes (map f l)).
Proof.
  intros Hr Hx. apply In_sorted_codes. rewrite <- Hx. now apply in_map.
Qed.

Lemma count_ext (p q : SnapshotRow -> bool) (snapshot : Snapshot) :
  (forall r, p r = q r) -> count p snapshot = count q snapshot.
Proof. intros H. unfold count. now rewrite (filter_ext _ _ H). Qed.

Lemma movement_count (snapshot : Snapshot) (b c : string) :
  movement snapshot "count" b c
  = of_nat (count (fun r => eq_code (current_segment r) c
                            && eq_code (base_segment r) b) snapshot).
Proof.
  unfold movement. rewrite calculate_metric_select.
  unfold metric_value, count. simpl String.eqb. cbv iota.
  f_equal. f_equal. apply filter_ext. intros r. apply andb_comm.
Qed.

Lemma lost_count (snapshot : Snapshot) (b : string) :
  lost snapshot "count" b
  = of_nat (count (fun r => eq_code (base_segment r) b
                            && isna (current_segment r)) snapshot).
Proof. unfold lost. now rewrite calculate_metric_select. Qed.

Lemma new_count (snapshot : Snapshot) (c : string) :
  new snapshot "count" c
  = of_nat (count (fun r => eq_code (current_segment r) c
                            && isna (base_segment r)) snapshot).
Proof. unfold new. now rewrite calculate_metric_select. Qed.

(** The rows of a base segment: those that moved to a current segment
    and those lost. *)
Lemma base_row_count (snapshot : Snapshot) (b : string) :
  (list_sum (map (fun c => count (fun r => eq_code (current_segment r) c
                                           && eq_code (base_segment r) b)
                                 snapshot)
                 (curr_segments snapshot))
   + count (fun r => eq_code (base_segment r) b && isna (current_segment r))
           snapshot)%nat
  = count (fun r => eq_code (base_segment r) b && true) snapshot.
Proof.
  unfold count at 1. unfold curr_segments.
  rewrite (count_by_code _ current_segment
             (fun r => eq_code (base_segment r) b));
    [| apply NoDup_sorted_codes | intros r x; apply codes_cover].
  unfold count. rewrite <- length_filter_split.
  - f_equal. apply filter_ext. intros r. unfold notna.
    destruct (eq_code (base_segment r) b), (current_segment r); reflexivity.
  - intros r. unfold notna.
    destruct (eq_code (base_segment r) b), (current_segment r); reflexivity.
Qed.

(** All the flows together: every row with a segment, once. *)
Lemma flows_count (snapshot : Snapshot) :
  (list_sum
     (map (fun b =>
             list_sum (map (fun c => count (fun r => eq_code (current_segment r) c
                                                     && eq_code (base_segment r) b)
                                           snapshot)
                           (curr_segments snapshot))
             + count (fun r => eq_code (base_segment r) b
                               && isna (current_segment r)) snapshot)
          (base_segments snapshot))
   + list_sum (map (fun c => count (fun r => eq_code (current_segment r) c
                                             && isna (base_segment r)) snapshot)
                   (curr_segments snapshot)))%nat
  = count has_segment snapshot.
Proof.
  rewrite (map_ext _ _ (base_row_count snapshot)).
  unfold count, base_segments, curr_segments.
  rewrite (count_by_code _ base_segment (fun _ => true));
    [| apply NoDup_sorted_codes | intros r x; apply codes_cover].
  rewrite (count_by_code _ current_segment (fun r => isna (base_segment r)));
    [| apply NoDup_sorted_codes | intros r x; apply codes_cover].
  rewrite <- length_filter_split.
  - f_equal. apply filter_ext. intros r. unfold has_segment, notna.
    destruct (base_segment r), (current_segment r); reflexivity.
  - intros r. unfold notna.
    destruct (base_segment r), (current_segment r); reflexivity.
Qed.

End Counting.

Section MovementMatrix.

Import Metrics Matrix Spec.
Open Scope Qc_scope.

Lemma flow_row_base (snapshot : Snapshot) (metric r : string) :
  ~ In "Lost"%string (curr_segments snapshot) ->
  In r (base_segments snapshot) ->
  sum (map (flow snapshot metric r) (curr_segments snapshot ++ ["Lost"])%list)
  = sum (map (movement snapshot metric r) (curr_segments snapshot))
    + lost snapshot metric r.
Proof.
  intros Hlost Hr. rewrite map_app, sum_app. f_equal.
  - apply sum_map_ext. intros c Hc. unfold flow.
    apply mem_In in Hr. apply mem_In in Hc. now rewrite Hr, Hc.
  - cbn [map]. rewrite sum_cons, sum_nil. unfold flow.
    apply mem_In in Hr. apply mem_false in Hlost. rewrite Hr, Hlost.
    cbn. ring.
Qed.

Lemma flow_row_new (snapshot : Snapshot) (metric : string) :
  ~ In "New"%string (base_segments snapshot) ->
  ~ In "Lost"%string (curr_segments snapshot) ->
  sum (map (flow snapshot metric "New") (curr_segments snapshot ++ ["Lost"])%list)
  = sum (map (new snapshot metric) (curr_segments snapshot)).
Proof.
  intros Hnew Hlost. rewrite map_app, sum_app.
  apply mem_false in Hnew. apply mem_false in Hlost.
  replace (sum (map (flow snapshot metric "New") ["Lost"%string])) with 0.
  - rewrite Qcplus_0_r. apply sum_map_ext. intros c Hc. unfold flow.
    apply mem_In in Hc. rewrite Hnew, Hc. reflexivity.
  - cbn [map]. rewrite sum_cons, sum_nil. unfold flow.
    rewrite Hnew, Hlost. cbn. change (of_Z 0) with 0. ring.
Qed.

Lemma flow_total_count (snapshot : Snapshot) :
  reserved_free snapshot ->
  flow_total snapshot (generate_movement_matrix snapshot "count")
  = of_nat (count has_segment snapshot).
Proof.
  intros Hfree. pose proof Hfree as [Hnew [_ [Hlost _]]].
  unfold flow_total.
  rewrite (sum_map_ext _
             (fun r => sum (map (flow snapshot "count" r)
                                (curr_segments snapshot ++ ["Lost"])%list))).
  2:{ intros r Hr. apply sum_map_ext. intros c Hc. now apply result_flow. }
  rewrite map_app, sum_app. cbn [map]. rewrite sum_cons, sum_nil.
  rewrite flow_row_new by assumption.
  rewrite (sum_map_ext _
             (fun b => of_nat
                         (list_sum
                            (map (fun c => count (fun r => eq_code (current_segment r) c
                                                           && eq_code (base_segment r) b)
                                                 snapshot)
                                 (curr_segments snapshot))
                          + count (fun r => eq_code (base_segment r) b
                                            && isna (current_segment r))
                                  snapshot))).
  2:{ intros b Hb. rewrite flow_row_base by assumption.
      rewrite of_nat_add, <- sum_of_nat, lost_count. f_equal.
      apply sum_map_ext. intros c _. apply movement_count. }
  rewrite sum_of_nat.
  rewrite (sum_map_ext _
             (fun c => of_nat (count (fun r => eq_code (current_segment r) c
                                               && isna (base_segment r))
                                     snapshot)))
    by (intros c _; apply new_count).
  rewrite sum_of_nat, Qcplus_0_r, <- of_nat_add.
  f_equal. apply flows_count.
Qed.

(** C5, as amended.  When no segment code is one of the labels that the
    matrix reserves, the flow cells of the movement matrix for the metric
    ['count'] add up to the number of rows of the snapshot that have a
    segment in at least one period, which is the number of rows when
    every row has one; the result has the row Total In and the column
    Total Out appended; the column Total Out holds the sum of each row
    over the flow columns, and the row Total In the sum of each column,
    Total Out included, over the flow rows. *)
Theorem movement_matrix_flows_and_totals :
  forall snapshot,
    reserved_free snapshot ->
    let m := generate_movement_matrix snapshot "count" in
    let all_base := (base_segments snapshot ++ ["New"])%list in
    let all_curr := (curr_segments snapshot ++ ["Lost"])%list in
    flow_total snapshot m = of_nat (count has_segment snapshot)
    /\ ((forall r, In r (df_rows snapshot) -> has_segment r = true) ->
        flow_total snapshot m = of_nat (List.length (df_rows snapshot)))
    /\ index m = (all_base ++ ["Total In"])%list
    /\ columns m = (all_curr ++ ["Total Out"])%list
    /\ (forall r, In r all_base ->
                  loc m r "Total Out" = sum (map (loc m r) all_curr))
    /\ (forall c, In c (all_curr ++ ["Total Out"])%list ->
                  loc m "Total In" c = sum (map (fun r => loc m r c) all_base)).
Proof.
  intros snapshot Hfree m all_base all_curr. subst m all_base all_curr.
  split; [now apply flow_total_count |].
  split.
  { intros Hall. rewrite flow_total_count by assumption.
    unfold count. f_equal. f_equal.
    induction (df_rows snapshot) as [| r l IH]; [reflexivity |].
    simpl. rewrite (Hall r) by now left.
    f_equal. apply IH. intros x Hx. apply Hall. now right. }
  split; [now apply result_index |].
  split; [now apply result_columns |].
  split.
  - intros r Hr. now apply result_total_out.
  - intros c Hc. now apply result_total_in.
Qed.

Lemma example_reserved_free : reserved_free Examples.snapshot.
Proof.
  repeat split; vm_compute; intros H;
    repeat (destruct H as [H | H]; [discriminate H |]); exact H.
Qed.

Lemma movement_matrix_flows_and_totals_witness :
  let m := generate_movement_matrix Examples.snapshot "count" in
  let all_base := (base_segments Examples.snapshot ++ ["New"])%list in
  let all_curr := (curr_segments Examples.snapshot ++ ["Lost"])%list in
  flow_total Examples.snapshot m = of_nat (count has_segment Examples.snapshot)
  /\ ((forall r, In r (df_rows Examples.snapshot) -> has_segment r = true) ->
      flow_total Examples.snapshot m
      = of_nat (List.length (df_rows Examples.snapshot)))
  /\ index m = (all_base ++ ["Total In"])%list
  /\ columns m = (all_curr ++ ["Total Out"])%list
  /\ (forall r, In r all_base ->
                loc m r "Total Out" = sum (map (loc m r) all_curr))
  /\ (forall c, In c (all_curr ++ ["Total Out"])%list ->
                loc m "Total In" c = sum (map (fun r => loc m r c) all_base)).
Proof.
  apply (movement_matrix_flows_and_totals Examples.snapshot).
  apply example_reserved_free.
Defined.

(** A row whose two segments are null is in no cell of the matrix: the
    snapshot built from a base file with a null segment code has three
    rows, and the flow cells add up to two. *)
Lemma movement_matrix_misses_row_without_segment :
  reserved_free Examples.snapshot_null
  /\ flow_total Examples.snapshot_null
                (generate_movement_matrix Examples.snapshot_null "count")
     <> of_nat (List.length (df_rows Examples.snapshot_null)).
Proof.
  split.
  - repeat split; vm_compute; intros H;
      repeat (destruct H as [H | H]; [discriminate H |]); exact H.
  - intros H. apply (f_equal this) in H. vm_compute in H. discriminate H.
Qed.

(** Why the reserved labels are set apart: with a base segment called
    New the index carries that label twice, the assignments of the New
    row overwrite those of the segment, and the one row of the snapshot
    is counted in no flow cell. *)
Remark movement_matrix_with_segment_called_New :
  flow_total Examples.new_named_snapshot
             (generate_movement_matrix Examples.new_named_snapshot "count")
  = of_nat 0.
Proof. apply Qc_is_canon. vm_compute. reflexivity. Qed.

End MovementMatrix.

(* ===================================================================== *)
(** * Part III: further properties of the sources *)
(* ===================================================================== *)

(** ** The shape of the trailing window *)

Section WindowShape.

Import Dates Spec.

(** The month appended at a step is in the form YYYYMM, and it lies as
    many months before the target as the step says. *)
Lemma month_at_decode (month i : Z) :
  0 <= i -> 1 <= month mod 100 <= 12 ->
  exists m y,
    month_at month i = y * 100 + m
    /\ 1 <= m <= 12
    /\ m + 12 * y = month mod 100 - i + 12 * (month / 100).
Proof.
  intros Hi Hm. unfold month_at.
  pose proof (wrap_month_spec (month mod 100 - i) (month / 100)) as [H1 H2].
  destruct (wrap_month (month mod 100 - i) (month / 100)) as [m y].
  cbn [fst snd] in *. exists m, y.
  split; [reflexivity |]. split; [apply H2; lia | lia].
Qed.

Lemma month_at_valid (month i : Z) :
  0 <= i -> 1 <= month mod 100 <= 12 ->
  1 <= month_at month i mod 100 <= 12.
Proof.
  intros Hi Hm.
  destruct (month_at_decode month i Hi Hm) as [m [y [-> [Hr _]]]].
  replace ((y * 100 + m) mod 100) with m; [exact Hr |].
  apply (Z.mod_unique _ _ y m); lia.
Qed.

(** A later step gives an earlier month. *)
Lemma month_at_decreasing (month i j : Z) :
  1 <= month mod 100 <= 12 -> 0 <= i < j ->
  month_at month j < month_at month i.
Proof.
  intros Hm Hij.
  destruct (month_at_decode month i ltac:(lia) Hm) as [m1 [y1 [-> [R1 E1]]]].
  destruct (month_at_decode month j ltac:(lia) Hm) as [m2 [y2 [-> [R2 E2]]]].
  lia.
Qed.

Lemma steps_descending (month : Z) (n k : nat) :
  1 <= month mod 100 <= 12 ->
  StronglySorted (fun a b => b < a)
                 (map (month_at month) (map Z.of_nat (seq k n))).
Proof.
  intros Hm. revert k. induction n as [| n IH]; intros k; simpl.
  - constructor.
  - constructor; [apply IH |].
    apply Forall_forall. intros x Hx.
    apply in_map_iff in Hx. destruct Hx as [z [<- Hz]].
    apply in_map_iff in Hz. destruct Hz as [j [<- Hj]].
    apply in_seq in Hj. apply month_at_decreasing; [assumption | lia].
Qed.

Lemma insert_last (x : Z) (l : list Z) :
  Forall (fun y => y < x) l -> insert Z.leb x l = (l ++ [x])%list.
Proof.
  induction 1 as [| y l Hy HF IH]; simpl; [reflexivity |].
  destruct (Z.leb_spec x y); [lia |]. now rewrite IH.
Qed.

(** Sorting a list that is in strictly descending order reverses it. *)
Lemma sorted_of_descending (l : list Z) :
  StronglySorted (fun a b => b < a) l -> sorted Z.leb l = rev l.
Proof.
  induction 1 as [| x l Hs IH Hx]; simpl; [reflexivity |].
  rewrite IH. apply insert_last. now apply Forall_rev.
Qed.

(** X1.  For a target month in the form YYYYMM, [get_ttm_months] returns
    the months of the loop in reverse: as many months as the window asks
    for (none for a window of zero or less), in strictly ascending
    order, hence without repetition, each in the form YYYYMM and none
    after the target, and for a window of at least one month the last of
    them is the target month itself. *)
Theorem ttm_months_shape :
  forall month window : Z,
    1 <= month mod 100 <= 12 ->
    get_ttm_months month window
    = rev (map (month_at month) (range window))
    /\ List.length (get_ttm_months month window) = Z.to_nat window
    /\ StronglySorted Z.lt (get_ttm_months month window)
    /\ (forall m, In m (get_ttm_months month window) ->
                  1 <= m mod 100 <= 12 /\ m <= month)
    /\ (1 <= window ->
        exists earlier, get_ttm_months month window = (earlier ++ [month])%list).
Proof.
  intros month window Hm.
  assert (E : get_ttm_months month window
              = rev (map (month_at month) (range window))).
  { unfold get_ttm_months, range.
    change (fun i : Z =>
              let '(m, y) := wrap_month (month mod 100 - i) (month / 100) in
              y * 100 + m) with (month_at month).
    apply sorted_of_descending. now apply steps_descending. }
  split; [exact E |]. rewrite E. split.
  { unfold range. now rewrite length_rev, !length_map, length_seq. }
  split.
  { apply (StronglySorted_rev (fun a b => b < a)).
    unfold range. now apply steps_descending. }
  split.
  { intros m Hin. apply in_rev, in_map_iff in Hin.
    destruct Hin as [i [<- Hi]]. unfold range in Hi.
    apply in_map_iff in Hi. destruct Hi as [k [<- Hk]].
    split; [apply month_at_valid; [lia | assumption] |].
    destruct k as [| k].
    - simpl Z.of_nat. rewrite month_at_0 by assumption. lia.
    - pose proof (month_at_decreasing month 0 (Z.of_nat (S k)) Hm ltac:(lia)).
      rewrite month_at_0 in H by assumption. lia. }
  intros Hw. unfold range.
  replace (Z.to_nat window) with (S (Z.to_nat (window - 1))) by lia.
  rewrite <- cons_seq, !map_cons. cbn [rev].
  simpl Z.of_nat. rewrite month_at_0 by assumption. eauto.
Qed.

Lemma ttm_months_shape_witness :
  get_ttm_months 202408 12 = rev (map (month_at 202408) (range 12))
  /\ List.length (get_ttm_months 202408 12) = Z.to_nat 12
  /\ StronglySorted Z.lt (get_ttm_months 202408 12)
  /\ (forall m, In m (get_ttm_months 202408 12) ->
                1 <= m mod 100 <= 12 /\ m <= 202408)
  /\ (1 <= 12 ->
      exists earlier, get_ttm_months 202408 12 = (earlier ++ [202408])%list).
Proof.
  apply (ttm_months_shape 202408 12). split; vm_compute; discriminate.
Defined.

End WindowShape.

(** ** The cache *)

Section CacheBehaviour.

Import Settings Caching Processor Notions.

Lemma cache_independent_lift {A} (r : result A) : cache_independent (lift r).
Proof. exists r. reflexivity. Qed.

Lemma cache_independent_bind {A B} (m : M A) (k : A -> M B) :
  cache_independent m -> (forall a, cache_independent (k a)) ->
  cache_independent (Caching.bind m k).
Proof.
  intros [[a | e] Hr] Hk.
  - destruct (Hk a) as [r' Hr']. exists r'. intros c.
    unfold Caching.bind. rewrite Hr. apply Hr'.
  - exists (Raise e). intros c. unfold Caching.bind. now rewrite Hr.
Qed.

Lemma cache_independent_ext {A} (m m' : M A) :
  (forall c, m c = m' c) -> cache_independent m' -> cache_independent m.
Proof.
  intros E [r Hr]. exists r. intros c. rewrite E. apply Hr.
Qed.

Lemma ttm_metrics_uncached (cfg : settings) (metrics_glbl : MetricsTable)
    (month : Z) :
  ENABLE_CACHING cfg = false ->
  cache_independent (calculate_ttm_metrics cfg metrics_glbl month).
Proof.
  intros Hoff. unfold cache_independent.
  destruct (Dates.get_ttm_months month (TTM_MONTHS cfg)) as [| m0 ms] eqn:E.
  { exists (Raise (ValueError EmptySequence)). intros c.
    unfold calculate_ttm_metrics, load_from_cache.
    rewrite Hoff, E. reflexivity. }
  destruct (getitem metrics_glbl METRICS_COLS_month) as [rows | e] eqn:E1.
  2:{ exists (Raise e). intros c.
      unfold calculate_ttm_metrics, load_from_cache.
      rewrite Hoff, E, E1. reflexivity. }
  destruct (getitem metrics_glbl METRICS_COLS_entity) as [rows' | e] eqn:E2.
  2:{ exists (Raise e). intros c.
      unfold calculate_ttm_metrics, load_from_cache.
      rewrite Hoff, E, E1, E2. reflexivity. }
  eexists. intros c.
  unfold calculate_ttm_metrics, load_from_cache, save_to_cache.
  rewrite Hoff, E, E1, E2. cbn [negb]. destruct c. reflexivity.
Qed.

Lemma create_snapshot_uncached (cfg : settings) (base_seg curr_seg : SegTable)
    (metrics_glbl : MetricsTable) :
  ENABLE_CACHING cfg = false ->
  cache_independent (create_snapshot cfg base_seg curr_seg metrics_glbl).
Proof.
  intros Hoff. unfold create_snapshot.
  do 4 (apply cache_independent_bind;
        [apply cache_independent_lift | intros ?]).
  eapply cache_independent_ext.
  { intros c. unfold load_from_cache. rewrite Hoff. cbn [negb].
    reflexivity. }
  do 2 (apply cache_independent_bind;
        [apply cache_independent_lift | intros ?]).
  cbv zeta.
  do 2 (apply cache_independent_bind;
        [now apply ttm_metrics_uncached | intros ?]).
  do 2 (apply cache_independent_bind;
        [apply cache_independent_lift | intros ?]).
  eexists. intros c. unfold save_to_cache. rewrite Hoff. cbn [negb].
  destruct c. reflexivity.
Qed.

(** X2.  With caching disabled neither [calculate_ttm_metrics] nor
    [create_snapshot] reads or writes the cache: each returns a result
    that is the same from every cache, and leaves the cache as it found
    it. *)
Theorem caching_disabled_bypasses_cache :
  forall cfg,
    ENABLE_CACHING cfg = false ->
    (forall metrics_glbl month,
        cache_independent (calculate_ttm_metrics cfg metrics_glbl month))
    /\ (forall base_seg curr_seg metrics_glbl,
           cache_independent
             (create_snapshot cfg base_seg curr_seg metrics_glbl)).
Proof.
  intros cfg Hoff. split; intros.
  - now apply ttm_metrics_uncached.
  - now apply create_snapshot_uncached.
Qed.

Lemma caching_disabled_bypasses_cache_witness :
  (forall metrics_glbl month,
      cache_independent
        (calculate_ttm_metrics (mkSettings 12 false) metrics_glbl month))
  /\ (forall base_seg curr_seg metrics_glbl,
         cache_independent
           (create_snapshot (mkSettings 12 false) base_seg curr_seg
                            metrics_glbl)).
Proof.
  apply (caching_disabled_bypasses_cache (mkSettings 12 false)). reflexivity.
Defined.

Lemma first_month_Ok (df : SegTable) (month : Z) :
  first_month df = Ok month ->
  exists rows, getitem df SEGMENT_COLS_month = Ok rows
               /\ iloc0 (map seg_month rows) = Ok month.
Proof. unfold first_month. apply bind_Ok_inv. Qed.

(** A snapshot in the cache is returned as it is. *)
Lemma create_snapshot_hit (cfg : settings) (base_seg curr_seg : SegTable)
    (metrics_glbl : MetricsTable) (c : cache) (base_month current_month : Z)
    (cached : Snapshot) :
  first_month base_seg = Ok base_month ->
  first_month curr_seg = Ok current_month ->
  load_from_cache cfg (snapshots c) (snapshot_id base_month current_month)
  = Some cached ->
  create_snapshot cfg base_seg curr_seg metrics_glbl c = (Ok cached, c).
Proof.
  intros Hb Hc Hload.
  apply first_month_Ok in Hb. destruct Hb as [brows [Hb1 Hb2]].
  apply first_month_Ok in Hc. destruct Hc as [crows [Hc1 Hc2]].
  unfold create_snapshot, Caching.bind, lift.
  rewrite Hb1, Hb2, Hc1, Hc2.
  unfold snapshot_id in Hload. now rewrite Hload.
Qed.

(** After a successful build the snapshot is in the cache under the
    identifier of its two months. *)
Lemma create_snapshot_cached (cfg : settings) (base_seg curr_seg : SegTable)
    (metrics_glbl : MetricsTable) (c c' : cache) (snapshot : Snapshot) :
  ENABLE_CACHING cfg = true ->
  create_snapshot cfg base_seg curr_seg metrics_glbl c = (Ok snapshot, c') ->
  exists base_month current_month,
    first_month base_seg = Ok base_month
    /\ first_month curr_seg = Ok current_month
    /\ load_from_cache cfg (snapshots c')
                       (snapshot_id base_month current_month)
       = Some snapshot.
Proof.
  intros Hon H. unfold create_snapshot, Caching.bind, lift in H.
  unfold first_month.
  destruct (getitem base_seg SEGMENT_COLS_month) as [brows |];
    [| discriminate].
  cbn [Py.bind].
  destruct (iloc0 (map seg_month brows)) as [base_month |]; [| discriminate].
  destruct (getitem curr_seg SEGMENT_COLS_month) as [crows |];
    [| discriminate].
  cbn [Py.bind].
  destruct (iloc0 (map seg_month crows)) as [current_month |];
    [| discriminate].
  exists base_month, current_month. do 2 (split; [reflexivity |]).
  fold (snapshot_id base_month current_month) in H.
  destruct (load_from_cache cfg (snapshots c)
                            (snapshot_id base_month current_month))
    as [cached |] eqn:Eload.
  { injection H as <- <-. exact Eload. }
  destruct (getitems base_seg _) as [base |]; [| discriminate].
  destruct (getitems curr_seg _) as [curr |]; [| discriminate].
  destruct (calculate_ttm_metrics cfg metrics_glbl base_month c)
    as [[base_metrics |] c1]; [| discriminate].
  destruct (calculate_ttm_metrics cfg metrics_glbl current_month c1)
    as [[curr_metrics |] c2]; [| discriminate].
  match type of H with
  | context [merge_left ?s ?m] =>
      destruct (merge_left s m) as [s1 |]; [| discriminate]
  end.
  match type of H with
  | context [merge_left s1 ?m] =>
      destruct (merge_left s1 m) as [s2 |]; [| discriminate]
  end.
  injection H as <- <-.
  unfold load_from_cache, save_to_cache. rewrite Hon.
  cbn [negb snapshots lookup]. now rewrite String.eqb_refl.
Qed.

Lemma ttm_metrics_hit (cfg : settings) (metrics_glbl : MetricsTable)
    (month : Z) (c : cache) (cached : TtmFrame) :
  load_from_cache cfg (metrics c) (ttm_id month) = Some cached ->
  calculate_ttm_metrics cfg metrics_glbl month c = (Ok cached, c).
Proof.
  intros Hload. unfold calculate_ttm_metrics.
  unfold ttm_id in Hload. now rewrite Hload.
Qed.

Lemma ttm_metrics_cached (cfg : settings) (metrics_glbl : MetricsTable)
    (month : Z) (c c' : cache) (frame : TtmFrame) :
  ENABLE_CACHING cfg = true ->
  calculate_ttm_metrics cfg metrics_glbl month c = (Ok frame, c') ->
  load_from_cache cfg (metrics c') (ttm_id month) = Some frame.
Proof.
  intros Hon H. unfold calculate_ttm_metrics in H.
  fold (ttm_id month) in H.
  destruct (load_from_cache cfg (metrics c) (ttm_id month))
    as [cached |] eqn:Eload.
  { injection H as <- <-. exact Eload. }
  destruct (Dates.get_ttm_months month (TTM_MONTHS cfg)); [discriminate |].
  destruct (getitem metrics_glbl METRICS_COLS_month); [| discriminate].
  destruct (getitem metrics_glbl METRICS_COLS_entity); [| discriminate].
  injection H as <- <-.
  unfold load_from_cache, save_to_cache. rewrite Hon.
  cbn [negb metrics lookup]. now rewrite String.eqb_refl.
Qed.

(** X3.  With caching enabled the two builders are memoized.  Once
    [calculate_ttm_metrics] has returned a frame for a month, a call for
    that month returns the same frame and leaves the cache alone,
    whatever metrics table it is given; once [create_snapshot] has
    returned a snapshot, a call with segment files of the same first
    months returns the same snapshot and leaves the cache alone,
    whatever else the three tables contain. *)
Theorem builders_are_memoized :
  forall cfg,
    ENABLE_CACHING cfg = true ->
    (forall metrics_glbl month c frame c',
        calculate_ttm_metrics cfg metrics_glbl month c = (Ok frame, c') ->
        forall metrics_glbl',
          calculate_ttm_metrics cfg metrics_glbl' month c' = (Ok frame, c'))
    /\ (forall base_seg curr_seg metrics_glbl c snapshot c',
           create_snapshot cfg base_seg curr_seg metrics_glbl c
           = (Ok snapshot, c') ->
           forall base_seg' curr_seg' metrics_glbl',
             first_month base_seg' = first_month base_seg ->
             first_month curr_seg' = first_month curr_seg ->
             create_snapshot cfg base_seg' curr_seg' metrics_glbl' c'
             = (Ok snapshot, c')).
Proof.
  intros cfg Hon. split.
  - intros metrics_glbl month c frame c' H metrics_glbl'.
    apply ttm_metrics_hit. now apply (ttm_metrics_cached _ _ _ _ _ _ Hon H).
  - intros base_seg curr_seg metrics_glbl c snapshot c' H
           base_seg' curr_seg' metrics_glbl' Eb Ec.
    destruct (create_snapshot_cached _ _ _ _ _ _ _ Hon H)
      as [bm [cm [Hb [Hc Hload]]]].
    apply (create_snapshot_hit _ _ _ _ _ bm cm); congruence.
Qed.

Lemma builders_are_memoized_witness :
  calculate_ttm_metrics Settings.default
    (mkDataFrame [] []) 202406 (snd Examples.built)
  = (fst (calculate_ttm_metrics Settings.default Examples.metrics_glbl 202406
                                Caching.empty),
     snd Examples.built)
  /\ create_snapshot Settings.default Examples.base_seg_without_segment
                     Examples.curr_seg (mkDataFrame [] []) (snd Examples.built)
     = (Ok Examples.snapshot, snd Examples.built).
Proof.
  pose proof (builders_are_memoized Settings.default eq_refl) as [Httm Hsnap].
  split.
  - apply (Httm Examples.metrics_glbl 202406 (snd Examples.built)).
    vm_compute. reflexivity.
  - apply (Hsnap Examples.base_seg Examples.curr_seg Examples.metrics_glbl
                 Caching.empty).
    + vm_compute. reflexivity.
    + reflexivity.
    + reflexivity.
Defined.

End CacheBehaviour.

(** ** The aggregation over the trailing window *)

Section WindowTotals.

Import Settings Caching Processor MetricsValidator Notions.

Lemma ttm_months_length (month window : Z) :
  List.length (Dates.get_ttm_months month window) = Z.to_nat window.
Proof.
  unfold Dates.get_ttm_months.
  rewrite <- (Permutation_length (sorted_Permutation _ _)).
  unfold range. now rewrite !length_map, length_seq.
Qed.

Lemma ttm_months_nil (month window : Z) :
  Dates.get_ttm_months month window = [] <-> window <= 0.
Proof.
  pose proof (ttm_months_length month window) as H.
  destruct (Dates.get_ttm_months month window); simpl in H; split; intros;
    try reflexivity; try discriminate; lia.
Qed.

(** What the aggregation does when the frame of the month is not in the
    cache. *)
Lemma ttm_metrics_miss (cfg : settings) (metrics_glbl : MetricsTable)
    (month : Z) (c : cache) :
  load_from_cache cfg (metrics c) (ttm_id month) = None ->
  calculate_ttm_metrics cfg metrics_glbl month c
  = if TTM_MONTHS cfg <=? 0 then (Raise (ValueError EmptySequence), c)
    else if negb (mem METRICS_COLS_month (df_columns metrics_glbl))
    then (Raise (KeyError [METRICS_COLS_month]), c)
    else if negb (mem METRICS_COLS_entity (df_columns metrics_glbl))
    then (Raise (KeyError [METRICS_COLS_entity]), c)
    else
      let frame :=
        {| df_columns := METRICS_COLS_entity
                         :: detect_metric_columns metrics_glbl;
           df_rows := groupby_sum (detect_metric_columns metrics_glbl)
                        (filter (in_window cfg month)
                                (df_rows metrics_glbl)) |} in
      (Ok frame,
       {| snapshots := snapshots c;
          metrics := save_to_cache cfg frame (metrics c) (ttm_id month) |}).
Proof.
  intros Hmiss. unfold calculate_ttm_metrics.
  fold (ttm_id month). rewrite Hmiss.
  destruct (Z.leb_spec (TTM_MONTHS cfg) 0) as [Hw | Hw].
  { apply (ttm_months_nil month) in Hw. now rewrite Hw. }
  destruct (Dates.get_ttm_months month (TTM_MONTHS cfg)) as [| m0 ms] eqn:E.
  { apply ttm_months_nil in E. lia. }
  unfold getitem.
  destruct (mem METRICS_COLS_month (df_columns metrics_glbl));
    [| reflexivity].
  destruct (mem METRICS_COLS_entity (df_columns metrics_glbl));
    [| reflexivity].
  cbn [negb]. unfold in_window. rewrite E. reflexivity.
Qed.

(** X4.  When the frame of the month is not in the cache,
    [calculate_ttm_metrics] raises [ValueError] (the minimum of an empty
    list of months) for a window of zero months or less, before it looks
    at the table; for a window of at least one month it returns a frame
    when [validate_metrics_data] accepts the table and the table has a
    metric column, and raises, when the validator rejects the table, a
    [KeyError] that names one of the two required columns, one that the
    table lacks; an error leaves the cache as it was. *)
Theorem ttm_metrics_outcome :
  forall cfg metrics_glbl month c,
    load_from_cache cfg (metrics c) (ttm_id month) = None ->
    (TTM_MONTHS cfg <= 0 ->
     calculate_ttm_metrics cfg metrics_glbl month c
     = (Raise (ValueError EmptySequence), c))
    /\ (1 <= TTM_MONTHS cfg ->
        validate_metrics_data metrics_glbl = Ok true ->
        detect_metric_columns metrics_glbl <> [] ->
        exists frame c',
          calculate_ttm_metrics cfg metrics_glbl month c = (Ok frame, c'))
    /\ (1 <= TTM_MONTHS cfg ->
        validate_metrics_data metrics_glbl <> Ok true ->
        exists label,
          In label [METRICS_COLS_entity; METRICS_COLS_month]
          /\ ~ In label (df_columns metrics_glbl)
          /\ calculate_ttm_metrics cfg metrics_glbl month c
             = (Raise (KeyError [label]), c)).
Proof.
  intros cfg metrics_glbl month c Hmiss.
  rewrite (ttm_metrics_miss _ _ _ _ Hmiss).
  unfold validate_metrics_data. cbn [filter].
  split; [| split].
  - intros Hw. apply Z.leb_le in Hw. now rewrite Hw.
  - intros Hw Hv _. rewrite (proj2 (Z.leb_gt _ _)) by lia.
    destruct (mem METRICS_COLS_entity (df_columns metrics_glbl));
      destruct (mem METRICS_COLS_month (df_columns metrics_glbl));
      cbn [negb] in *; try discriminate Hv.
    eauto.
  - intros Hw Hv. rewrite (proj2 (Z.leb_gt _ _)) by lia.
    destruct (mem METRICS_COLS_month (df_columns metrics_glbl)) eqn:Em.
    + destruct (mem METRICS_COLS_entity (df_columns metrics_glbl)) eqn:Ee.
      * exfalso. apply Hv. reflexivity.
      * exists METRICS_COLS_entity. cbn [negb].
        split; [now left |]. split; [now apply mem_false | reflexivity].
    + exists METRICS_COLS_month. cbn [negb].
      split; [right; now left |].
      split; [now apply mem_false | reflexivity].
Qed.

Lemma ttm_metrics_outcome_witness :
  exists frame c',
    calculate_ttm_metrics Settings.default Examples.metrics_glbl 202406
                          Caching.empty
    = (Ok frame, c').
Proof.
  apply (ttm_metrics_outcome Settings.default Examples.metrics_glbl 202406
                             Caching.empty).
  - reflexivity.
  - vm_compute. discriminate.
  - reflexivity.
  - vm_compute. discriminate.
Defined.



Lemma sum_dropna {A} (g : A -> option num) (l : list A) :
  sum (dropna (map g l))
  = sum (map (fun x => match g x with Some v => v | None => of_Z 0 end) l).
Proof.
  induction l as [| x l IH]; [reflexivity |].
  cbn [map dropna]. destruct (g x) as [v |].
  - now rewrite !sum_cons, IH.
  - rewrite sum_cons, IH. change (of_Z 0) with 0%Qc. ring.
Qed.






End WindowTotals.

(** ** The content of a snapshot *)

Section SnapshotContent.

Import Settings Caching Processor MetricsValidator Spec Notions.

Lemma str_inj (z z' : Z) : str z = str z' -> z = z'.
Proof.
  unfold str. intros H. apply DecimalZ.to_int_inj.
  assert (N : forall z, Z.to_int z <> Decimal.Pos Decimal.Nil
                        /\ Z.to_int z <> Decimal.Neg Decimal.Nil).
  { intros [| p | p]; simpl; split; try discriminate; intros E;
      injection E as E; now apply DecimalPos.Unsigned.to_uint_nonnil in E. }
  apply (f_equal NilZero.int_of_string) in H.
  rewrite !NilZero.isi in H by apply N. now injection H.
Qed.

Lemma append_inj (p a b : string) : (p ++ a = p ++ b)%string -> a = b.
Proof.
  induction p as [| ch p IH]; simpl; intros H; [exact H |].
  injection H as H. now apply IH.
Qed.

Lemma ttm_id_inj (month month' : Z) :
  ttm_id month = ttm_id month' -> month = month'.
Proof.
  unfold ttm_id. intros H. apply append_inj in H. now apply str_inj.
Qed.

Lemma validated_columns (metrics_glbl : MetricsTable) :
  validate_metrics_data metrics_glbl = Ok true ->
  mem METRICS_COLS_entity (df_columns metrics_glbl) = true
  /\ mem METRICS_COLS_month (df_columns metrics_glbl) = true.
Proof.
  unfold validate_metrics_data. cbn [filter].
  destruct (mem METRICS_COLS_entity (df_columns metrics_glbl));
    destruct (mem METRICS_COLS_month (df_columns metrics_glbl));
    cbn [negb]; intros H; try discriminate H; auto.
Qed.

Lemma ttm_metrics_computed (cfg : settings) (metrics_glbl : MetricsTable)
    (month : Z) (c : cache) :
  1 <= TTM_MONTHS cfg ->
  validate_metrics_data metrics_glbl = Ok true ->
  load_from_cache cfg (metrics c) (ttm_id month) = None ->
  calculate_ttm_metrics cfg metrics_glbl month c
  = (Ok (ttm_frame cfg metrics_glbl month),
     {| snapshots := snapshots c;
        metrics := save_to_cache cfg (ttm_frame cfg metrics_glbl month)
                                 (metrics c) (ttm_id month) |}).
Proof.
  intros Hw Hv Hmiss. rewrite (ttm_metrics_miss _ _ _ _ Hmiss).
  destruct (validated_columns _ Hv) as [He Hm].
  rewrite (proj2 (Z.leb_gt _ _)) by lia. rewrite He, Hm. reflexivity.
Qed.

(** The two aggregations of a build, from a cache without frames. *)
Lemma ttm_metrics_twice (cfg : settings) (metrics_glbl : MetricsTable)
    (base_month current_month : Z) (c : cache) :
  1 <= TTM_MONTHS cfg ->
  validate_metrics_data metrics_glbl = Ok true ->
  (forall id, load_from_cache cfg (metrics c) id = None) ->
  exists c1 c2,
    calculate_ttm_metrics cfg metrics_glbl base_month c
    = (Ok (ttm_frame cfg metrics_glbl base_month), c1)
    /\ calculate_ttm_metrics cfg metrics_glbl current_month c1
       = (Ok (ttm_frame cfg metrics_glbl current_month), c2).
Proof.
  intros Hw Hv Hmiss.
  eexists. rewrite (ttm_metrics_computed _ _ _ _ Hw Hv (Hmiss _)).
  match goal with
  | |- exists c2, (_, ?c1) = _ /\ _ =>
      destruct (load_from_cache cfg (metrics c1) (ttm_id current_month))
        as [cached |] eqn:Eload
  end.
  - exists {| snapshots := snapshots c;
              metrics := save_to_cache cfg
                           (ttm_frame cfg metrics_glbl base_month)
                           (metrics c) (ttm_id base_month) |}.
    split; [reflexivity |].
    rewrite (ttm_metrics_hit _ _ _ _ _ Eload). do 2 f_equal.
    pose proof (Hmiss (ttm_id current_month)) as Hm.
    unfold load_from_cache, save_to_cache in *. cbn [metrics] in Eload.
    destruct (ENABLE_CACHING cfg); cbn [negb] in *; [| discriminate Eload].
    cbn [lookup] in Eload.
    destruct (String.eqb_spec (ttm_id current_month) (ttm_id base_month))
      as [E | E].
    + injection Eload as <-. apply ttm_id_inj in E. now rewrite E.
    + congruence.
  - eexists. split; [reflexivity |].
    now rewrite (ttm_metrics_computed _ _ _ _ Hw Hv Eload).
Qed.

Lemma filter_all {A} (f : A -> bool) (l : list A) :
  (forall x, In x l -> f x = true) -> filter f l = l.
Proof.
  induction l as [| x l IH]; intros H; [reflexivity |].
  cbn [filter]. rewrite (H x) by now left.
  f_equal. apply IH. intros; apply H; now right.
Qed.

Lemma filter_none {A} (f : A -> bool) (l : list A) :
  (forall x, In x l -> f x = false) -> filter f l = [].
Proof.
  induction l as [| x l IH]; intros H; [reflexivity |].
  cbn [filter]. rewrite (H x) by now left.
  apply IH. intros; apply H; now right.
Qed.

Lemma flat_map_single {A B} (f : A -> B) (l : list A) :
  flat_map (fun x => [f x]) l = map f l.
Proof. induction l as [| x l IH]; [reflexivity |]. simpl. now rewrite IH. Qed.

(** The metric columns are neither of the two key columns. *)
Lemma detected_not_entity (metrics_glbl : MetricsTable) (col : string) :
  In col (detect_metric_columns metrics_glbl) ->
  In col (df_columns metrics_glbl) /\ col <> METRICS_COLS_entity.
Proof.
  unfold detect_metric_columns. intros H. apply filter_In in H.
  destruct H as [Hin H]. split; [exact Hin |]. intros ->.
  discriminate H.
Qed.

(** Among the rows of distinct keys at most one has a given key. *)
Lemma filter_by_key (keys : list string) (mk : string -> TtmRow) (e : string) :
  NoDup keys -> (forall k, ttm_entity (mk k) = k) ->
  filter (fun m => String.eqb (ttm_entity m) e) (map mk keys)
  = if mem e keys then [mk e] else [].
Proof.
  intros Hnd Hmk. induction Hnd as [| k keys Hk Hnd IH]; [reflexivity |].
  cbn [map filter mem existsb]. fold (mem e keys). rewrite Hmk, IH.
  rewrite (String.eqb_sym e k).
  destruct (String.eqb_spec k e) as [-> | Hne]; cbn [orb]; [| reflexivity].
  apply mem_false in Hk. now rewrite Hk.
Qed.

(** The frame of a month after the two renamings of the builder. *)
Lemma renamed_frame (cfg : settings) (metrics_glbl : MetricsTable) (month : Z)
    (p : string) :
  ~ In "entity" (df_columns metrics_glbl) ->
  let cols := detect_metric_columns metrics_glbl in
  let to_entity :=
    fun col => if String.eqb col METRICS_COLS_entity then "entity" else col in
  let window := filter (in_window cfg month) (df_rows metrics_glbl) in
  rename (fun col => if mem col cols then p ++ col else col)
         (rename to_entity (ttm_frame cfg metrics_glbl month))
  = {| df_columns := "entity" :: map (append p) cols;
       df_rows :=
         map (fun key =>
                {| ttm_entity := key;
                   ttm_values :=
                     map (fun col =>
                            (p ++ col, entity_total cfg metrics_glbl month
                                                    col key))
                         cols |})
             (sorted String.leb (unique (map met_entity window))) |}.
Proof.
  intros Hent cols to_entity window.
  assert (Hto : forall col, In col cols -> to_entity col = col).
  { intros col Hcol. apply detected_not_entity in Hcol.
    destruct Hcol as [_ Hne]. unfold to_entity.
    now destruct (String.eqb_spec col METRICS_COLS_entity). }
  assert (Hpre : forall col, In col cols ->
                             (if mem col cols then (p ++ col)%string else col)
                             = (p ++ col)%string).
  { intros col Hcol. now rewrite (proj2 (mem_In _ _) Hcol). }
  unfold rename, ttm_frame. cbn [df_columns df_rows]. f_equal.
  - cbn [map]. f_equal.
    + unfold to_entity. rewrite String.eqb_refl.
      destruct (mem "entity" cols) eqn:E; [| reflexivity].
      apply mem_In, detected_not_entity in E. now destruct E.
    + rewrite map_map. apply map_ext_in. intros col Hcol.
      rewrite (Hto col Hcol). now apply Hpre.
  - unfold groupby_sum. rewrite !map_map. apply map_ext. intros key.
    cbn [ttm_entity ttm_values]. f_equal. rewrite !map_map.
    apply map_ext_in. intros col Hcol. cbn [fst snd].
    rewrite (Hto col Hcol), (Hpre col Hcol). f_equal.
    unfold entity_total, column_total. fold window. apply sum_dropna.
Qed.

Lemma lookup_prefixed {C} (p : string) (g : string -> C) (cols : list string)
    (col : string) :
  In col cols ->
  lookup (p ++ col) (map (fun c => ((p ++ c)%string, g c)) cols)
  = Some (g col).
Proof.
  induction cols as [| c cols IH]; intros Hin; [contradiction |].
  cbn [map lookup].
  destruct (String.eqb_spec (p ++ col) (p ++ c)) as [E | E].
  - apply append_inj in E. now subst.
  - destruct Hin as [-> | Hin]; [congruence | now apply IH].
Qed.

Lemma lookup_absent_prefixed {C} (p : string) (g : string -> C)
    (cols : list string) (col : string) :
  ~ In col cols ->
  lookup (p ++ col) (map (fun c => ((p ++ c)%string, g c)) cols) = None.
Proof.
  induction cols as [| c cols IH]; intros Hout; [reflexivity |].
  cbn [map lookup].
  destruct (String.eqb_spec (p ++ col) (p ++ c)) as [E | E].
  - apply append_inj in E. subst c. exfalso. apply Hout. now left.
  - apply IH. intros Hin. apply Hout. now right.
Qed.

Lemma lookup_other_prefix {C} (p p' : string) (g : string -> C)
    (cols : list string) (col : string) :
  (forall a b, (p ++ a)%string <> (p' ++ b)%string) ->
  lookup (p ++ col) (map (fun c => ((p' ++ c)%string, g c)) cols) = None.
Proof.
  intros Hne. induction cols as [| c cols IH]; [reflexivity |].
  cbn [map lookup].
  destruct (String.eqb_spec (p ++ col) (p' ++ c)) as [E | E]; [| exact IH].
  now apply Hne in E.
Qed.

Lemma lookup_app {C} (k : string) (l l' : list (string * C)) :
  lookup k (l ++ l')
  = match lookup k l with
    | Some v => Some v
    | None => lookup k l'
    end.
Proof.
  induction l as [| [k' v] l IH]; [reflexivity |].
  cbn [app lookup]. destruct (String.eqb k k'); [reflexivity | exact IH].
Qed.

(** The left merge with a frame that has one row for each of its
    distinct entities keeps the rows of the table, each extended by the
    metrics of its entity, missing when the frame has no row for it. *)
Lemma merge_left_frame (s : DataFrame (Row (option num))) (p : string)
    (cols keys : list string) (T : string -> string -> num) :
  (forall col, (p ++ col)%string <> "entity") ->
  NoDup keys ->
  merge_left s
    {| df_columns := "entity" :: map (append p) cols;
       df_rows :=
         map (fun key =>
                {| ttm_entity := key;
                   ttm_values := map (fun col => ((p ++ col)%string, T col key))
                                     cols |})
             keys |}
  = Ok {| df_columns := (df_columns s ++ map (append p) cols)%list;
          df_rows :=
            map (fun r =>
                   mkRow (entity r) (base_segment r) (current_segment r)
                         (status r)
                         (cells r
                          ++ map (fun col =>
                                    ((p ++ col)%string,
                                     if mem (entity r) keys
                                     then Some (T col (entity r))
                                     else None))
                                 cols)%list)
                (df_rows s) |}.
Proof.
  intros Hp Hnd. unfold merge_left, getitem.
  cbn [df_columns df_rows mem existsb filter]. rewrite !String.eqb_refl.
  cbn [orb Py.bind negb].
  rewrite filter_all.
  2:{ intros pc Hpc. apply in_map_iff in Hpc. destruct Hpc as [col [<- _]].
      destruct (String.eqb_spec (p ++ col) "entity") as [E | E];
        [now apply Hp in E | reflexivity]. }
  do 2 f_equal. etransitivity; [| apply flat_map_single].
  apply flat_map_ext. intros r.
  rewrite (filter_by_key keys
             (fun key =>
                {| ttm_entity := key;
                   ttm_values := map (fun col => ((p ++ col)%string, T col key))
                                     cols |})) by (assumption || reflexivity).
  destruct (mem (entity r) keys); cbn [map ttm_values];
    do 3 f_equal; rewrite map_map; apply map_ext_in; intros col Hcol;
    [| reflexivity].
  f_equal. now apply (lookup_prefixed p (fun col => T col (entity r))).
Qed.

Lemma merge_outer_fresh (base curr : list (string * option string))
    (r : Row (option num)) :
  In r (merge_outer base curr) -> status r = "" /\ cells r = [].
Proof.
  unfold merge_outer. intros H. apply in_flat_map in H.
  destruct H as [key [_ H]].
  destruct (filter _ base) as [| x l]; [| destruct (filter _ curr) as [| y l']].
  - apply in_map_iff in H. destruct H as [y [<- _]]. auto.
  - apply in_map_iff in H. destruct H as [x' [<- _]]. auto.
  - apply in_flat_map in H. destruct H as [x' [_ H]].
    apply in_map_iff in H. destruct H as [y' [<- _]]. auto.
Qed.

Lemma set_status_map {C} (merged : list (Row C)) :
  set_status merged (classify_status_vectorized merged)
  = map (fun r => mkRow (entity r) (base_segment r) (current_segment r)
                        (status_of r) (cells r))
        merged.
Proof.
  rewrite classify_is_status_of. unfold set_status.
  induction merged as [| r l IH]; [reflexivity |].
  cbn [map zip_with]. now rewrite IH.
Qed.

Lemma getitems_well_formed (df : SegTable) :
  ~ defective df ->
  getitems df [SEGMENT_COLS_entity; SEGMENT_COLS_segment] = Ok (df_rows df)
  /\ getitem df SEGMENT_COLS_month = Ok (df_rows df)
  /\ df_rows df <> [].
Proof.
  intros Hd. unfold defective, required_missing in Hd.
  unfold getitems, getitem. cbn [filter] in *.
  destruct (mem SEGMENT_COLS_entity (df_columns df));
    destruct (mem SEGMENT_COLS_month (df_columns df));
    destruct (mem SEGMENT_COLS_segment (df_columns df));
    cbn [negb] in *;
    try (exfalso; apply Hd; right; discriminate).
  repeat split. intros E. apply Hd. now left.
Qed.

Lemma renamed_columns (cfg : settings) (metrics_glbl : MetricsTable) (month : Z) :
  ~ In "entity" (df_columns metrics_glbl) ->
  filter (fun col => negb (String.eqb col "entity"))
         (df_columns
            (rename (fun col => if String.eqb col METRICS_COLS_entity
                                then "entity" else col)
                    (ttm_frame cfg metrics_glbl month)))
  = detect_metric_columns metrics_glbl.
Proof.
  intros Hent. unfold rename, ttm_frame. cbn [df_columns map filter].
  rewrite !String.eqb_refl. cbn [negb].
  rewrite filter_all.
  - rewrite <- (map_id (detect_metric_columns metrics_glbl)) at 2.
    apply map_ext_in. intros col Hcol.
    apply detected_not_entity in Hcol. destruct Hcol as [_ Hne].
    now destruct (String.eqb_spec col METRICS_COLS_entity).
  - intros col Hcol. apply in_map_iff in Hcol.
    destruct Hcol as [col' [<- Hcol]].
    apply detected_not_entity in Hcol. destruct Hcol as [Hin Hne].
    destruct (String.eqb_spec col' METRICS_COLS_entity); [contradiction |].
    destruct (String.eqb_spec col' "entity"); [congruence | reflexivity].
Qed.

Lemma fill_total (cfg : settings) (metrics_glbl : MetricsTable) (month : Z)
    (col e : string) :
  match (if mem e (sorted String.leb
                     (unique (map met_entity
                                  (filter (in_window cfg month)
                                          (df_rows metrics_glbl)))))
         then Some (entity_total cfg metrics_glbl month col e)
         else None) with
  | Some v => v
  | None => of_Z 0
  end
  = entity_total cfg metrics_glbl month col e.
Proof.
  destruct (mem e _) eqn:E; [reflexivity |].
  unfold entity_total. rewrite filter_none; [reflexivity |].
  intros m Hm. destruct (String.eqb_spec (met_entity m) e) as [<- |];
    [| reflexivity].
  apply mem_false in E. exfalso. apply E.
  apply In_sorted, In_unique. now apply in_map.
Qed.

(** The build of a snapshot from well-formed tables and a cold cache,
    in closed form. *)
Lemma create_snapshot_built (cfg : settings) (base_seg curr_seg : SegTable)
    (metrics_glbl : MetricsTable) (c : cache) :
  1 <= TTM_MONTHS cfg ->
  well_formed_segments base_seg -> well_formed_segments curr_seg ->
  well_formed_metrics metrics_glbl -> cold cfg c ->
  exists base_month current_month c',
    first_month base_seg = Ok base_month
    /\ first_month curr_seg = Ok current_month
    /\ create_snapshot cfg base_seg curr_seg metrics_glbl c
       = (Ok (snapshot_of cfg base_seg curr_seg metrics_glbl
                          base_month current_month), c').
Proof.
  intros Hw [_ Wb] [_ Wc] [_ [Hv [Hent _]]] [Hs Hm].
  destruct (getitems_well_formed _ Wb) as [Gb [Mb Rb]].
  destruct (getitems_well_formed _ Wc) as [Gc [Mc Rc]].
  unfold first_month, create_snapshot, Caching.bind, lift.
  rewrite Mb, Mc, Gb, Gc. cbn [Py.bind].
  destruct (df_rows base_seg) as [| b0 brows] eqn:Eb; [contradiction |].
  destruct (df_rows curr_seg) as [| c0 crows] eqn:Ec; [contradiction |].
  cbn [map iloc0].
  exists (seg_month b0), (seg_month c0).
  rewrite Hs.
  destruct (ttm_metrics_twice cfg metrics_glbl (seg_month b0) (seg_month c0)
                              c Hw Hv Hm) as [c1 [c2 [E1 E2]]].
  rewrite E1, E2.
  rewrite (renamed_columns _ _ _ Hent).
  pose proof (renamed_frame cfg metrics_glbl (seg_month b0) "base_" Hent) as Rb'.
  pose proof (renamed_frame cfg metrics_glbl (seg_month c0) "current_" Hent) as Rc'.
  cbv zeta in Rb', Rc'. rewrite Rb', Rc'.
  rewrite merge_left_frame.
  2:{ intros col. discriminate. }
  2:{ eapply Permutation_NoDup; [apply sorted_Permutation | apply NoDup_unique]. }
  rewrite merge_left_frame.
  2:{ intros col. discriminate. }
  2:{ eapply Permutation_NoDup; [apply sorted_Permutation | apply NoDup_unique]. }
  eexists. split; [reflexivity |]. split; [reflexivity |].
  f_equal. f_equal.
  unfold fillna0, snapshot_of, segment_pairs. cbn [df_columns df_rows].
  rewrite Eb, Ec.
  f_equal.
  rewrite set_status_map, !map_map. apply map_ext_in. intros r Hr.
  apply merge_outer_fresh in Hr. destruct Hr as [_ Hcells].
  cbn [entity base_segment current_segment status cells].
  rewrite Hcells. cbn [app]. f_equal.
  rewrite map_app, !map_map.
  f_equal; apply map_ext; intros col; cbn [fst snd]; f_equal;
    apply fill_total.
Qed.


(** *** The outer merge of the two files *)

Lemma merge_outer_keys (base curr : list (string * option string))
    (key : string) :
  In key (sorted String.leb (unique (map fst base ++ map fst curr)))
  <-> In key (map fst base) \/ In key (map fst curr).
Proof. now rewrite In_sorted, In_unique, in_app_iff. Qed.

Lemma filter_key_nonempty (l : list (string * option string)) (key : string) :
  In key (map fst l) -> filter (fun r => String.eqb (fst r) key) l <> [].
Proof.
  intros H. apply in_map_iff in H. destruct H as [x [<- Hx]].
  intros E.
  assert (Hin : In x (filter (fun r => String.eqb (fst r) (fst x)) l)).
  { apply filter_In. split; [exact Hx | apply String.eqb_refl]. }
  now rewrite E in Hin.
Qed.

Lemma merge_outer_entities (base curr : list (string * option string))
    (e : string) :
  In e (map entity (merge_outer base curr))
  <-> In e (map fst base) \/ In e (map fst curr).
Proof.
  rewrite <- merge_outer_keys. unfold merge_outer. split.
  - intros H. apply in_map_iff in H. destruct H as [r [<- H]].
    apply in_flat_map in H. destruct H as [key [Hkey H]].
    destruct (filter _ base) as [| x l];
      [| destruct (filter _ curr) as [| y l']].
    + apply in_map_iff in H. destruct H as [y [<- _]]. exact Hkey.
    + apply in_map_iff in H. destruct H as [x' [<- _]]. exact Hkey.
    + apply in_flat_map in H. destruct H as [x' [_ H]].
      apply in_map_iff in H. destruct H as [y' [<- _]]. exact Hkey.
  - intros Hkey. apply in_map_iff.
    pose proof (proj1 (merge_outer_keys _ _ _) Hkey) as Hor.
    destruct (filter (fun r => String.eqb (fst r) e) base) as [| x l] eqn:El;
      [destruct (filter (fun r => String.eqb (fst r) e) curr)
         as [| y l'] eqn:Er |].
    + exfalso. destruct Hor as [H | H];
        apply filter_key_nonempty in H; contradiction.
    + exists (mkRow e None (snd y) "" []). split; [reflexivity |].
      apply in_flat_map. exists e. split; [exact Hkey |].
      rewrite El, Er. now left.
    + destruct (filter (fun r => String.eqb (fst r) e) curr)
        as [| y l'] eqn:Er.
      * exists (mkRow e (snd x) None "" []). split; [reflexivity |].
        apply in_flat_map. exists e. split; [exact Hkey |].
        rewrite El, Er. now left.
      * exists (mkRow e (snd x) (snd y) "" []). split; [reflexivity |].
        apply in_flat_map. exists e. split; [exact Hkey |].
        rewrite El, Er. cbn [flat_map map]. now left.
Qed.

Lemma find_map {A B} (f : A -> B) (p : B -> bool) (l : list A) :
  find p (map f l) = option_map f (find (fun x => p (f x)) l).
Proof.
  induction l as [| x l IH]; [reflexivity |].
  cbn [map find]. destruct (p (f x)); [reflexivity | exact IH].
Qed.

(** In a file that lists an entity at most once, the rows of an entity
    are its first row, if any. *)
Lemma filter_unique_key (l : list (string * option string)) (key : string) :
  NoDup (map fst l) ->
  filter (fun r => String.eqb (fst r) key) l
  = match find (fun r => String.eqb (fst r) key) l with
    | Some x => [x]
    | None => []
    end.
Proof.
  induction l as [| x l IH]; intros Hnd; [reflexivity |].
  cbn [map] in Hnd. inversion Hnd as [| ? ? Hx Hnd']; subst.
  cbn [filter find].
  destruct (String.eqb_spec (fst x) key) as [E | E]; [| now apply IH].
  f_equal. apply filter_none. intros y Hy.
  destruct (String.eqb_spec (fst y) key) as [E' | E']; [| reflexivity].
  exfalso. apply Hx. rewrite E, <- E'. now apply in_map.
Qed.

Lemma segment_in_pairs (df : SegTable) (key : string) :
  match find (fun r => String.eqb (fst r) key) (segment_pairs df) with
  | Some x => snd x
  | None => None
  end
  = segment_in df key.
Proof.
  unfold segment_pairs, segment_in. rewrite find_map. cbn [fst].
  now destruct (find _ (df_rows df)).
Qed.

Lemma flat_map_ext_in {A B} (f g : A -> list B) (l : list A) :
  (forall x, In x l -> f x = g x) -> flat_map f l = flat_map g l.
Proof.
  induction l as [| x l IH]; intros H; [reflexivity |].
  cbn [flat_map]. rewrite (H x) by now left.
  f_equal. apply IH. intros; apply H; now right.
Qed.

(** When each file lists an entity at most once, the merge has one row
    for each entity of either file, with the segment that each file
    gives for it. *)
Lemma merge_outer_unique (base_seg curr_seg : SegTable) :
  NoDup (map seg_entity (df_rows base_seg)) ->
  NoDup (map seg_entity (df_rows curr_seg)) ->
  merge_outer (segment_pairs base_seg) (segment_pairs curr_seg)
  = map (fun key => mkRow key (segment_in base_seg key)
                          (segment_in curr_seg key) "" [])
        (sorted String.leb
                (unique (map fst (segment_pairs base_seg)
                         ++ map fst (segment_pairs curr_seg)))).
Proof.
  intros Hb Hc.
  assert (Hb' : NoDup (map fst (segment_pairs base_seg))).
  { unfold segment_pairs. now rewrite map_map. }
  assert (Hc' : NoDup (map fst (segment_pairs curr_seg))).
  { unfold segment_pairs. now rewrite map_map. }
  unfold merge_outer. etransitivity; [| apply flat_map_single].
  apply flat_map_ext_in. intros key Hkey.
  apply merge_outer_keys in Hkey.
  rewrite <- (segment_in_pairs base_seg key), <- (segment_in_pairs curr_seg key).
  rewrite (filter_unique_key _ key Hb'), (filter_unique_key _ key Hc').
  pose proof (filter_key_nonempty (segment_pairs base_seg) key) as Nb.
  pose proof (filter_key_nonempty (segment_pairs curr_seg) key) as Nc.
  rewrite (filter_unique_key _ key Hb') in Nb.
  rewrite (filter_unique_key _ key Hc') in Nc.
  destruct (find _ (segment_pairs base_seg)) as [x |];
    destruct (find _ (segment_pairs curr_seg)) as [y |];
    try reflexivity.
  exfalso. destruct Hkey as [H | H]; [now apply Nb | now apply Nc].
Qed.

Lemma snapshot_of_entities (cfg : settings) (base_seg curr_seg : SegTable)
    (metrics_glbl : MetricsTable) (base_month current_month : Z) :
  map entity (df_rows (snapshot_of cfg base_seg curr_seg metrics_glbl
                                   base_month current_month))
  = map entity (merge_outer (segment_pairs base_seg) (segment_pairs curr_seg)).
Proof.
  unfold snapshot_of. cbn [df_rows]. rewrite map_map. reflexivity.
Qed.

(** X6.  From well-formed tables, a window of at least one month and a
    cache that serves nothing, [create_snapshot] returns a snapshot.
    Its entities are those of the base file and those of the current
    file.  When each file lists an entity at most once, so does the
    snapshot, and each row carries the segment that the base file gives
    for its entity and the segment that the current file gives for it,
    null where the file does not have the entity. *)
Theorem snapshot_builder_pairs_the_files :
  forall cfg base_seg curr_seg metrics_glbl c,
    1 <= TTM_MONTHS cfg ->
    well_formed_segments base_seg -> well_formed_segments curr_seg ->
    well_formed_metrics metrics_glbl -> cold cfg c ->
    exists snapshot c',
      create_snapshot cfg base_seg curr_seg metrics_glbl c
      = (Ok snapshot, c')
      /\ (forall e,
             In e (map entity (df_rows snapshot))
             <-> In e (map seg_entity (df_rows base_seg))
                 \/ In e (map seg_entity (df_rows curr_seg)))
      /\ (NoDup (map seg_entity (df_rows base_seg)) ->
          NoDup (map seg_entity (df_rows curr_seg)) ->
          NoDup (map entity (df_rows snapshot))
          /\ forall r,
               In r (df_rows snapshot) ->
               base_segment r = segment_in base_seg (entity r)
               /\ current_segment r = segment_in curr_seg (entity r)).
Proof.
  intros cfg base_seg curr_seg metrics_glbl c Hw Wb Wc Wm Hcold.
  destruct (create_snapshot_built _ _ _ _ _ Hw Wb Wc Wm Hcold)
    as [bm [cm [c' [_ [_ H]]]]].
  eexists. exists c'. split; [exact H |].
  rewrite snapshot_of_entities. split.
  - intros e. rewrite merge_outer_entities.
    unfold segment_pairs. now rewrite !map_map.
  - intros Hb Hc. rewrite (merge_outer_unique _ _ Hb Hc). split.
    + rewrite map_map. cbn [entity]. rewrite map_id.
      eapply Permutation_NoDup; [apply sorted_Permutation | apply NoDup_unique].
    + intros r Hr. unfold snapshot_of in Hr. cbn [df_rows] in Hr.
      rewrite (merge_outer_unique _ _ Hb Hc), map_map in Hr.
      apply in_map_iff in Hr. destruct Hr as [key [<- _]]. now split.
Qed.

Lemma snapshot_builder_pairs_the_files_witness :
  exists snapshot c',
    create_snapshot Settings.default Examples.base_seg Examples.curr_seg
                    Examples.metrics_glbl Caching.empty
    = (Ok snapshot, c')
    /\ (forall e,
           In e (map entity (df_rows snapshot))
           <-> In e (map seg_entity (df_rows Examples.base_seg))
               \/ In e (map seg_entity (df_rows Examples.curr_seg)))
    /\ (NoDup (map seg_entity (df_rows Examples.base_seg)) ->
        NoDup (map seg_entity (df_rows Examples.curr_seg)) ->
        NoDup (map entity (df_rows snapshot))
        /\ forall r,
             In r (df_rows snapshot) ->
             base_segment r = segment_in Examples.base_seg (entity r)
             /\ current_segment r = segment_in Examples.curr_seg (entity r)).
Proof.
  apply (snapshot_builder_pairs_the_files
           Settings.default Examples.base_seg Examples.curr_seg
           Examples.metrics_glbl Caching.empty).
  - vm_compute. discriminate.
  - split.
    + vm_compute. repeat constructor; simpl; intuition discriminate.
    + intros [H | H]; [discriminate H | apply H; reflexivity].
  - split.
    + vm_compute. repeat constructor; simpl; intuition discriminate.
    + intros [H | H]; [discriminate H | apply H; reflexivity].
  - split; [| split; [reflexivity | split; [| split]]].
    + vm_compute. repeat constructor; simpl; intuition discriminate.
    + vm_compute. intuition discriminate.
    + vm_compute. intuition discriminate.
    + vm_compute. discriminate.
  - split; intros id; reflexivity.
Defined.

Lemma snapshot_of_cells (cfg : settings) (base_seg curr_seg : SegTable)
    (metrics_glbl : MetricsTable) (base_month current_month : Z)
    (r : SnapshotRow) (col : string) :
  In r (df_rows (snapshot_of cfg base_seg curr_seg metrics_glbl
                             base_month current_month)) ->
  In col (detect_metric_columns metrics_glbl) ->
  cell ("base_" ++ col) r
  = entity_total cfg metrics_glbl base_month col (entity r)
  /\ cell ("current_" ++ col) r
     = entity_total cfg metrics_glbl current_month col (entity r).
Proof.
  intros Hr Hcol. unfold snapshot_of in Hr. cbn [df_rows] in Hr.
  apply in_map_iff in Hr. destruct Hr as [r0 [<- _]].
  unfold cell. cbn [cells entity]. rewrite !lookup_app. split.
  - now rewrite (lookup_prefixed "base_"
                   (fun col => entity_total cfg metrics_glbl base_month col
                                            (entity r0))).
  - rewrite (lookup_other_prefix "current_" "base_") by discriminate.
    now rewrite (lookup_prefixed "current_"
                   (fun col => entity_total cfg metrics_glbl current_month col
                                            (entity r0))).
Qed.

(** X7.  In a snapshot built from well-formed tables and a cache that
    serves nothing, the columns are the four columns of the merge, then
    one column [base_<metric>] for each metric column of the metrics
    table, then one column [current_<metric>] for each; and in each row
    the cell [base_<metric>] is the total of the metric over the rows of
    the entity in the trailing window of the base month, the cell
    [current_<metric>] its total over the trailing window of the
    current month, 0 for an entity without a row in the window. *)
Theorem snapshot_cells_are_window_totals :
  forall cfg base_seg curr_seg metrics_glbl c snapshot c'
         base_month current_month,
    1 <= TTM_MONTHS cfg ->
    well_formed_segments base_seg -> well_formed_segments curr_seg ->
    well_formed_metrics metrics_glbl -> cold cfg c ->
    create_snapshot cfg base_seg curr_seg metrics_glbl c = (Ok snapshot, c') ->
    first_month base_seg = Ok base_month ->
    first_month curr_seg = Ok current_month ->
    df_columns snapshot
    = (["entity"; "base_segment"; "current_segment"; "status"]
       ++ map (append "base_") (detect_metric_columns metrics_glbl)
       ++ map (append "current_") (detect_metric_columns metrics_glbl))%list
    /\ (forall r col,
           In r (df_rows snapshot) ->
           In col (detect_metric_columns metrics_glbl) ->
           cell ("base_" ++ col) r
           = entity_total cfg metrics_glbl base_month col (entity r)
           /\ cell ("current_" ++ col) r
              = entity_total cfg metrics_glbl current_month col (entity r))
    /\ (forall r col,
           In r (df_rows snapshot) ->
           ~ In (entity r)
                (map met_entity
                     (filter (in_window cfg current_month)
                             (df_rows metrics_glbl))) ->
           cell ("current_" ++ col) r = of_Z 0).
Proof.
  intros cfg base_seg curr_seg metrics_glbl c snapshot c' bm cm
         Hw Wb Wc Wm Hcold H Hb Hc.
  destruct (create_snapshot_built _ _ _ _ _ Hw Wb Wc Wm Hcold)
    as [bm' [cm' [c'' [Hb' [Hc' H']]]]].
  assert (bm' = bm) by congruence. assert (cm' = cm) by congruence.
  subst bm' cm'. rewrite H' in H. injection H as <- _.
  split; [reflexivity |]. split.
  - intros r col. apply snapshot_of_cells.
  - intros r col Hr Hout.
    destruct (in_dec string_dec col (detect_metric_columns metrics_glbl))
      as [Hcol | Hcol].
    + rewrite (proj2 (snapshot_of_cells _ _ _ _ _ _ _ _ Hr Hcol)).
      unfold entity_total. rewrite filter_none; [reflexivity |].
      intros m Hm.
      destruct (String.eqb_spec (met_entity m) (entity r)) as [E |];
        [| reflexivity].
      exfalso. apply Hout. rewrite <- E. now apply in_map.
    + unfold snapshot_of in Hr. cbn [df_rows] in Hr.
      apply in_map_iff in Hr. destruct Hr as [r0 [<- _]].
      unfold cell. cbn [cells]. rewrite lookup_app.
      rewrite (lookup_other_prefix "current_" "base_") by discriminate.
      now rewrite lookup_absent_prefixed.
Qed.

Lemma snapshot_cells_are_window_totals_witness :
  df_columns Examples.snapshot
  = (["entity"; "base_segment"; "current_segment"; "status"]
     ++ map (append "base_") (detect_metric_columns Examples.metrics_glbl)
     ++ map (append "current_") (detect_metric_columns Examples.metrics_glbl))%list
  /\ (forall r col,
         In r (df_rows Examples.snapshot) ->
         In col (detect_metric_columns Examples.metrics_glbl) ->
         cell ("base_" ++ col) r
         = entity_total Settings.default Examples.metrics_glbl 202406 col
                        (entity r)
         /\ cell ("current_" ++ col) r
            = entity_total Settings.default Examples.metrics_glbl 202411 col
                           (entity r))
  /\ (forall r col,
         In r (df_rows Examples.snapshot) ->
         ~ In (entity r)
              (map met_entity
                   (filter (in_window Settings.default 202411)
                           (df_rows Examples.metrics_glbl))) ->
         cell ("current_" ++ col) r = of_Z 0).
Proof.
  apply (snapshot_cells_are_window_totals
           Settings.default Examples.base_seg Examples.curr_seg
           Examples.metrics_glbl Caching.empty Examples.snapshot
           (snd Examples.built) 202406 202411).
  - vm_compute. discriminate.
  - split.
    + vm_compute. repeat constructor; simpl; intuition discriminate.
    + intros [H | H]; [discriminate H | apply H; reflexivity].
  - split.
    + vm_compute. repeat constructor; simpl; intuition discriminate.
    + intros [H | H]; [discriminate H | apply H; reflexivity].
  - split; [| split; [reflexivity | split; [| split]]].
    + vm_compute. repeat constructor; simpl; intuition discriminate.
    + vm_compute. intuition discriminate.
    + vm_compute. intuition discriminate.
    + vm_compute. discriminate.
  - split; intros id; reflexivity.
  - vm_compute. reflexivity.
  - reflexivity.
  - reflexivity.
Defined.

End SnapshotContent.

(** ** The summary of the entity counts *)

Section SummaryCounts.

Import Metrics Summary Spec.
Open Scope Qc_scope.

Lemma select_count (snapshot : Snapshot) (period : string)
    (p : SnapshotRow -> bool) :
  calculate_metric (select p snapshot) period "count"
  = of_nat (count p snapshot).
Proof. now rewrite calculate_metric_select. Qed.

Lemma NoDup_all_segments (snapshot : Snapshot) : NoDup (all_segments snapshot).
Proof.
  unfold all_segments.
  eapply Permutation_NoDup; [apply sorted_Permutation | apply NoDup_unique].
Qed.

Lemma all_segments_cover_base (snapshot : Snapshot) (r : SnapshotRow)
    (x : string) :
  In r (df_rows snapshot) -> base_segment r = Some x ->
  In x (all_segments snapshot).
Proof.
  intros Hr Hx. unfold all_segments.
  apply In_sorted, In_unique, in_or_app. left.
  apply In_unique, In_dropna. rewrite <- Hx. now apply in_map.
Qed.

Lemma all_segments_cover_current (snapshot : Snapshot) (r : SnapshotRow)
    (x : string) :
  In r (df_rows snapshot) -> current_segment r = Some x ->
  In x (all_segments snapshot).
Proof.
  intros Hr Hx. unfold all_segments.
  apply In_sorted, In_unique, in_or_app. right.
  apply In_unique, In_dropna. rewrite <- Hx. now apply in_map.
Qed.

(** The total over the segments of a count taken segment by segment. *)
Lemma total_of_counts (snapshot : Snapshot) (f : SnapshotRow -> option string)
    (p : string -> SnapshotRow -> bool) (q : SnapshotRow -> bool) :
  (forall r x, In r (df_rows snapshot) -> f r = Some x ->
               In x (all_segments snapshot)) ->
  (forall x r, p x r = eq_code (f r) x && q r) ->
  sum (map (fun x => of_nat (count (p x) snapshot)) (all_segments snapshot))
  = of_nat (count (fun r => notna (f r) && q r) snapshot).
Proof.
  intros Hcover Hp. rewrite sum_of_nat. f_equal. unfold count.
  rewrite <- (count_by_code (all_segments snapshot) f q)
    by (apply NoDup_all_segments || exact Hcover).
  f_equal. apply map_ext. intros x. f_equal. apply filter_ext. apply Hp.
Qed.

Lemma base_partition (segment : string) (r : SnapshotRow) :
  eq_code (base_segment r) segment
  = (eq_code (base_segment r) segment && eq_code (current_segment r) segment
     || eq_code (base_segment r) segment && notna (current_segment r)
        && ne_code (current_segment r) segment)
    || eq_code (base_segment r) segment && isna (current_segment r).
Proof.
  unfold ne_code, notna.
  destruct (eq_code (base_segment r) segment); [| reflexivity].
  destruct (current_segment r) as [c |]; simpl; [| reflexivity].
  destruct (String.eqb c segment); reflexivity.
Qed.

Lemma segment_row_counts (snapshot : Snapshot) (segment : string) :
  let row := segment_row snapshot "count" segment in
  field "Base" row
  = field "Retained" row + field "Lost (Other Seg)" row
    + field "Lost (System)" row
  /\ field "Net Change" row
     = field "New (System)" row + field "Added (Other Seg)" row
       - field "Lost (Other Seg)" row - field "Lost (System)" row.
Proof.
  intros row.
  assert (HB : field "Base" row
               = field "Retained" row + field "Lost (Other Seg)" row
                 + field "Lost (System)" row).
  { change (field "Base" row)
      with (calculate_metric
              (select (fun r => eq_code (base_segment r) segment) snapshot)
              "base" "count").
    change (field "Retained" row)
      with (calculate_metric
              (select (fun r => eq_code (base_segment r) segment
                                && eq_code (current_segment r) segment)
                      snapshot)
              "current" "count").
    change (field "Lost (Other Seg)" row)
      with (calculate_metric
              (select (fun r => eq_code (base_segment r) segment
                                && notna (current_segment r)
                                && ne_code (current_segment r) segment)
                      snapshot)
              "base" "count").
    change (field "Lost (System)" row)
      with (calculate_metric
              (select (fun r => eq_code (base_segment r) segment
                                && isna (current_segment r)) snapshot)
              "base" "count").
    rewrite !select_count. unfold count.
    rewrite (filter_ext _ _ (base_partition segment)).
    rewrite length_filter_split.
    - rewrite length_filter_split; [now rewrite !of_nat_add |].
      intros r. unfold ne_code, notna.
      destruct (eq_code (base_segment r) segment); [| reflexivity].
      destruct (current_segment r) as [c |]; simpl; [| reflexivity].
      destruct (String.eqb c segment); reflexivity.
    - intros r. unfold ne_code, notna.
      destruct (eq_code (base_segment r) segment); [| reflexivity].
      destruct (current_segment r) as [c |]; simpl; [| reflexivity].
      destruct (String.eqb c segment); reflexivity. }
  split; [exact HB |].
  change (field "Net Change" row)
    with (field "Current" row - field "Base" row).
  rewrite HB. unfold row. rewrite (segment_row_current snapshot "count" segment).
  ring.
Qed.

Lemma same_segment_base (x : string) (r : SnapshotRow) :
  eq_code (base_segment r) x && eq_code (current_segment r) x
  = eq_code (base_segment r) x && same_segment r.
Proof.
  unfold same_segment, eq_code.
  destruct (base_segment r) as [b |]; [| reflexivity].
  destruct (String.eqb_spec b x) as [-> | Hne]; [| reflexivity].
  destruct (current_segment r) as [c |]; [| reflexivity].
  cbn [andb]. apply String.eqb_sym.
Qed.

Lemma moved_out_of (x : string) (r : SnapshotRow) :
  eq_code (base_segment r) x && notna (current_segment r)
  && ne_code (current_segment r) x
  = eq_code (base_segment r) x
    && (notna (current_segment r) && negb (same_segment r)).
Proof.
  unfold same_segment, eq_code, ne_code, notna, eq_code.
  destruct (base_segment r) as [b |]; [| reflexivity].
  destruct (String.eqb_spec b x) as [-> | Hne]; [| reflexivity].
  destruct (current_segment r) as [c |]; [| reflexivity].
  cbn [andb isna negb]. now rewrite (String.eqb_sym c x).
Qed.

Lemma moved_into (x : string) (r : SnapshotRow) :
  eq_code (current_segment r) x && notna (base_segment r)
  && ne_code (base_segment r) x
  = eq_code (current_segment r) x
    && (notna (base_segment r) && negb (same_segment r)).
Proof.
  unfold same_segment, eq_code, ne_code, notna, eq_code.
  destruct (current_segment r) as [c |];
    [| destruct (base_segment r); reflexivity].
  destruct (String.eqb_spec c x) as [-> | Hne]; [| reflexivity].
  destruct (base_segment r) as [b |]; reflexivity.
Qed.

Lemma segment_rows_field (snapshot : Snapshot) (metric col : string) :
  map (field col) (segment_rows snapshot metric)
  = map (fun segment => field col (segment_row snapshot metric segment))
        (all_segments snapshot).
Proof. unfold segment_rows. now rewrite map_map. Qed.

Lemma total_base (snapshot : Snapshot) :
  sum (map (field "Base") (segment_rows snapshot "count"))
  = of_nat (count (fun r => notna (base_segment r)) snapshot).
Proof.
  rewrite segment_rows_field.
  change (fun segment => field "Base" (segment_row snapshot "count" segment))
    with (fun segment =>
            calculate_metric
              (select (fun r => eq_code (base_segment r) segment) snapshot)
              "base" "count").
  rewrite (map_ext _ _ (fun segment => select_count snapshot "base" _)).
  rewrite (total_of_counts snapshot base_segment _ (fun _ => true)).
  - apply f_equal, count_ext. intros r. apply andb_true_r.
  - apply all_segments_cover_base.
  - intros x r. now rewrite andb_true_r.
Qed.

Lemma total_current (snapshot : Snapshot) :
  sum (map (field "Current") (segment_rows snapshot "count"))
  = of_nat (count (fun r => notna (current_segment r)) snapshot).
Proof.
  rewrite segment_rows_field.
  change (fun segment => field "Current" (segment_row snapshot "count" segment))
    with (fun segment =>
            calculate_metric
              (select (fun r => eq_code (current_segment r) segment) snapshot)
              "current" "count").
  rewrite (map_ext _ _ (fun segment => select_count snapshot "current" _)).
  rewrite (total_of_counts snapshot current_segment _ (fun _ => true)).
  - apply f_equal, count_ext. intros r. apply andb_true_r.
  - apply all_segments_cover_current.
  - intros x r. now rewrite andb_true_r.
Qed.

Lemma total_added (snapshot : Snapshot) :
  sum (map (field "Added (Other Seg)") (segment_rows snapshot "count"))
  = of_nat (count (fun r => notna (current_segment r)
                            && (notna (base_segment r)
                                && negb (same_segment r))) snapshot).
Proof.
  rewrite segment_rows_field.
  change (fun segment =>
            field "Added (Other Seg)" (segment_row snapshot "count" segment))
    with (fun segment =>
            calculate_metric
              (select (fun r => eq_code (current_segment r) segment
                                && notna (base_segment r)
                                && ne_code (base_segment r) segment) snapshot)
              "current" "count").
  rewrite (map_ext _ _ (fun segment => select_count snapshot "current" _)).
  apply (total_of_counts snapshot current_segment).
  - apply all_segments_cover_current.
  - intros x r. apply moved_into.
Qed.

Lemma total_lost_other (snapshot : Snapshot) :
  sum (map (field "Lost (Other Seg)") (segment_rows snapshot "count"))
  = of_nat (count (fun r => notna (base_segment r)
                            && (notna (current_segment r)
                                && negb (same_segment r))) snapshot).
Proof.
  rewrite segment_rows_field.
  change (fun segment =>
            field "Lost (Other Seg)" (segment_row snapshot "count" segment))
    with (fun segment =>
            calculate_metric
              (select (fun r => eq_code (base_segment r) segment
                                && notna (current_segment r)
                                && ne_code (current_segment r) segment) snapshot)
              "base" "count").
  rewrite (map_ext _ _ (fun segment => select_count snapshot "base" _)).
  apply (total_of_counts snapshot base_segment).
  - apply all_segments_cover_base.
  - intros x r. apply moved_out_of.
Qed.

Lemma sum_map_sub {A} (f g : A -> num) (l : list A) :
  sum (map (fun x => f x - g x) l) = sum (map f l) - sum (map g l).
Proof.
  induction l as [| x l IH]; simpl.
  - rewrite sum_nil. ring.
  - rewrite !sum_cons, IH. ring.
Qed.

Lemma total_moves_balance (snapshot : Snapshot) :
  sum (map (field "Added (Other Seg)") (segment_rows snapshot "count"))
  = sum (map (field "Lost (Other Seg)") (segment_rows snapshot "count")).
Proof.
  rewrite total_added, total_lost_other. apply f_equal, count_ext.
  intros r. destruct (notna (current_segment r)), (notna (base_segment r));
    reflexivity.
Qed.

Lemma total_net_change (snapshot : Snapshot) :
  sum (map (field "Net Change") (segment_rows snapshot "count"))
  = sum (map (field "New (System)") (segment_rows snapshot "count"))
    - sum (map (field "Lost (System)") (segment_rows snapshot "count")).
Proof.
  pose proof (total_moves_balance snapshot) as Hbal.
  rewrite !segment_rows_field in *.
  rewrite (sum_map_ext _
             (fun segment =>
                field "New (System)" (segment_row snapshot "count" segment)
                + field "Added (Other Seg)" (segment_row snapshot "count" segment)
                - field "Lost (Other Seg)" (segment_row snapshot "count" segment)
                - field "Lost (System)" (segment_row snapshot "count" segment))).
  2:{ intros segment _. apply (segment_row_counts snapshot segment). }
  rewrite !sum_map_sub, sum_map_add, Hbal. ring.
Qed.

(** X8.  In the summary of the entity counts (metric ['count']) the
    row of every segment satisfies Base = Retained + Lost (Other Seg) +
    Lost (System), and its Net Change is New (System) + Added (Other
    Seg) - Lost (Other Seg) - Lost (System).  In the TOTAL row, Base is
    the number of snapshot rows with a base segment and Current the
    number with a current segment; the moves between segments cancel:
    Added (Other Seg) equals Lost (Other Seg), and Net Change is New
    (System) minus Lost (System). *)
Theorem summary_counts_balance :
  forall snapshot df,
    generate_summary_view snapshot "count" = Ok df ->
    exists rows total,
      df_rows df = (rows ++ [total])%list
      /\ Forall (fun row =>
                   field "Base" row
                   = field "Retained" row + field "Lost (Other Seg)" row
                     + field "Lost (System)" row
                   /\ field "Net Change" row
                      = field "New (System)" row
                        + field "Added (Other Seg)" row
                        - field "Lost (Other Seg)" row
                        - field "Lost (System)" row) rows
      /\ field "Base" total
         = of_nat (count (fun r => notna (base_segment r)) snapshot)
      /\ field "Current" total
         = of_nat (count (fun r => notna (current_segment r)) snapshot)
      /\ field "Added (Other Seg)" total = field "Lost (Other Seg)" total
      /\ field "Net Change" total
         = field "New (System)" total - field "Lost (System)" total.
Proof.
  intros snapshot df H. rewrite summary_view_shape in H.
  destruct (all_segments snapshot) as [| seg segs] eqn:E; [discriminate H |].
  injection H as <-. cbn [df_rows].
  exists (segment_rows snapshot "count"). eexists. split; [reflexivity |].
  split.
  { unfold segment_rows. apply Forall_forall. intros row Hrow.
    apply in_map_iff in Hrow. destruct Hrow as [segment [<- _]].
    apply segment_row_counts. }
  rewrite !totals_row_field by (cbv; tauto).
  split; [apply total_base |]. split; [apply total_current |].
  split; [apply total_moves_balance | apply total_net_change].
Qed.

Lemma summary_counts_balance_witness :
  exists rows total,
    df_rows (mkDataFrame summary_columns
               (segment_rows Examples.snapshot "count"
                ++ [totals_row (mkDataFrame summary_columns
                                  (segment_rows Examples.snapshot "count"))]))
    = (rows ++ [total])%list
    /\ Forall (fun row =>
                 field "Base" row
                 = field "Retained" row + field "Lost (Other Seg)" row
                   + field "Lost (System)" row
                 /\ field "Net Change" row
                    = field "New (System)" row
                      + field "Added (Other Seg)" row
                      - field "Lost (Other Seg)" row
                      - field "Lost (System)" row) rows
    /\ field "Base" total
       = of_nat (count (fun r => notna (base_segment r)) Examples.snapshot)
    /\ field "Current" total
       = of_nat (count (fun r => notna (current_segment r)) Examples.snapshot)
    /\ field "Added (Other Seg)" total = field "Lost (Other Seg)" total
    /\ field "Net Change" total
       = field "New (System)" total - field "Lost (System)" total.
Proof.
  apply (summary_counts_balance Examples.snapshot).
  vm_compute. reflexivity.
Defined.

End SummaryCounts.

(** ** The movement matrix next to the summary *)

Section MatrixAndSummary.

Import Metrics Summary Matrix Spec.
Open Scope Qc_scope.










End MatrixAndSummary.

(** ** The counts of a cohort *)

Section CohortCounts.

Import Spec Notions Cohort.

Lemma count_moves_sum (base_num : Z) (moved : list SnapshotRow)
    (moves : Z * Z) :
  count_moves base_num moved = Ok moves ->
  0 <= fst moves /\ 0 <= snd moves
  /\ fst moves + snd moves
     = Z.of_nat (List.length
                   (filter (fun r => notna (current_segment r)) moved)).
Proof.
  unfold count_moves.
  enough (G : forall acc,
             for_each
               (fun (acc : Z * Z) row =>
                  match current_segment row with
                  | Some curr_seg =>
                      curr_num <- int (slice_from 3 curr_seg) ;;
                      if curr_num <? base_num then Ok (fst acc + 1, snd acc)
                      else Ok (fst acc, snd acc + 1)
                  | None => Ok acc
                  end) moved acc = Ok moves ->
             fst acc <= fst moves /\ snd acc <= snd moves
             /\ fst moves + snd moves
                = fst acc + snd acc
                  + Z.of_nat (List.length
                                (filter (fun r => notna (current_segment r))
                                        moved))).
  { intros H. apply G in H. cbn [fst snd] in H. lia. }
  induction moved as [| y moved IH]; cbn [for_each]; intros acc H.
  - injection H as <-. cbn [filter List.length]. lia.
  - apply bind_Ok_inv in H. destruct H as [acc' [Hy H]].
    apply IH in H. cbn [filter]. unfold notna at 1.
    destruct (current_segment y) as [cy |]; cbn [isna negb].
    + apply bind_Ok_inv in Hy. destruct Hy as [z [_ Hy]].
      cbn [List.length].
      destruct (z <? base_num); injection Hy as <-; cbn [fst snd] in H; lia.
    + injection Hy as <-. lia.
Qed.

Lemma filter_filter_andb {A} (f g : A -> bool) (l : list A) :
  filter f (filter g l) = filter (fun x => g x && f x) l.
Proof.
  induction l as [| x l IH]; [reflexivity |].
  cbn [filter]. destruct (g x); cbn [filter andb]; now rewrite IH.
Qed.

Lemma length_filter_le {A} (f : A -> bool) (l : list A) :
  (List.length (filter f l) <= List.length l)%nat.
Proof.
  induction l as [| x l IH]; [apply Nat.le_refl |].
  cbn [filter]. destruct (f x); cbn [List.length]; lia.
Qed.

Lemma cohort_parts (l : list SnapshotRow) :
  (List.length (filter (has_status "Retained") l)
   + List.length (filter (fun r => notna (current_segment r))
                         (filter (has_status "Moved Internal") l))
   + List.length (filter (has_status "Lost (System)") l))%nat
  = List.length (filter accounted l).
Proof.
  rewrite filter_filter_andb. unfold accounted.
  rewrite length_filter_split.
  - rewrite (length_filter_split (has_status "Retained")
                                 (has_status "Lost (System)"));
      [unfold SnapshotRow; lia |].
    intros r. unfold has_status.
    destruct (String.eqb_spec (status r) "Retained") as [-> |]; reflexivity.
  - intros r. unfold has_status.
    destruct (String.eqb_spec (status r) "Moved Internal") as [-> |];
      [reflexivity | now rewrite andb_false_r].
Qed.

Lemma classified_accounted (r : SnapshotRow) :
  classified r -> notna (base_segment r) = true -> accounted r = true.
Proof.
  unfold classified, accounted, has_status, status_of, same_segment, notna.
  intros -> Hb.
  destruct (base_segment r) as [b |]; [| discriminate Hb].
  destruct (current_segment r) as [c |]; cbn; [| reflexivity].
  destruct (String.eqb b c); reflexivity.
Qed.

Lemma Forall2_incl {A B} (P : A -> B -> Prop) (all l : list A) (l' : list B) :
  incl l all -> Forall2 P l l' ->
  Forall2 (fun x y => In x all /\ P x y) l l'.
Proof.
  intros Hincl HF. induction HF as [| x y l l' Hxy HF IH]; constructor.
  - split; [apply Hincl; now left | exact Hxy].
  - apply IH. intros z Hz. apply Hincl. now right.
Qed.

Lemma Forall2_with_In {A B} (P : A -> B -> Prop) (l : list A) (l' : list B) :
  Forall2 P l l' -> Forall2 (fun x y => In x l /\ P x y) l l'.
Proof. apply Forall2_incl, incl_refl. Qed.

Lemma cohort_of_counts (snapshot : Snapshot) (base_seg : string)
    (row : CohortRow) :
  In base_seg (sorted_codes (map base_segment (df_rows snapshot))) ->
  cohort_of snapshot base_seg = Ok row ->
  Base_Segment row = base_seg
  /\ 1 <= Cohort_Size row
  /\ (0 <= Retained row /\ 0 <= Moved_Up row
      /\ 0 <= Moved_Down row /\ 0 <= Churned row)
  /\ Retained row + Moved_Up row + Moved_Down row + Churned row
     <= Cohort_Size row
  /\ ((forall r, In r (df_rows snapshot) -> classified r) ->
      Cohort_Size row
      = Retained row + Moved_Up row + Moved_Down row + Churned row)
  /\ Retention_Rate row
     = (of_Z (Retained row) / of_Z (Cohort_Size row) * of_Z 100)%Qc
  /\ Churn_Rate row
     = (of_Z (Churned row) / of_Z (Cohort_Size row) * of_Z 100)%Qc.
Proof.
  intros Hseg H. unfold cohort_of in H.
  apply bind_Ok_inv in H. destruct H as [base_num [_ H]].
  apply bind_Ok_inv in H. destruct H as [moves [Hmoves H]].
  injection H as <-.
  cbn [Base_Segment Cohort_Size Retained Moved_Up Moved_Down Churned
       Retention_Rate Churn_Rate].
  apply count_moves_sum in Hmoves. destruct Hmoves as [Hu [Hd Hsum]].
  unfold len, select in *. cbn [df_rows] in *.
  unfold Snapshot, SnapshotRow in *.
  set (C := filter (fun r : Row num => eq_code (base_segment r) base_seg)
                   (df_rows snapshot)) in *.
  pose proof (cohort_parts C) as Hparts.
  pose proof (length_filter_le accounted C) as Hle.
  assert (Hsize : (1 <= List.length C)%nat).
  { apply In_sorted_codes, in_map_iff in Hseg.
    destruct Hseg as [r [Hb Hr]].
    assert (Hin : In r C).
    { apply filter_In. split; [exact Hr |].
      rewrite Hb. apply String.eqb_refl. }
    destruct C; [contradiction | cbn [List.length]; lia]. }
  split; [reflexivity |]. split; [lia |]. split; [lia |].
  split; [unfold SnapshotRow in *; lia |]. split.
  - intros Hclass.
    assert (E : filter accounted C = C).
    { apply filter_all. intros r Hr. apply filter_In in Hr.
      destruct Hr as [Hr Hb]. apply classified_accounted; [now apply Hclass |].
      unfold notna. now destruct (base_segment r). }
    rewrite E in Hparts. unfold SnapshotRow in *. lia.
  - unfold rate.
    rewrite (proj2 (Z.ltb_lt 0 (Z.of_nat (List.length C)))) by lia.
    split; reflexivity.
Qed.

(** X11.  When [identify_segment_cohorts] returns, its table has one
    row for each base segment of the snapshot, in ascending order of
    the code.  Every cohort has at least one entity, so that its two
    rates are the quotients by the cohort size (the branch for an empty
    cohort is never taken); its four counts are not negative and
    together do not exceed the cohort size; and when every row of the
    snapshot carries the status of the transition table, the cohort
    size is exactly Retained + Moved Up + Moved Down + Churned. *)
Theorem cohort_counts_partition :
  forall snapshot out,
    identify_segment_cohorts snapshot = Ok out ->
    map Base_Segment (df_rows out)
    = sorted_codes (map base_segment (df_rows snapshot))
    /\ Forall (fun row =>
                 1 <= Cohort_Size row
                 /\ (0 <= Retained row /\ 0 <= Moved_Up row
                     /\ 0 <= Moved_Down row /\ 0 <= Churned row)
                 /\ Retained row + Moved_Up row + Moved_Down row + Churned row
                    <= Cohort_Size row
                 /\ Retention_Rate row
                    = (of_Z (Retained row) / of_Z (Cohort_Size row)
                       * of_Z 100)%Qc
                 /\ Churn_Rate row
                    = (of_Z (Churned row) / of_Z (Cohort_Size row)
                       * of_Z 100)%Qc)
              (df_rows out)
    /\ ((forall r, In r (df_rows snapshot) -> classified r) ->
        Forall (fun row =>
                  Cohort_Size row
                  = Retained row + Moved_Up row + Moved_Down row
                    + Churned row)
               (df_rows out)).
Proof.
  intros snapshot out H. unfold identify_segment_cohorts in H.
  apply bind_Ok_inv in H. destruct H as [cohorts [Hloop H]].
  apply bind_Ok_inv in H. destruct H as [_ [_ H]]. injection H as <-.
  cbn [df_rows DataFrame_of_records].
  apply collect_Ok in Hloop. destruct Hloop as [rs [-> HF]]. cbn [app].
  assert (Hall : Forall2 (fun seg row =>
                            In seg (sorted_codes (map base_segment
                                                      (df_rows snapshot)))
                            /\ cohort_of snapshot seg = Ok row)
                         (sorted_codes (map base_segment (df_rows snapshot)))
                         rs).
  { now apply Forall2_with_In. }
  clear HF. split; [| split].
  - induction Hall as [| seg row segs rs [Hseg Hrow] _ IH]; [reflexivity |].
    cbn [map]. f_equal; [| exact IH].
    now apply (cohort_of_counts snapshot seg row).
  - induction Hall as [| seg row segs rs [Hseg Hrow] _ IH]; constructor;
      [| exact IH].
    destruct (cohort_of_counts snapshot seg row Hseg Hrow)
      as [_ [H1 [H2 [H3 [_ [H5 H6]]]]]].
    auto.
  - intros Hclass.
    induction Hall as [| seg row segs rs [Hseg Hrow] _ IH]; constructor;
      [| exact IH].
    destruct (cohort_of_counts snapshot seg row Hseg Hrow)
      as [_ [_ [_ [_ [H4 _]]]]].
    now apply H4.
Qed.

Lemma cohort_counts_partition_witness :
  exists out,
    identify_segment_cohorts Examples.snapshot = Ok out
    /\ map Base_Segment (df_rows out)
       = sorted_codes (map base_segment (df_rows Examples.snapshot))
    /\ Forall (fun row =>
                 Cohort_Size row
                 = Retained row + Moved_Up row + Moved_Down row
                   + Churned row)
              (df_rows out).
Proof.
  destruct (identify_segment_cohorts Examples.snapshot) as [out |] eqn:E;
    [| vm_compute in E; discriminate E].
  exists out. split; [reflexivity |].
  destruct (cohort_counts_partition Examples.snapshot out E) as [H1 [_ H3]].
  split; [exact H1 |]. apply H3.
  intros r Hr. vm_compute in Hr.
  repeat (destruct Hr as [<- | Hr]; [reflexivity |]). contradiction.
Defined.

End CohortCounts.

(** ** The risk of a segment *)

Section SegmentRisk.

Import Spec Notions Cohort Risk.

Lemma segment_risk_scored (snapshot : Snapshot) (segment : string)
    (row : SegmentRiskRow) :
  In segment (sorted_codes (map current_segment (df_rows snapshot))) ->
  segment_risk snapshot segment = Ok row ->
  Segment row = segment
  /\ 1 <= Current_Size row
  /\ In (Risk_Score row) [0; 20; 40; 60; 80; 100]
  /\ Risk_Level row = level_of (Risk_Score row).
Proof.
  intros Hseg H. unfold segment_risk in H.
  apply bind_Ok_inv in H. destruct H as [seg_num [_ H]].
  injection H as <-.
  cbn [Segment Current_Size Risk_Score Risk_Level].
  split; [reflexivity |]. split.
  { unfold len, select. cbn [df_rows].
    apply In_sorted_codes, in_map_iff in Hseg.
    destruct Hseg as [r [Hc Hr]].
    assert (Hin : In r (filter (fun r => eq_code (current_segment r) segment)
                               (df_rows snapshot))).
    { apply filter_In. split; [exact Hr |].
      rewrite Hc. apply String.eqb_refl. }
    unfold Snapshot, SnapshotRow in *.
    destruct (filter (fun r : Row num => eq_code (current_segment r) segment)
                     (df_rows snapshot)); [contradiction |].
    cbn [List.length]. lia. }
  split; [| reflexivity].
  repeat match goal with
         | |- context [if ?b then _ else _] => destruct b
         end; cbn; tauto.
Qed.

(** X12.  When [identify_at_risk_segments] returns, with a sorting
    routine that rearranges the rows into descending order of the key,
    its table has exactly one row for each current segment of the
    snapshot, in descending order of the risk score.  Every row is for
    a segment with at least one entity; its score is one of 0, 20, 40,
    60, 80 and 100, and its level is Low for 0 and 20, Medium for 40
    and High from 60 on. *)
Theorem at_risk_segments_scored :
  forall sort snapshot out,
    sorts_descending sort ->
    identify_at_risk_segments sort snapshot = Ok out ->
    Permutation (map Segment (df_rows out))
                (sorted_codes (map current_segment (df_rows snapshot)))
    /\ NoDup (map Segment (df_rows out))
    /\ descending Risk_Score (df_rows out)
    /\ Forall (fun row =>
                 1 <= Current_Size row
                 /\ In (Risk_Score row, Risk_Level row)
                       [(0, "Low"); (20, "Low"); (40, "Medium");
                        (60, "High"); (80, "High"); (100, "High")])
              (df_rows out).
Proof.
  intros sort snapshot out Hsort H. unfold identify_at_risk_segments in H.
  apply bind_Ok_inv in H. destruct H as [risks [Hloop H]].
  apply bind_Ok_inv in H. destruct H as [_ [_ H]]. injection H as <-.
  cbn [df_rows DataFrame_of_records].
  apply collect_Ok in Hloop. destruct Hloop as [rs [-> HF]]. cbn [app].
  apply Forall2_with_In in HF.
  assert (Hsegs : map Segment rs
                  = sorted_codes (map current_segment (df_rows snapshot))).
  { induction HF as [| seg row segs rs' [Hseg Hrow] _ IH]; [reflexivity |].
    cbn [map]. f_equal; [| exact IH].
    now apply (segment_risk_scored snapshot seg row). }
  destruct (Hsort SegmentRiskRow Risk_Score rs) as [Hperm Hdesc].
  split.
  { rewrite <- Hsegs. apply Permutation_map. now symmetry. }
  split.
  { eapply Permutation_NoDup; [apply Permutation_map; exact Hperm |].
    rewrite Hsegs. apply NoDup_sorted_codes. }
  split; [exact Hdesc |].
  eapply Permutation_Forall; [exact Hperm |].
  clear Hperm Hdesc Hsegs.
  induction HF as [| seg row segs rs' [Hseg Hrow] _ IH]; constructor;
    [| exact IH].
  destruct (segment_risk_scored snapshot seg row Hseg Hrow)
    as [_ [Hsize [Hscore Hlevel]]].
  split; [exact Hsize |]. rewrite Hlevel.
  cbn [In] in Hscore.
  repeat (destruct Hscore as [<- | Hscore]; [cbn; tauto |]).
  contradiction.
Qed.

Lemma at_risk_segments_scored_witness :
  exists out,
    identify_at_risk_segments Examples.sort_stable Examples.risk_snapshot
    = Ok out
    /\ Permutation (map Segment (df_rows out))
                   (sorted_codes (map current_segment
                                      (df_rows Examples.risk_snapshot)))
    /\ NoDup (map Segment (df_rows out))
    /\ descending Risk_Score (df_rows out)
    /\ Forall (fun row =>
                 1 <= Current_Size row
                 /\ In (Risk_Score row, Risk_Level row)
                       [(0, "Low"); (20, "Low"); (40, "Medium");
                        (60, "High"); (80, "High"); (100, "High")])
              (df_rows out).
Proof.
  destruct (identify_at_risk_segments Examples.sort_stable
                                      Examples.risk_snapshot)
    as [out |] eqn:E; [| vm_compute in E; discriminate E].
  exists out. split; [reflexivity |].
  apply (at_risk_segments_scored Examples.sort_stable Examples.risk_snapshot).
  - apply sort_stable_descending.
  - exact E.
Defined.

End SegmentRisk.

(** ** The catalogue of metrics *)

Section MetricCatalogue.

Import PyText EntityView Notions.

Lemma collected_metrics (cols acc : list string) :
  fold_left (fun metrics col =>
               if startswith col "base_"
               then (metrics ++ [replace "base_" "" col])%list
               else metrics)
            cols acc
  = (acc ++ map (replace "base_" "")
                (filter (fun col => startswith col "base_") cols))%list.
Proof.
  revert acc. induction cols as [| col cols IH]; intros acc; cbn [fold_left].
  - cbn [filter map]. now rewrite app_nil_r.
  - rewrite IH. cbn [filter].
    destruct (startswith col "base_"); [| reflexivity].
    cbn [map]. now rewrite <- app_assoc.
Qed.

Lemma get_available_metrics_sorted (snapshot : Snapshot) :
  get_available_metrics snapshot
  = sorted String.leb
      (map (replace "base_" "")
           (filter (fun col => startswith col "base_") (df_columns snapshot))).
Proof.
  unfold get_available_metrics. now rewrite collected_metrics.
Qed.

(** Replacing in a text without an occurrence changes nothing. *)
Lemma replace_absent (old new s : string) :
  contains old s = false -> replace old new s = s.
Proof.
  unfold replace. induction s as [| c s IH]; intros H; [reflexivity |].
  cbn [contains] in H. apply orb_false_elim in H. destruct H as [Hp Hc].
  cbn [replace_from]. rewrite Hp. f_equal. now apply IH.
Qed.

Lemma prefix_empty (m : string) : String.prefix "" m = true.
Proof. destruct m; reflexivity. Qed.

Lemma replace_base_prefix (m : string) :
  replace "base_" "" ("base_" ++ m) = replace "base_" "" m.
Proof. unfold replace. cbn. now rewrite prefix_empty. Qed.

Lemma startswith_base (m : string) : startswith ("base_" ++ m) "base_" = true.
Proof. unfold startswith. cbn. apply prefix_empty. Qed.

(** X13.  [get_available_metrics] lists, in ascending order, one name
    for each column of the snapshot that starts with [base_], no more
    and no less.  The column [base_segment] is such a column, so that
    [segment] is listed although it is no metric; and every column
    [base_<m>] whose name [m] does not contain the text [base_] is
    listed as [m].  For a snapshot with the columns that the builder
    gives, over metric names that do not contain [base_], the list is a
    rearrangement of [segment] and the metric names. *)
Theorem available_metrics_catalogue :
  forall snapshot,
    List.length (get_available_metrics snapshot)
    = List.length (filter (fun col => startswith col "base_")
                          (df_columns snapshot))
    /\ Sorted (fun a b => String.leb a b = true)
              (get_available_metrics snapshot)
    /\ (In "base_segment" (df_columns snapshot) ->
        In "segment" (get_available_metrics snapshot))
    /\ (forall m,
           contains "base_" m = false ->
           In ("base_" ++ m) (df_columns snapshot) ->
           In m (get_available_metrics snapshot))
    /\ (forall cols,
           df_columns snapshot
           = (["entity"; "base_segment"; "current_segment"; "status"]
              ++ map (append "base_") cols
              ++ map (append "current_") cols)%list ->
           Forall (fun m => contains "base_" m = false) cols ->
           Permutation (get_available_metrics snapshot) ("segment" :: cols)).
Proof.
  intros snapshot. rewrite get_available_metrics_sorted.
  split; [| split; [| split; [| split]]].
  - rewrite <- (Permutation_length (sorted_Permutation _ _)).
    apply length_map.
  - apply sorted_Sorted. intros a b Hab.
    destruct (String.leb_total a b) as [Hl | Hl]; congruence.
  - intros Hin. apply In_sorted.
    change "segment" with (replace "base_" "" "base_segment").
    apply in_map. apply filter_In. split; [exact Hin | reflexivity].
  - intros m Hm Hin. apply In_sorted.
    rewrite <- (replace_absent "base_" "" m Hm), <- replace_base_prefix.
    apply in_map. apply filter_In. split; [exact Hin |].
    apply startswith_base.
  - intros cols Hcols Hfree. rewrite <- sorted_Permutation, Hcols.
    rewrite filter_app, map_app.
    change (map (replace "base_" "")
                (filter (fun col => startswith col "base_")
                        ["entity"; "base_segment"; "current_segment";
                         "status"]))
      with ["segment"].
    cbn [app]. constructor. rewrite filter_app, map_app.
    rewrite (filter_all _ (map (append "base_") cols)).
    2:{ intros c Hc. apply in_map_iff in Hc. destruct Hc as [m [<- _]].
        apply startswith_base. }
    rewrite (filter_none _ (map (append "current_") cols)).
    2:{ intros c Hc. apply in_map_iff in Hc. destruct Hc as [m [<- _]].
        reflexivity. }
    rewrite app_nil_r, map_map.
    rewrite (map_ext_in _ (fun m => m)); [now rewrite map_id |].
    intros m Hm. rewrite replace_base_prefix. apply replace_absent.
    rewrite Forall_forall in Hfree. now apply Hfree.
Qed.

Lemma available_metrics_catalogue_witness :
  In "segment" (get_available_metrics Examples.snapshot)
  /\ In "a_rev_wf" (get_available_metrics Examples.snapshot)
  /\ Permutation (get_available_metrics Examples.snapshot)
                 ["segment"; "a_rev_wf"].
Proof.
  destruct (available_metrics_catalogue Examples.snapshot)
    as [_ [_ [Hseg [Hm Hall]]]].
  split; [| split].
  - apply Hseg. vm_compute. tauto.
  - apply Hm; [reflexivity | vm_compute; tauto].
  - apply Hall; [reflexivity |].
    constructor; [reflexivity | constructor].
Defined.

End MetricCatalogue.

(** ** The view of one entity *)

Section EntityViewFacts.

Import EntityView Notions Risk.

Lemma ltb_lt (x y : num) : ltb x y = true <-> (x < y)%Qc.
Proof.
  unfold ltb. rewrite Qclt_alt.
  destruct (x ?= y)%Qc; split; intros H; congruence.
Qed.

Lemma filter_head {A} (p : A -> bool) (l : list A) :
  hd_error (filter p l) = find p l.
Proof.
  induction l as [| x l IH]; [reflexivity |].
  cbn [filter find]. destruct (p x); [reflexivity | exact IH].
Qed.

Lemma find_none_entity (rows : list SnapshotRow) (id : string) :
  find (fun r => String.eqb (entity r) id) rows = None
  <-> ~ In id (map entity rows).
Proof.
  split.
  - intros H Hin. apply in_map_iff in Hin. destruct Hin as [r [<- Hr]].
    apply (find_none _ _ H) in Hr. now rewrite String.eqb_refl in Hr.
  - intros H.
    destruct (find (fun r : Row num => String.eqb (entity r) id) rows)
      as [r |] eqn:E; [| reflexivity].
    apply find_some in E. destruct E as [Hr E].
    apply String.eqb_eq in E. exfalso. apply H. rewrite <- E.
    now apply in_map.
Qed.

(** The points for a revenue decline are given exactly when the change
    in percent is negative. *)
Lemma decline_points (base_rev curr_rev : num) :
  0 < fst (revenue_decline base_rev curr_rev)
  <-> ((if ltb (of_Z 0) base_rev
        then (curr_rev - base_rev) / base_rev * of_Z 100
        else of_Z 0) < of_Z 0)%Qc.
Proof.
  unfold revenue_decline.
  destruct (ltb (of_Z 0) base_rev).
  - set (pct := ((curr_rev - base_rev) / base_rev * of_Z 100)%Qc).
    destruct (ltb pct (of_Z (-20))) eqn:E1.
    { cbn [fst]. split; [intros _ | lia].
      apply ltb_lt in E1. eapply Qclt_trans; [exact E1 | reflexivity]. }
    destruct (ltb pct (of_Z (-10))) eqn:E2.
    { cbn [fst]. split; [intros _ | lia].
      apply ltb_lt in E2. eapply Qclt_trans; [exact E2 | reflexivity]. }
    destruct (ltb pct (of_Z 0)) eqn:E3.
    { cbn [fst]. split; [intros _ | lia]. now apply ltb_lt. }
    cbn [fst]. split; [lia |]. intros H. apply ltb_lt in H. congruence.
  - cbn [fst]. split; [lia |]. intros H. discriminate H.
Qed.

Lemma rev_cols_present (snapshot : Snapshot) (p : string -> bool) :
  filter (fun col => mem col (df_columns snapshot))
         (filter p (df_columns snapshot))
  = filter p (df_columns snapshot).
Proof.
  apply filter_all. intros col Hcol. apply filter_In in Hcol.
  now apply mem_In.
Qed.

(** X14.  [calculate_entity_metrics] raises [KeyError] when the
    snapshot has no column [entity]; otherwise it returns [None]
    exactly when no row is for the entity, and else a dictionary read
    off the first row of the entity: its two revenue totals are those
    that the churn scorer computes for that row, the change is their
    difference, and the change in percent is negative exactly when the
    scorer gives points for a revenue decline. *)
Theorem entity_metrics_view :
  forall snapshot id,
    (~ In "entity" (df_columns snapshot) ->
     calculate_entity_metrics snapshot id = Raise (KeyError ["entity"]))
    /\ (In "entity" (df_columns snapshot) ->
        (calculate_entity_metrics snapshot id = Ok None
         <-> ~ In id (map entity (df_rows snapshot)))
        /\ (forall r,
               find (fun r => String.eqb (entity r) id) (df_rows snapshot)
               = Some r ->
               exists m,
                 calculate_entity_metrics snapshot id = Ok (Some m)
                 /\ entity_id m = id
                 /\ base_total_revenue m = base_rev_of snapshot r
                 /\ current_total_revenue m = curr_rev_of snapshot r
                 /\ revenue_change m
                    = (current_total_revenue m - base_total_revenue m)%Qc
                 /\ ((revenue_change_pct m < of_Z 0)%Qc
                     <-> 0 < fst (revenue_decline (base_rev_of snapshot r)
                                                  (curr_rev_of snapshot r)))
                 /\ (forall rec,
                        score_entity snapshot r = Ok rec ->
                        current_revenue rec = current_total_revenue m))).
Proof.
  intros snapshot id. unfold calculate_entity_metrics, getitem. split.
  - intros H. apply mem_false in H. now rewrite H.
  - intros H. apply mem_In in H. rewrite H. cbn [Py.bind].
    pose proof (filter_head (fun r => String.eqb (entity r) id)
                            (df_rows snapshot)) as Hhd.
    rewrite !rev_cols_present. split.
    + rewrite <- find_none_entity, <- Hhd.
      destruct (filter (fun r : Row num => String.eqb (entity r) id)
                       (df_rows snapshot)); split; intros E;
        try reflexivity; discriminate E.
    + intros r Hr. rewrite Hr in Hhd.
      destruct (filter (fun r : Row num => String.eqb (entity r) id)
                       (df_rows snapshot)) as [| r' l];
        [discriminate Hhd |].
      injection Hhd as ->. eexists. split; [reflexivity |].
      cbn [entity_id base_total_revenue current_total_revenue revenue_change
           revenue_change_pct].
      split; [reflexivity |]. split; [reflexivity |].
      split; [reflexivity |]. split; [reflexivity |]. split.
      * symmetry. apply decline_points.
      * intros rec Hrec. unfold score_entity in Hrec.
        apply bind_Ok_inv in Hrec. destruct Hrec as [f3 [_ Hrec]].
        apply bind_Ok_inv in Hrec. destruct Hrec as [f4 [_ Hrec]].
        injection Hrec as <-. reflexivity.
Qed.

Lemma entity_metrics_view_witness :
  exists m,
    calculate_entity_metrics Examples.risk_snapshot "E1" = Ok (Some m)
    /\ entity_id m = "E1"
    /\ base_total_revenue m
       = base_rev_of Examples.risk_snapshot Examples.risk_entity_1
    /\ current_total_revenue m
       = curr_rev_of Examples.risk_snapshot Examples.risk_entity_1
    /\ revenue_change m
       = (current_total_revenue m - base_total_revenue m)%Qc
    /\ ((revenue_change_pct m < of_Z 0)%Qc
        <-> 0 < fst (revenue_decline
                       (base_rev_of Examples.risk_snapshot
                                    Examples.risk_entity_1)
                       (curr_rev_of Examples.risk_snapshot
                                    Examples.risk_entity_1)))
    /\ (forall rec,
           score_entity Examples.risk_snapshot Examples.risk_entity_1 = Ok rec ->
           current_revenue rec = current_total_revenue m).
Proof.
  apply (proj2 (entity_metrics_view Examples.risk_snapshot "E1")).
  - vm_compute. tauto.
  - reflexivity.
Defined.

End EntityViewFacts.

(** ** The revenue of the cohorts *)

Section CohortRevenueFacts.

Import Notions Risk CohortRevenue.










End CohortRevenueFacts.

(** ** The flows of the Sankey diagram *)

Section SankeyFlows.

Import Metrics Matrix Spec Notions Sankey.

Lemma index_sound_from (l : list string) (k : Z) (d : list (string * Z))
    (label : string) (idx : Z) :
  lookup label (fold_left (fun d p => (snd p, fst p) :: d)
                          (enumerate_from k l) d) = Some idx ->
  (k <= idx /\ nth_error l (Z.to_nat (idx - k)) = Some label)
  \/ lookup label d = Some idx.
Proof.
  revert k d. induction l as [| x l IH]; intros k d H; cbn in H.
  - now right.
  - apply IH in H. destruct H as [[Hk Hnth] | H].
    + left. split; [lia |].
      replace (Z.to_nat (idx - k)) with (S (Z.to_nat (idx - (k + 1)))) by lia.
      exact Hnth.
    + cbn [lookup] in H.
      destruct (String.eqb_spec label x) as [-> | Hne]; [| now right].
      injection H as <-. left. split; [lia |].
      now rewrite Z.sub_diag.
Qed.

Lemma index_complete_from (l : list string) (k : Z) (d : list (string * Z))
    (label : string) :
  In label l \/ lookup label d <> None ->
  lookup label (fold_left (fun d p => (snd p, fst p) :: d)
                          (enumerate_from k l) d) <> None.
Proof.
  revert k d. induction l as [| x l IH]; intros k d H; cbn.
  - destruct H as [[] | H]; exact H.
  - apply IH. destruct H as [[-> | H] | H].
    + right. cbn [lookup]. now rewrite String.eqb_refl.
    + now left.
    + right. cbn [lookup]. now destruct (String.eqb label x).
Qed.

(** A label of the list is in the mapping, at a position that holds
    it. *)
Lemma label_position (all_labels : list string) (label : string) :
  In label all_labels ->
  exists idx,
    dict_getitem (index_of_labels all_labels) label = Ok idx
    /\ points_to all_labels label idx.
Proof.
  intros Hin. unfold dict_getitem, index_of_labels, enumerate.
  destruct (lookup label _) as [idx |] eqn:E.
  - exists idx. split; [reflexivity |].
    apply index_sound_from in E. destruct E as [[Hk Hnth] | E];
      [| discriminate E].
    split; [exact Hk |]. now rewrite Z.sub_0_r in Hnth.
  - exfalso. revert E. apply index_complete_from. now left.
Qed.

Lemma holds_append (all_labels : list string)
    (ts : list (string * string * num)) (f : flows)
    (source_label target_label : string) (source target : Z) (value : num) :
  holds all_labels ts f ->
  points_to all_labels source_label source ->
  points_to all_labels target_label target ->
  holds all_labels
        (ts ++ filter positive [(source_label, target_label, value)])%list
        (append_flow f source target value).
Proof.
  intros [Hs [Ht Hv]] Hsrc Htgt.
  unfold append_flow, positive. cbn [filter snd].
  destruct (ltb (of_Z 0) value).
  - unfold holds. cbn [fst snd]. split; [| split].
    + apply Forall2_app; [exact Hs | now constructor].
    + apply Forall2_app; [exact Ht | now constructor].
    + now rewrite Hv, map_app.
  - rewrite app_nil_r. now split.
Qed.

(** A loop that appends the flows from one node to the nodes of a list
    of segments. *)
Lemma loop_holds (all_labels : list string) (d : list (string * Z))
    (source_label : string) (source : Z)
    (target_label : string -> string) (value : string -> num)
    (segments : list string) (ts : list (string * string * num)) (f : flows) :
  (forall c, In c segments ->
             exists idx, dict_getitem d (target_label c) = Ok idx
                         /\ points_to all_labels (target_label c) idx) ->
  points_to all_labels source_label source ->
  holds all_labels ts f ->
  exists f',
    for_each (fun f c =>
                idx <- dict_getitem d (target_label c) ;;
                Ok (append_flow f source idx (value c)))
             segments f = Ok f'
    /\ holds all_labels
             (ts ++ filter positive
                      (map (fun c => (source_label, target_label c, value c))
                           segments))%list
             f'.
Proof.
  intros Hdict Hsrc. revert ts f.
  induction segments as [| c segments IH]; intros ts f Hf; cbn [for_each].
  - exists f. split; [reflexivity |]. cbn [map filter]. now rewrite app_nil_r.
  - destruct (Hdict c (or_introl eq_refl)) as [idx [-> Hidx]].
    cbn [Py.bind].
    destruct (IH (fun c' H => Hdict c' (or_intror H))
                 _ _ (holds_append _ _ _ source_label (target_label c)
                                   source idx (value c) Hf Hsrc Hidx))
      as [f' [Hloop Hf']].
    exists f'. split; [exact Hloop |].
    cbn [map]. change (?x :: ?l) with ([x] ++ l)%list at 1.
    rewrite filter_app, app_assoc in *. exact Hf'.
Qed.

Lemma for_each_holds {A} (all_labels : list string)
    (step : A -> list (string * string * num))
    (body : flows -> A -> result flows) (xs : list A)
    (ts : list (string * string * num)) (f : flows) :
  (forall x ts f,
      In x xs -> holds all_labels ts f ->
      exists f', body f x = Ok f'
                 /\ holds all_labels (ts ++ filter positive (step x))%list f') ->
  holds all_labels ts f ->
  exists f',
    for_each body xs f = Ok f'
    /\ holds all_labels (ts ++ filter positive (flat_map step xs))%list f'.
Proof.
  revert ts f. induction xs as [| x xs IH]; intros ts f Hbody Hf;
    cbn [for_each flat_map].
  - exists f. split; [reflexivity |]. cbn [filter]. now rewrite app_nil_r.
  - destruct (Hbody x ts f (or_introl eq_refl) Hf) as [f1 [-> Hf1]].
    cbn [Py.bind].
    destruct (IH _ _ (fun x' ts' f' H => Hbody x' ts' f' (or_intror H)) Hf1)
      as [f' [Hloop Hf']].
    exists f'. split; [exact Hloop |].
    now rewrite filter_app, app_assoc.
Qed.

Lemma sankey_holds (snapshot : Snapshot) (metric : string) :
  exists out,
    generate_sankey_data snapshot metric = Ok out
    /\ labels out
       = (map (fun seg => (seg ++ " (Base)")%string) (base_segments snapshot)
          ++ map (fun seg => (seg ++ " (Current)")%string)
                 (curr_segments snapshot)
          ++ ["New (System)"; "Lost (System)"])%list
    /\ holds (labels out) (filter positive (labelled_flows snapshot metric))
             (sources out, targets out, values out).
Proof.
  unfold generate_sankey_data. cbv zeta.
  fold (base_segments snapshot). fold (curr_segments snapshot).
  set (L := (map (fun seg => (seg ++ " (Base)")%string) (base_segments snapshot)
          ++ map (fun seg => (seg ++ " (Current)")%string)
                 (curr_segments snapshot)
          ++ ["New (System)"; "Lost (System)"])%list).
  assert (HB : forall b, In b (base_segments snapshot) -> In (b ++ " (Base)") L).
  { intros b Hb. apply in_or_app. left. now apply (in_map (fun seg => seg ++ " (Base)")). }
  assert (HC : forall c, In c (curr_segments snapshot) -> In (c ++ " (Current)") L).
  { intros c Hc. apply in_or_app. right. apply in_or_app. left.
    now apply (in_map (fun seg => seg ++ " (Current)")). }
  assert (HN : In "New (System)" L).
  { apply in_or_app. right. apply in_or_app. right. now left. }
  assert (HL : In "Lost (System)" L).
  { apply in_or_app. right. apply in_or_app. right. right. now left. }
  assert (H0 : holds L [] (([], []), [])).
  { repeat split; constructor. }
  set (step := fun b =>
                 (map (fun c => ((b ++ " (Base)")%string,
                                 (c ++ " (Current)")%string,
                                 movement snapshot metric b c))
                      (curr_segments snapshot)
                  ++ [((b ++ " (Base)")%string, "Lost (System)",
                       lost snapshot metric b)])%list).
  match goal with
  | |- exists out, Py.bind (for_each ?body _ _) _ = _ /\ _ =>
      assert (Hstep : forall b ts f,
                 In b (base_segments snapshot) -> holds L ts f ->
                 exists f', body f b = Ok f'
                            /\ holds L (ts ++ filter positive (step b))%list f')
  end.
  { intros b ts f Hb Hf.
    destruct (label_position L _ (HB b Hb)) as [bi [-> Hbi]]. cbn [Py.bind].
    destruct (loop_holds L (index_of_labels L) (b ++ " (Base)") bi
                (fun c => c ++ " (Current)")
                (fun c => movement snapshot metric b c)
                (curr_segments snapshot) ts f) as [f2 [E2 H2]];
      [intros c Hc; apply label_position; now apply HC | exact Hbi | exact Hf |].
    unfold movement in E2 at 1. rewrite E2. cbn [Py.bind].
    destruct (label_position L _ HL) as [li [-> Hli]]. cbn [Py.bind].
    eexists. split; [reflexivity |].
    unfold step. rewrite filter_app, app_assoc.
    apply holds_append; assumption. }
  destruct (for_each_holds L step _ _ [] _ Hstep H0) as [f1 [E1 H1]].
  rewrite E1. cbn [Py.bind].
  destruct (label_position L _ HN) as [ni [-> Hni]]. cbn [Py.bind].
  destruct (loop_holds L (index_of_labels L) "New (System)" ni
              (fun c => c ++ " (Current)")
              (fun c => new snapshot metric c)
              (curr_segments snapshot)
              ([] ++ filter positive
                       (flat_map step (base_segments snapshot)))%list f1)
    as [f3 [E3 H3]];
    [intros c Hc; apply label_position; now apply HC | exact Hni | exact H1 |].
  unfold new in E3 at 1. rewrite E3. cbn [Py.bind].
  eexists. split; [reflexivity |]. cbn [labels sources targets values].
  split; [reflexivity |].
  cbn [app] in H3. unfold labelled_flows. rewrite filter_app.
  destruct f3 as [[ss tg] vs]. exact H3.
Qed.

Lemma of_nat_nonneg (n : nat) : (0 <= of_nat n)%Qc.
Proof.
  unfold of_nat, of_Z, Qcle. cbn [this Q2Qc].
  rewrite (Qred_correct (inject_Z (Z.of_nat n))).
  unfold Qle. cbn [Qnum Qden inject_Z].
  change (Qred 0) with (0 # 1)%Q. cbn [Qnum Qden]. lia.
Qed.

Lemma sum_positive (l : list (string * string * num)) :
  (forall t, In t l -> (0 <= snd t)%Qc) ->
  sum (map snd (filter positive l)) = sum (map snd l).
Proof.
  induction l as [| t l IH]; intros Hpos; [reflexivity |].
  cbn [filter map]. unfold positive at 1.
  destruct (ltb (of_Z 0) (snd t)) eqn:E.
  - cbn [map]. rewrite !sum_cons, IH; [reflexivity |].
    intros; apply Hpos; now right.
  - rewrite sum_cons, IH by (intros; apply Hpos; now right).
    assert (Hz : snd t = 0%Qc).
    { destruct (Qcle_lt_or_eq _ _ (Hpos t (or_introl eq_refl))) as [H | H];
        [| now symmetry].
      apply ltb_lt in H. change (of_Z 0) with 0%Qc in E. congruence. }
    rewrite Hz. ring.
Qed.

Lemma sum_flat_map {A} (g : A -> list num) (l : list A) :
  sum (flat_map g l) = sum (map (fun x => sum (g x)) l).
Proof.
  induction l as [| x l IH]; [reflexivity |].
  cbn [flat_map map]. now rewrite sum_app, sum_cons, IH.
Qed.

Lemma labelled_flows_nonneg (snapshot : Snapshot) (t : string * string * num) :
  In t (labelled_flows snapshot "count") -> (0 <= snd t)%Qc.
Proof.
  unfold labelled_flows. intros H. apply in_app_or in H.
  destruct H as [H | H].
  - apply in_flat_map in H. destruct H as [b [_ H]].
    apply in_app_or in H. destruct H as [H | [<- | []]].
    + apply in_map_iff in H. destruct H as [c [<- _]]. cbn [snd].
      rewrite movement_count. apply of_nat_nonneg.
    + cbn [snd]. rewrite lost_count. apply of_nat_nonneg.
  - apply in_map_iff in H. destruct H as [c [<- _]]. cbn [snd].
    rewrite new_count. apply of_nat_nonneg.
Qed.

Lemma map_flat_map {A B C} (f : B -> C) (g : A -> list B) (l : list A) :
  map f (flat_map g l) = flat_map (fun x => map f (g x)) l.
Proof.
  induction l as [| x l IH]; [reflexivity |].
  cbn [flat_map]. now rewrite map_app, IH.
Qed.

Lemma labelled_flows_total (snapshot : Snapshot) :
  sum (map snd (labelled_flows snapshot "count"))
  = of_nat (count has_segment snapshot).
Proof.
  unfold labelled_flows.
  rewrite map_app, sum_app, map_flat_map, sum_flat_map, map_map.
  cbn [snd].
  rewrite (sum_map_ext _
             (fun b => of_nat
                         (list_sum
                            (map (fun c => count (fun r => eq_code (current_segment r) c
                                                           && eq_code (base_segment r) b)
                                                 snapshot)
                                 (curr_segments snapshot))
                          + count (fun r => eq_code (base_segment r) b
                                            && isna (current_segment r))
                                  snapshot))).
  2:{ intros b _. rewrite map_app, map_map, sum_app. cbn [snd map].
      rewrite sum_cons, sum_nil, of_nat_add, <- sum_of_nat, lost_count.
      rewrite Qcplus_0_r. f_equal.
      apply sum_map_ext. intros c _. apply movement_count. }
  rewrite sum_of_nat.
  rewrite (sum_map_ext _
             (fun c => of_nat (count (fun r => eq_code (current_segment r) c
                                               && isna (base_segment r))
                                     snapshot)))
    by (intros c _; apply new_count).
  rewrite sum_of_nat, <- of_nat_add.
  f_equal. apply flows_count.
Qed.

(** X16.  [generate_sankey_data] returns for every snapshot and metric
    selector; no lookup of a label fails.  The labels are the base
    segments marked (Base), the current segments marked (Current), then
    New (System) and Lost (System).  The three lists of flows have the
    same length and describe, in the order of the loops, exactly the
    movements whose value is positive: from each base segment to each
    current segment and to Lost (System), then from New (System) to
    each current segment; each source and target is the position of the
    label of its node.  Every value listed is positive, and for the
    entity counts the values add up to the number of rows of the
    snapshot that have a segment. *)
Theorem sankey_flows_are_positive_movements :
  forall snapshot metric,
    metric <> "segment"%string ->
    exists out,
      generate_sankey_data snapshot metric = Ok out
      /\ labels out
         = (map (fun seg => (seg ++ " (Base)")%string) (base_segments snapshot)
            ++ map (fun seg => (seg ++ " (Current)")%string)
                   (curr_segments snapshot)
            ++ ["New (System)"; "Lost (System)"])%list
      /\ holds (labels out) (filter positive (labelled_flows snapshot metric))
               (sources out, targets out, values out)
      /\ List.length (sources out) = List.length (values out)
      /\ List.length (targets out) = List.length (values out)
      /\ Forall (fun v => (0 < v)%Qc) (values out)
      /\ (metric = "count"%string ->
          sum (values out) = of_nat (count has_segment snapshot)).
Proof.
  intros snapshot metric _.
  destruct (sankey_holds snapshot metric) as [out [Hout [Hlabels Hholds]]].
  exists out. split; [exact Hout |]. split; [exact Hlabels |].
  split; [exact Hholds |].
  destruct Hholds as [Hs [Ht Hv]]. cbn [fst snd] in Hs, Ht, Hv.
  apply Forall2_length in Hs. apply Forall2_length in Ht.
  rewrite Hv, length_map. split; [now symmetry |]. split; [now symmetry |].
  split.
  - apply Forall_forall. intros v Hin. apply in_map_iff in Hin.
    destruct Hin as [t [<- Hin]]. apply filter_In in Hin.
    destruct Hin as [_ Hpos]. now apply ltb_lt.
  - intros ->. rewrite sum_positive by apply labelled_flows_nonneg.
    apply labelled_flows_total.
Qed.

Lemma sankey_flows_are_positive_movements_witness :
  exists out,
    generate_sankey_data Examples.snapshot "count" = Ok out
    /\ labels out
       = (map (fun seg => (seg ++ " (Base)")%string)
              (base_segments Examples.snapshot)
          ++ map (fun seg => (seg ++ " (Current)")%string)
                 (curr_segments Examples.snapshot)
          ++ ["New (System)"; "Lost (System)"])%list
    /\ holds (labels out)
             (filter positive (labelled_flows Examples.snapshot "count"))
             (sources out, targets out, values out)
    /\ List.length (sources out) = List.length (values out)
    /\ List.length (targets out) = List.length (values out)
    /\ Forall (fun v => (0 < v)%Qc) (values out)
    /\ ("count"%string = "count"%string ->
        sum (values out) = of_nat (count has_segment Examples.snapshot)).
Proof.
  apply (sankey_flows_are_positive_movements Examples.snapshot "count").
  discriminate.
Defined.

End SankeyFlows.

(** ** The reasons behind a churn score *)

Section RiskReasons.

Import Spec Notions Risk.

Lemma revenue_decline_contribution (base_rev curr_rev : num) :
  contribution (revenue_decline base_rev curr_rev).
Proof.
  unfold contribution, revenue_decline.
  repeat match goal with
         | |- context [if ?b then _ else _] => destruct b
         end; cbn [fst snd]; (now left) || (right; split; [lia | eauto]).
Qed.

Lemma low_revenue_contribution (curr_rev : num) :
  contribution (low_revenue curr_rev).
Proof.
  unfold contribution, low_revenue.
  repeat match goal with
         | |- context [if ?b then _ else _] => destruct b
         end; cbn [fst snd]; (now left) || (right; split; [lia | eauto]).
Qed.

Lemma segment_tier_contribution (curr_seg : option string)
    (p : Z * list risk_factor) :
  segment_tier curr_seg = Ok p -> contribution p.
Proof.
  unfold contribution, segment_tier. destruct curr_seg as [code |].
  - intros H. apply bind_Ok_inv in H. destruct H as [seg_num [_ H]].
    destruct (16 <=? seg_num); [| destruct (11 <=? seg_num)];
      injection H as <-; cbn [fst snd];
      (now left) || (right; split; [lia | eauto]).
  - intros H. injection H as <-. now left.
Qed.

Lemma moved_down_contribution (entity : SnapshotRow)
    (p : Z * list risk_factor) :
  moved_down entity = Ok p -> contribution p.
Proof.
  unfold contribution, moved_down.
  destruct (String.eqb (status entity) "Moved Internal");
    [| intros H; injection H as <-; now left].
  destruct (base_segment entity) as [b |];
    [| intros H; injection H as <-; now left].
  destruct (current_segment entity) as [c |];
    [| intros H; injection H as <-; now left].
  intros H. apply bind_Ok_inv in H. destruct H as [base_num [_ H]].
  apply bind_Ok_inv in H. destruct H as [curr_num [_ H]].
  destruct (base_num <? curr_num); injection H as <-; cbn [fst snd];
    (now left) || (right; split; [lia | eauto]).
Qed.

(** A revenue decline is a current revenue below a positive base
    revenue. *)
Lemma decline_is_drop (base_rev curr_rev : num) :
  0 < fst (revenue_decline base_rev curr_rev)
  <-> (of_Z 0 < base_rev)%Qc /\ (curr_rev < base_rev)%Qc.
Proof.
  rewrite decline_points.
  destruct (ltb (of_Z 0) base_rev) eqn:Eb.
  - apply ltb_lt in Eb. change (of_Z 0) with 0%Qc in *.
    assert (Hb : base_rev <> 0%Qc).
    { intros E. rewrite E in Eb. now apply Qclt_not_eq in Eb. }
    assert (Hk : (0 < of_Z 100 / base_rev)%Qc).
    { destruct (Qclt_le_dec 0 (of_Z 100 / base_rev)) as [Hk | Hk];
        [exact Hk | exfalso].
      apply (Qcmult_le_compat_r _ _ base_rev) in Hk;
        [| now apply Qclt_le_weak].
      replace (of_Z 100 / base_rev * base_rev)%Qc with (of_Z 100) in Hk
        by (field; exact Hb).
      rewrite Qcmult_0_l in Hk. revert Hk. apply Qclt_not_le. reflexivity. }
    replace ((curr_rev - base_rev) / base_rev * of_Z 100)%Qc
      with ((curr_rev - base_rev) * (of_Z 100 / base_rev))%Qc
      by (field; exact Hb).
    split.
    + intros H. split; [exact Eb |].
      destruct (Qclt_le_dec curr_rev base_rev) as [Hlt | Hge]; [exact Hlt |].
      exfalso. apply (Qclt_not_le _ _ H).
      replace 0%Qc with (0 * (of_Z 100 / base_rev))%Qc by ring.
      apply Qcmult_le_compat_r; [| now apply Qclt_le_weak].
      unfold Qcminus. apply Qcle_minus_iff in Hge. exact Hge.
    + intros [_ H].
      replace 0%Qc with (0 * (of_Z 100 / base_rev))%Qc by ring.
      apply Qcmult_lt_compat_r; [exact Hk |].
      apply Qclt_minus_iff in H.
      apply Qclt_minus_iff.
      replace (0 + - (curr_rev - base_rev))%Qc with (base_rev + - curr_rev)%Qc
        by ring.
      exact H.
  - split; [intros H; discriminate H |].
    intros [H _]. apply ltb_lt in H. congruence.
Qed.

Lemma add_contribution (score : Z) (reasons : list risk_factor)
    (p : Z * list risk_factor) :
  10 * Z.of_nat (List.length reasons) <= score
  <= 40 * Z.of_nat (List.length reasons) ->
  contribution p ->
  10 * Z.of_nat (List.length (reasons ++ snd p)) <= score + fst p
  <= 40 * Z.of_nat (List.length (reasons ++ snd p)).
Proof.
  intros Hs [[Hz Hnil] | [Hp [reason Hone]]].
  - rewrite Hz, Hnil, app_nil_r. lia.
  - rewrite Hone, length_app. cbn [List.length]. lia.
Qed.

Lemma revenue_decline_reasons (base_rev curr_rev : num) :
  (0 < fst (revenue_decline base_rev curr_rev)
   /\ exists pct, snd (revenue_decline base_rev curr_rev)
                  = [RevenueDeclined pct])
  \/ (fst (revenue_decline base_rev curr_rev) = 0
      /\ snd (revenue_decline base_rev curr_rev) = []).
Proof.
  unfold revenue_decline.
  repeat match goal with
         | |- context [if ?b then _ else _] => destruct b
         end; cbn [fst snd]; (right; now split) || (left; split; [lia | eauto]).
Qed.

Lemma low_revenue_reasons (curr_rev : num) :
  snd (low_revenue curr_rev)
  = if ltb curr_rev (of_Z 5000) then [LowRevenue]
    else if ltb curr_rev (of_Z 10000) then [BelowAverageRevenue]
    else [].
Proof.
  unfold low_revenue.
  destruct (ltb curr_rev (of_Z 5000)); [reflexivity |].
  destruct (ltb curr_rev (of_Z 10000)); reflexivity.
Qed.

Lemma segment_tier_reasons (curr_seg : option string)
    (p : Z * list risk_factor) :
  segment_tier curr_seg = Ok p ->
  snd p = [] \/ snd p = [BottomTier] \/ snd p = [LowerTier].
Proof.
  unfold segment_tier. destruct curr_seg as [code |].
  - intros H. apply bind_Ok_inv in H. destruct H as [seg_num [_ H]].
    destruct (16 <=? seg_num); [| destruct (11 <=? seg_num)];
      injection H as <-; cbn [snd]; auto.
  - intros H. injection H as <-. auto.
Qed.

Lemma moved_down_reasons (entity : SnapshotRow) (p : Z * list risk_factor) :
  moved_down entity = Ok p -> snd p = [] \/ snd p = [MovedLower].
Proof.
  unfold moved_down.
  destruct (String.eqb (status entity) "Moved Internal");
    [| intros H; injection H as <-; now left].
  destruct (base_segment entity) as [b |];
    [| intros H; injection H as <-; now left].
  destruct (current_segment entity) as [c |];
    [| intros H; injection H as <-; now left].
  intros H. apply bind_Ok_inv in H. destruct H as [base_num [_ H]].
  apply bind_Ok_inv in H. destruct H as [curr_num [_ H]].
  destruct (base_num <? curr_num); injection H as <-; cbn [snd]; auto.
Qed.

Lemma score_entity_reasons (snapshot : Snapshot) (entity : SnapshotRow)
    (rec : RiskRow) :
  score_entity snapshot entity = Ok rec ->
  risk_entity rec = Frames.entity entity
  /\ risk_current_segment rec = current_segment entity
  /\ (risk_score rec = 0 <-> risk_factors rec = [])
  /\ 10 * Z.of_nat (List.length (risk_factors rec)) <= risk_score rec
     <= 40 * Z.of_nat (List.length (risk_factors rec))
  /\ ((exists pct, In (RevenueDeclined pct) (risk_factors rec))
      <-> (of_Z 0 < base_rev_of snapshot entity)%Qc
          /\ (curr_rev_of snapshot entity < base_rev_of snapshot entity)%Qc)
  /\ (In LowRevenue (risk_factors rec)
      <-> (curr_rev_of snapshot entity < of_Z 5000)%Qc).
Proof.
  intros H. unfold score_entity in H.
  apply bind_Ok_inv in H. destruct H as [f3 [H3 H]].
  apply bind_Ok_inv in H. destruct H as [f4 [H4 H]].
  injection H as <-.
  cbn [risk_entity risk_current_segment risk_score risk_factors].
  set (f1 := revenue_decline (base_rev_of snapshot entity)
                             (curr_rev_of snapshot entity)) in *.
  set (f2 := low_revenue (curr_rev_of snapshot entity)) in *.
  split; [reflexivity |]. split; [reflexivity |].
  cbn [app]. change (0 + fst f1) with (fst f1).
  assert (Hbounds :
            10 * Z.of_nat (List.length
                             (((snd f1 ++ snd f2) ++ snd f3) ++ snd f4))
            <= fst f1 + fst f2 + fst f3 + fst f4
            <= 40 * Z.of_nat (List.length
                                (((snd f1 ++ snd f2) ++ snd f3) ++ snd f4))).
  { apply add_contribution; [| now apply (moved_down_contribution entity)].
    apply add_contribution;
      [| now apply (segment_tier_contribution (current_segment entity))].
    apply add_contribution; [| apply low_revenue_contribution].
    apply (add_contribution 0 [] f1); [| apply revenue_decline_contribution].
    cbn [List.length]. lia. }
  split.
  { split.
    - intros Hz.
      destruct ((((snd f1 ++ snd f2) ++ snd f3) ++ snd f4)%list);
        [reflexivity | cbn [List.length] in Hbounds; lia].
    - intros Hnil. rewrite Hnil in Hbounds. cbn [List.length] in Hbounds. lia. }
  split; [exact Hbounds |].
  pose proof (revenue_decline_reasons (base_rev_of snapshot entity)
                                      (curr_rev_of snapshot entity)) as R1.
  pose proof (low_revenue_reasons (curr_rev_of snapshot entity)) as R2.
  pose proof (segment_tier_reasons _ _ H3) as R3.
  pose proof (moved_down_reasons _ _ H4) as R4.
  fold f1 in R1. fold f2 in R2.
  split.
  - rewrite <- decline_is_drop. fold f1. split.
    + intros [pct Hin]. rewrite !in_app_iff in Hin.
      destruct R1 as [[Hpos _] | [_ Hnil]]; [exact Hpos |].
      exfalso. rewrite Hnil, R2 in Hin.
      destruct Hin as [[[[] | Hin] | Hin] | Hin].
      * destruct (ltb _ (of_Z 5000));
          [| destruct (ltb _ (of_Z 10000))];
          cbn [In] in Hin; intuition discriminate.
      * destruct R3 as [E | [E | E]]; rewrite E in Hin;
          cbn [In] in Hin; intuition discriminate.
      * destruct R4 as [E | E]; rewrite E in Hin;
          cbn [In] in Hin; intuition discriminate.
    + intros Hpos. destruct R1 as [[_ [pct Hone]] | [Hz _]]; [| lia].
      exists pct. rewrite !in_app_iff, Hone. left. left. left. now left.
  - rewrite <- ltb_lt, !in_app_iff, R2. split.
    + intros [[[Hin | Hin] | Hin] | Hin].
      * destruct R1 as [[_ [pct Hone]] | [_ Hnil]];
          [rewrite Hone in Hin | rewrite Hnil in Hin];
          cbn [In] in Hin; intuition discriminate.
      * destruct (ltb _ (of_Z 5000)); [reflexivity |].
        destruct (ltb _ (of_Z 10000));
          cbn [In] in Hin; intuition discriminate.
      * destruct R3 as [E | [E | E]]; rewrite E in Hin;
          cbn [In] in Hin; intuition discriminate.
      * destruct R4 as [E | E]; rewrite E in Hin;
          cbn [In] in Hin; intuition discriminate.
    + intros Hlow. rewrite Hlow. left. left. right. now left.
Qed.

(** X17.  Every record of the churn scorer names its entity and its
    current segment.  The list of reasons is empty exactly when the
    score is 0 (the text None is shown for a score of 0 and for no
    other); every reason listed stands for between 10 and 40 points, so
    that with [n] reasons the score lies between [10 n] and [40 n]; a
    revenue decline is among the reasons exactly when the base revenue
    of the entity is positive and its current revenue is below it; and
    low revenue is among them exactly when the current revenue is
    below 5000. *)
Theorem churn_reasons_explain_score :
  forall sort snapshot out,
    (forall R key l, Permutation l (sort R key l)) ->
    calculate_churn_risk_score sort snapshot = Ok out ->
    forall rec,
      In rec (df_rows out) ->
      exists entity,
        In entity (df_rows snapshot)
        /\ risk_entity rec = Frames.entity entity
        /\ risk_current_segment rec = current_segment entity
        /\ (risk_score rec = 0 <-> risk_factors rec = [])
        /\ 10 * Z.of_nat (List.length (risk_factors rec)) <= risk_score rec
           <= 40 * Z.of_nat (List.length (risk_factors rec))
        /\ ((exists pct, In (RevenueDeclined pct) (risk_factors rec))
            <-> (of_Z 0 < base_rev_of snapshot entity)%Qc
                /\ (curr_rev_of snapshot entity
                    < base_rev_of snapshot entity)%Qc)
        /\ (In LowRevenue (risk_factors rec)
            <-> (curr_rev_of snapshot entity < of_Z 5000)%Qc).
Proof.
  intros sort snapshot out Hperm H rec Hrec.
  apply scored_rows in H. destruct H as [scored [HF Hrows]].
  rewrite Hrows in Hrec.
  apply (Permutation_in _ (Permutation_sym (Hperm _ _ _))) in Hrec.
  destruct (Forall2_In_r _ _ _ _ HF Hrec) as [entity [Hentity Hscore]].
  exists entity. split.
  - apply filter_In in Hentity. now destruct Hentity.
  - now apply score_entity_reasons.
Qed.

Lemma churn_reasons_explain_score_witness :
  exists entity,
    In entity (df_rows Examples.risk_snapshot)
    /\ risk_entity Examples.risk_row_1 = Frames.entity entity
    /\ risk_current_segment Examples.risk_row_1 = current_segment entity
    /\ (risk_score Examples.risk_row_1 = 0
        <-> risk_factors Examples.risk_row_1 = [])
    /\ 10 * Z.of_nat (List.length (risk_factors Examples.risk_row_1))
       <= risk_score Examples.risk_row_1
       <= 40 * Z.of_nat (List.length (risk_factors Examples.risk_row_1))
    /\ ((exists pct, In (RevenueDeclined pct)
                        (risk_factors Examples.risk_row_1))
        <-> (of_Z 0 < base_rev_of Examples.risk_snapshot entity)%Qc
            /\ (curr_rev_of Examples.risk_snapshot entity
                < base_rev_of Examples.risk_snapshot entity)%Qc)
    /\ (In LowRevenue (risk_factors Examples.risk_row_1)
        <-> (curr_rev_of Examples.risk_snapshot entity < of_Z 5000)%Qc).
Proof.
  apply (churn_reasons_explain_score Examples.sort_stable
           Examples.risk_snapshot
           (mkDataFrame risk_columns Examples.risk_rows)).
  - apply sort_stable_Permutation.
  - vm_compute. reflexivity.
  - vm_compute. tauto.
Defined.

End RiskReasons.

(** ** From the metrics table to the totals of a snapshot *)

Section SnapshotTotals.

Import Settings Caching Processor MetricsValidator Metrics Spec Notions.




End SnapshotTotals.

(** ** The summary next to the status column and the cohorts *)

Section SummaryAndStatus.

Import Metrics Summary Spec Notions Cohort.
Open Scope Qc_scope.

Lemma total_retained (snapshot : Snapshot) :
  sum (map (field "Retained") (segment_rows snapshot "count"))
  = of_nat (count (fun r => notna (base_segment r) && same_segment r)
                  snapshot).
Proof.
  rewrite segment_rows_field.
  change (fun segment =>
            field "Retained" (segment_row snapshot "count" segment))
    with (fun segment =>
            calculate_metric
              (select (fun r => eq_code (base_segment r) segment
                                && eq_code (current_segment r) segment)
                      snapshot)
              "current" "count").
  rewrite (map_ext _ _ (fun segment => select_count snapshot "current" _)).
  apply (total_of_counts snapshot base_segment).
  - apply all_segments_cover_base.
  - intros x r. apply same_segment_base.
Qed.

Lemma total_new (snapshot : Snapshot) :
  sum (map (field "New (System)") (segment_rows snapshot "count"))
  = of_nat (count (fun r => notna (current_segment r)
                            && isna (base_segment r)) snapshot).
Proof.
  rewrite segment_rows_field.
  change (fun segment =>
            field "New (System)" (segment_row snapshot "count" segment))
    with (fun segment =>
            calculate_metric
              (select (fun r => eq_code (current_segment r) segment
                                && isna (base_segment r)) snapshot)
              "current" "count").
  rewrite (map_ext _ _ (fun segment => select_count snapshot "current" _)).
  apply (total_of_counts snapshot current_segment).
  - apply all_segments_cover_current.
  - reflexivity.
Qed.

Lemma total_lost_system (snapshot : Snapshot) :
  sum (map (field "Lost (System)") (segment_rows snapshot "count"))
  = of_nat (count (fun r => notna (base_segment r)
                            && isna (current_segment r)) snapshot).
Proof.
  rewrite segment_rows_field.
  change (fun segment =>
            field "Lost (System)" (segment_row snapshot "count" segment))
    with (fun segment =>
            calculate_metric
              (select (fun r => eq_code (base_segment r) segment
                                && isna (current_segment r)) snapshot)
              "base" "count").
  rewrite (map_ext _ _ (fun segment => select_count snapshot "base" _)).
  apply (total_of_counts snapshot base_segment).
  - apply all_segments_cover_base.
  - reflexivity.
Qed.

(** On the rows that carry the status of the transition table, the
    tests on the segments are tests on the status. *)
Lemma count_classified (snapshot : Snapshot) (p q : SnapshotRow -> bool) :
  (forall r, In r (df_rows snapshot) -> classified r) ->
  (forall r, classified r -> p r = q r) ->
  count p snapshot = count q snapshot.
Proof.
  intros Hclass Hpq. unfold count. f_equal.
  apply filter_ext_in. intros r Hr. apply Hpq. now apply Hclass.
Qed.

Lemma status_tests (r : SnapshotRow) :
  classified r ->
  (notna (base_segment r) && same_segment r = has_status "Retained" r)
  /\ (notna (current_segment r) && isna (base_segment r)
      = has_status "New (System)" r)
  /\ (notna (base_segment r) && isna (current_segment r)
      = has_status "Lost (System)" r)
  /\ (notna (current_segment r)
      && (notna (base_segment r) && negb (same_segment r))
      = has_status "Moved Internal" r).
Proof.
  unfold classified, has_status, status_of, same_segment, notna.
  intros ->.
  destruct (base_segment r) as [b |], (current_segment r) as [c |];
    cbn; try (repeat split; reflexivity).
  destruct (String.eqb b c); cbn; repeat split; reflexivity.
Qed.

(** X19.  For a snapshot whose rows carry the status of the transition
    table, as every snapshot from the builder does, the TOTAL row of the
    summary of the entity counts counts the statuses: Retained is the
    number of rows with the status Retained, New (System) the number
    with New (System), Lost (System) the number with Lost (System), and
    Added (Other Seg) and Lost (Other Seg) are both the number with
    Moved Internal. *)
Theorem summary_totals_count_statuses :
  forall snapshot df,
    (forall r, In r (df_rows snapshot) -> classified r) ->
    generate_summary_view snapshot "count" = Ok df ->
    exists rows total,
      df_rows df = (rows ++ [total])%list
      /\ field "Retained" total
         = of_nat (count (has_status "Retained") snapshot)
      /\ field "New (System)" total
         = of_nat (count (has_status "New (System)") snapshot)
      /\ field "Lost (System)" total
         = of_nat (count (has_status "Lost (System)") snapshot)
      /\ field "Added (Other Seg)" total
         = of_nat (count (has_status "Moved Internal") snapshot)
      /\ field "Lost (Other Seg)" total
         = of_nat (count (has_status "Moved Internal") snapshot).
Proof.
  intros snapshot df Hclass H. rewrite summary_view_shape in H.
  destruct (all_segments snapshot) as [| seg segs] eqn:E; [discriminate H |].
  injection H as <-. cbn [df_rows].
  exists (segment_rows snapshot "count"). eexists. split; [reflexivity |].
  rewrite !totals_row_field by (cbv; tauto).
  rewrite <- total_moves_balance.
  rewrite total_retained, total_new, total_lost_system, total_added.
  repeat split; f_equal; apply count_classified; try assumption;
    intros r Hr; apply (status_tests r Hr).
Qed.

Lemma summary_totals_count_statuses_witness :
  exists rows total,
    df_rows (mkDataFrame summary_columns
               (segment_rows Examples.snapshot "count"
                ++ [totals_row (mkDataFrame summary_columns
                                  (segment_rows Examples.snapshot "count"))]))
    = (rows ++ [total])%list
    /\ field "Retained" total
       = of_nat (count (has_status "Retained") Examples.snapshot)
    /\ field "New (System)" total
       = of_nat (count (has_status "New (System)") Examples.snapshot)
    /\ field "Lost (System)" total
       = of_nat (count (has_status "Lost (System)") Examples.snapshot)
    /\ field "Added (Other Seg)" total
       = of_nat (count (has_status "Moved Internal") Examples.snapshot)
    /\ field "Lost (Other Seg)" total
       = of_nat (count (has_status "Moved Internal") Examples.snapshot).
Proof.
  apply (summary_totals_count_statuses Examples.snapshot).
  - intros r Hr. vm_compute in Hr.
    repeat (destruct Hr as [<- | Hr]; [reflexivity |]). contradiction.
  - vm_compute. reflexivity.
Defined.

Lemma cohort_of_raw (snapshot : Snapshot) (base_seg : string)
    (row : CohortRow) :
  cohort_of snapshot base_seg = Ok row ->
  let cohort := filter (fun r => eq_code (base_segment r) base_seg)
                       (df_rows snapshot) in
  Base_Segment row = base_seg
  /\ Cohort_Size row = Z.of_nat (List.length cohort)
  /\ Retained row
     = Z.of_nat (List.length (filter (has_status "Retained") cohort))
  /\ Churned row
     = Z.of_nat (List.length (filter (has_status "Lost (System)") cohort))
  /\ (Moved_Up row + Moved_Down row)%Z
     = Z.of_nat (List.length
                   (filter (fun r => notna (current_segment r))
                           (filter (has_status "Moved Internal") cohort))).
Proof.
  intros H cohort. unfold cohort_of in H.
  apply bind_Ok_inv in H. destruct H as [base_num [_ H]].
  apply bind_Ok_inv in H. destruct H as [moves [Hmoves H]].
  injection H as <-.
  apply count_moves_sum in Hmoves. destruct Hmoves as [_ [_ Hsum]].
  repeat split; try reflexivity. exact Hsum.
Qed.

Lemma of_Z_of_nat (n : nat) : of_Z (Z.of_nat n) = of_nat n.
Proof. reflexivity. Qed.

(** X20.  The cohorts and the summary of the entity counts agree.  The
    size of the cohort of a base segment is the Base of that segment in
    the summary; and when the rows of the snapshot carry the status of
    the transition table, Retained is the Retained of the summary,
    Churned its Lost (System), and Moved Up and Moved Down together its
    Lost (Other Seg). *)
Theorem cohorts_agree_with_summary :
  forall snapshot out,
    identify_segment_cohorts snapshot = Ok out ->
    Forall (fun row =>
              of_Z (Cohort_Size row)
              = field "Base" (segment_row snapshot "count" (Base_Segment row)))
           (df_rows out)
    /\ ((forall r, In r (df_rows snapshot) -> classified r) ->
        Forall (fun row =>
                  let s := segment_row snapshot "count" (Base_Segment row) in
                  of_Z (Retained row) = field "Retained" s
                  /\ of_Z (Moved_Up row + Moved_Down row)%Z
                     = field "Lost (Other Seg)" s
                  /\ of_Z (Churned row) = field "Lost (System)" s)
               (df_rows out)).
Proof.
  intros snapshot out H. unfold identify_segment_cohorts in H.
  apply bind_Ok_inv in H. destruct H as [cohorts [Hloop H]].
  apply bind_Ok_inv in H. destruct H as [_ [_ H]]. injection H as <-.
  cbn [df_rows DataFrame_of_records].
  apply collect_Ok in Hloop. destruct Hloop as [rs [-> HF]]. cbn [app].
  split.
  - apply Forall_forall. intros row Hrow.
    destruct (Forall2_In_r _ _ _ _ HF Hrow) as [seg [_ Hseg]].
    destruct (cohort_of_raw _ _ _ Hseg) as [-> [-> _]].
    rewrite of_Z_of_nat.
    change (field "Base" (segment_row snapshot "count" seg))
      with (calculate_metric
              (select (fun r => eq_code (base_segment r) seg) snapshot)
              "base" "count").
    now rewrite select_count.
  - intros Hclass. apply Forall_forall. intros row Hrow.
    destruct (Forall2_In_r _ _ _ _ HF Hrow) as [seg [_ Hseg]].
    destruct (cohort_of_raw _ _ _ Hseg) as [-> [_ [-> [-> ->]]]].
    cbv zeta. rewrite !of_Z_of_nat, !filter_filter_andb.
    change (field "Retained" (segment_row snapshot "count" seg))
      with (calculate_metric
              (select (fun r => eq_code (base_segment r) seg
                                && eq_code (current_segment r) seg) snapshot)
              "current" "count").
    change (field "Lost (Other Seg)" (segment_row snapshot "count" seg))
      with (calculate_metric
              (select (fun r => eq_code (base_segment r) seg
                                && notna (current_segment r)
                                && ne_code (current_segment r) seg) snapshot)
              "base" "count").
    change (field "Lost (System)" (segment_row snapshot "count" seg))
      with (calculate_metric
              (select (fun r => eq_code (base_segment r) seg
                                && isna (current_segment r)) snapshot)
              "base" "count").
    rewrite !select_count.
    repeat split; f_equal; apply count_classified; try assumption;
      intros r Hr; destruct (status_tests r Hr) as [H1 [H2 [H3 H4]]].
    + rewrite same_segment_base, <- H1.
      unfold eq_code, notna. now destruct (base_segment r).
    + rewrite moved_out_of, <- H4.
      unfold eq_code, notna.
      destruct (base_segment r), (current_segment r); cbn;
        rewrite ?andb_false_r, ?andb_true_r; reflexivity.
    + rewrite <- H3. unfold eq_code, notna. now destruct (base_segment r).
Qed.

Lemma cohorts_agree_with_summary_witness :
  exists out,
    identify_segment_cohorts Examples.snapshot = Ok out
    /\ Forall (fun row =>
                 let s := segment_row Examples.snapshot "count"
                                      (Base_Segment row) in
                 of_Z (Retained row) = field "Retained" s
                 /\ of_Z (Moved_Up row + Moved_Down row)%Z
                    = field "Lost (Other Seg)" s
                 /\ of_Z (Churned row) = field "Lost (System)" s)
              (df_rows out).
Proof.
  destruct (identify_segment_cohorts Examples.snapshot) as [out |] eqn:E;
    [| vm_compute in E; discriminate E].
  exists out. split; [reflexivity |].
  apply (proj2 (cohorts_agree_with_summary Examples.snapshot out E)).
  intros r Hr. vm_compute in Hr.
  repeat (destruct Hr as [<- | Hr]; [reflexivity |]). contradiction.
Defined.

End SummaryAndStatus.

(** ** The matrix of segments and products *)

Section ProductMatrixFacts.

Import Notions Risk ProductMatrix.










End ProductMatrixFacts.
